(** * yatb: the trading bot's orchestrator (classes/bot.js)

    A shallow embedding of the [Bot] class: signal digestion, capital
    sizing, the rate limiter in front of the digestion jobs, pausing,
    shutdown and start-up.  The source carries two versions of the class;
    the current one is [Bot], the older one is [Legacy].  [Session] is
    the state the current class keeps around the screen: the navigation
    keys, the paging of the log, the funds and the server-time resync.

    JavaScript numbers are IEEE 754 doubles and are modelled by Rocq's
    primitive floats; strings by [string]; objects used as dictionaries by
    [gmap string _] (lookup only) or by association lists where
    [Object.keys] order is observed; arrays by lists.  Promises are
    modelled by the moment they settle: an [await] suspends the running
    function, and the settlement arrives as an event of the event loop. *)

From Stdlib Require Import NArith Ascii String List Floats.PrimFloat.
From stdpp Require Import base strings gmap list pretty.
Import ListNotations.

Set Warnings "-register-all".
Open Scope string_scope.
Open Scope list_scope.

(** ** JavaScript values the bot looks at *)

Module Js.

(** [new Error(message)] and the [TypeError] of a property read on
    [undefined] (the text of such a message is the engine's; nothing
    depends on it). *)
Inductive Error :=
| error (message : string)
| typeError (message : string).

Definition message (e : Error) : string :=
  match e with error m => m | typeError m => m end.

(** How a promise settles. *)
Inductive Settled (A : Type) :=
| resolved (a : A)
| rejected (e : Error).
Arguments resolved {A} a.
Arguments rejected {A} e.

(** Configuration values: [typeof], [Array.isArray] and [.length] are
    all the bot asks of them. *)
Inductive Value :=
| undefined
| null
| boolean (b : bool)
| number (x : float)
| str (s : string)
| array (items : list Value)
| object (fields : list (string * Value)).

(** Truthiness of a number: [0], [-0] and [NaN] are falsy. *)
Definition falsyNumber (x : float) : bool := is_zero x || is_nan x.

(** [x || 0] on a number. *)
Definition orZero (x : float) : float := if falsyNumber x then 0%float else x.

Definition truthy (v : Value) : bool :=
  match v with
  | undefined | null => false
  | boolean b => b
  | number x => negb (falsyNumber x)
  | str s => negb (String.eqb s "")
  | array _ | object _ => true
  end.

(** [typeof v === 'object'] *)
Definition typeofObject (v : Value) : bool :=
  match v with null | array _ | object _ => true | _ => false end.

Definition isArray (v : Value) : bool :=
  match v with array _ => true | _ => false end.

(** Property read [v[k]] on an object literal; [undefined] when absent. *)
Fixpoint getField (fields : list (string * Value)) (k : string) : Value :=
  match fields with
  | [] => undefined
  | (k', v) :: rest => if String.eqb k' k then v else getField rest k
  end.

(** Property read [v.k]: a [TypeError] on [undefined] and [null]. *)
Definition get (v : Value) (k : string) : Error + Value :=
  match v with
  | undefined | null => inl (typeError ("Cannot read property '" +:+ k +:+ "' of undefined"))
  | object fields => inr (getField fields k)
  | _ => inr undefined
  end.

(** [error.message = m] keeps the class of the error. *)
Definition withMessage (e : Error) (m : string) : Error :=
  match e with error _ => error m | typeError _ => typeError m end.

(** [toUpperCase] and [toLowerCase] on ASCII letters; other characters
    are left as they are. *)
Definition upperAscii (c : ascii) : ascii :=
  let n := nat_of_ascii c in
  if (97 <=? n)%nat && (n <=? 122)%nat then ascii_of_nat (n - 32) else c.

Definition lowerAscii (c : ascii) : ascii :=
  let n := nat_of_ascii c in
  if (65 <=? n)%nat && (n <=? 90)%nat then ascii_of_nat (n + 32) else c.

Fixpoint toLowerCase (s : string) : string :=
  match s with
  | EmptyString => EmptyString
  | String c rest => String (lowerAscii c) (toLowerCase rest)
  end.

(** [s.charAt(0).toUpperCase() + s.slice(1).toLowerCase()] *)
Definition capitalize (s : string) : string :=
  match s with
  | EmptyString => EmptyString
  | String c rest => String (upperAscii c) (toLowerCase rest)
  end.

End Js.

(** ** Collaborators: chart, strategy, trade *)

Record ChartInfo := { baseAsset : string; quoteAsset : string }.

Module Strategy.
(** [risk] is [strategy.config.trade.risk]: a number, a string such as
    ["10%"], or missing. *)
Record t := { name : string; risk : Js.Value }.
End Strategy.

Module Chart.
Record t := {
  name : string;
  info : ChartInfo;
  symbol : string;            (* chart.config.symbol *)
  strategies : list Strategy.t (* chart.config.strategies *)
}.
End Chart.

Module Trade.

Record t := {
  id : string;
  advisorId : string;
  chartId : string;
  who : string;
  isLong : bool;
  quantity : float;
  isOpen : bool;
  signal : string;
  strategy : Strategy.t
}.

(** The object literal the bot hands to [Trade.initialize]; the
    closures in it ([buy], [sell], [log], [refresh], [updateFunds]) are
    methods of the bot and are modelled there. *)
Record Options := {
  o_advisorId : string;
  o_chartId : string;
  o_id : string;
  o_isLong : bool;
  o_quantity : float;
  o_signal : string;
  o_strategy : Strategy.t;
  o_symbol : string;
  o_who : string
}.

(** Modelled from the spec: class Trade (classes/trade.js) is missing
    from the sources.  Opening submits the entry order; on success the
    position is open and carries the fields it was constructed with, on
    entry-order failure the attempt is abandoned and nothing is
    returned (the bot tests [if (trade)]). *)
Definition initialize (o : Options) (entryFilled : bool) : option t :=
  if entryFilled then
    Some {| id := o_id o; advisorId := o_advisorId o; chartId := o_chartId o;
            who := o_who o; isLong := o_isLong o; quantity := o_quantity o;
            isOpen := true; signal := o_signal o; strategy := o_strategy o |}
  else None.

(** Modelled from the spec: class Trade is missing from the sources.
    A position that finishes closing is marked closed and stays in the
    list; nothing reopens it. *)
Definition closed (tr : t) : t :=
  {| id := id tr; advisorId := advisorId tr; chartId := chartId tr;
     who := who tr; isLong := isLong tr; quantity := quantity tr;
     isOpen := false; signal := signal tr; strategy := strategy tr |}.

End Trade.

(** What [this.log] receives: an [Error] or [{ level, message }]. *)
Inductive LogEvent :=
| logError (e : Js.Error)
| logMessage (level message : string).

(** [Log.level] as the constructor of classes/log.js sets it. *)
Definition Log_level (ev : LogEvent) : string :=
  match ev with logError _ => "error" | logMessage l _ => l end.

(** One entry of the fund ledger ([this.funds[asset]]). *)
Record Fund := { available : float }.

(** Candles are opaque to the bot: it only passes them on. *)
Definition Candles := list float.

(** ** Array helpers with the callbacks' exceptions *)

(** [Array.prototype.filter] with a callback that may throw ([None]). *)
Fixpoint filterThrowing {A} (p : A -> option bool) (l : list A) : option (list A) :=
  match l with
  | [] => Some []
  | x :: rest =>
      match p x with
      | None => None
      | Some keep =>
          match filterThrowing p rest with
          | None => None
          | Some rest' => Some (if keep then x :: rest' else rest')
          end
      end
  end.

(** [trades.reduce((quantity, trade) => quantity + trade.quantity, 0)] *)
Definition sumQuantity (l : list Trade.t) : float :=
  fold_left (fun quantity trade => (quantity + Trade.quantity trade)%float) l 0%float.

(** [Array.prototype.find], with the position of the element found (a
    trade is an object: closing it changes the element in place). *)
Fixpoint findIndexed {A} (p : A -> bool) (l : list A) : option (nat * A) :=
  match l with
  | [] => None
  | x :: rest =>
      if p x then Some (0, x)
      else match findIndexed p rest with
           | Some (i, y) => Some (S i, y)
           | None => None
           end
  end.

(** [Promise.all] over promises named by numbers: pending on those not
    yet resolved, resolved once none is left, rejected by the first
    rejection (what settles afterwards is ignored). *)
Inductive PromiseAll :=
| allPending (remaining : list nat)
| allResolved
| allRejected (e : Js.Error).

Definition promiseAll (ids : list nat) : PromiseAll :=
  match ids with [] => allResolved | _ => allPending ids end.

Definition without (i : nat) (ids : list nat) : list nat :=
  List.filter (fun j => negb (Nat.eqb i j)) ids.

Definition promiseAllSettle (p : PromiseAll) (i : nat) (r : Js.Settled unit) : PromiseAll :=
  match p with
  | allPending remaining =>
      if existsb (Nat.eqb i) remaining then
        match r with
        | Js.rejected e => allRejected e
        | Js.resolved _ => promiseAll (without i remaining)
        end
      else p
  | _ => p
  end.

(** Positions in the list, from [i] on, of the trades with [isOpen]. *)
Fixpoint openFrom (i : nat) (ts : list Trade.t) : list nat :=
  match ts with
  | [] => []
  | trade :: rest =>
      if Trade.isOpen trade then i :: openFrom (S i) rest else openFrom (S i) rest
  end.

(** ** The current version of the class *)

Module Bot.

(** What one strategy's analysis resolves to; [undefined] entries are
    filtered out by [analyzeChart]. *)
Record Advice := { signals : list string; strategy : Strategy.t }.

Module Advisor.
(** [analyze] is the advisor's method: the awaited
    [Promise.all(advisor.analyze(candles, strategies, isFinal, who))],
    or its rejection.  Class Advisor itself is missing from the
    sources, so the method is a field. *)
Record t := {
  name : string;
  chartIds : list string;
  analyze : Candles -> list Strategy.t -> bool -> string ->
            Js.Settled (list (option Advice))
}.
End Advisor.

(** The fields of [this] that the modelled methods read or write.
    [advisors] keeps insertion order ([Object.keys]); [unpause] is the
    subscription of the pause timer, by timer number. *)
Record t := {
  advisors : list (string * Advisor.t);
  charts : gmap string Chart.t;
  currentMode : option string;
  funds : gmap string Fund;
  logs : list LogEvent;
  paused : bool;
  trades : list Trade.t;
  unpause : option nat
}.

Definition with_trades (b : t) (ts : list Trade.t) : t :=
  {| advisors := advisors b; charts := charts b; currentMode := currentMode b;
     funds := funds b; logs := logs b; paused := paused b; trades := ts;
     unpause := unpause b |}.

Definition with_funds (b : t) (fs : gmap string Fund) : t :=
  {| advisors := advisors b; charts := charts b; currentMode := currentMode b;
     funds := fs; logs := logs b; paused := paused b; trades := trades b;
     unpause := unpause b |}.

Definition with_paused (b : t) (p : bool) (u : option nat) : t :=
  {| advisors := advisors b; charts := charts b; currentMode := currentMode b;
     funds := funds b; logs := logs b; paused := p; trades := trades b;
     unpause := u |}.

Definition with_mode (b : t) (m : option string) : t :=
  {| advisors := advisors b; charts := charts b; currentMode := m;
     funds := funds b; logs := logs b; paused := paused b; trades := trades b;
     unpause := unpause b |}.

(** [this.log(event)]: the entry is appended to [this.logs] (the
    rendering on the UI or the console is not modelled). *)
Definition log (b : t) (ev : LogEvent) : t :=
  {| advisors := advisors b; charts := charts b; currentMode := currentMode b;
     funds := funds b; logs := logs b ++ [ev]; paused := paused b;
     trades := trades b; unpause := unpause b |}.

(** [this.advisors[advisorId]] *)
Fixpoint getAdvisor (l : list (string * Advisor.t)) (advisorId : string) : option Advisor.t :=
  match l with
  | [] => None
  | (k, a) :: rest => if String.eqb k advisorId then Some a else getAdvisor rest advisorId
  end.

Section Runtime.

(** [parseFloat] on anything but a number is the JavaScript built-in
    (the value is converted to a string, which is parsed). *)
Variable parseFloatOther : Js.Value -> float.

(** [parseFloat(v)] for the values [risk || 0] can take: a truthy
    number prints and parses back to itself. *)
Definition parseFloat (v : Js.Value) : float :=
  match v with
  | Js.number x => x
  | _ => parseFloatOther v
  end.

(** [parseFloat(strategy.config.trade.risk || 0)] *)
Definition riskOf (s : Strategy.t) : float :=
  parseFloat (if Js.truthy (Strategy.risk s) then Strategy.risk s else Js.number 0%float).

(** [trade => trade.isLong && trade.isOpen &&
     this.charts[trade.chartId].info.baseAsset === asset];
    [None] is the [TypeError] of reading [info] of an unknown chart. *)
Definition longSellingBack (b : t) (asset : string) (trade : Trade.t) : option bool :=
  if Trade.isLong trade && Trade.isOpen trade then
    match charts b !! Trade.chartId trade with
    | Some chart => Some (String.eqb (baseAsset (Chart.info chart)) asset)
    | None => None
    end
  else Some false.

(** [trade => !trade.isLong && trade.isOpen &&
     this.charts[trade.chartId].info.quoteAsset === asset] *)
Definition shortSellingBack (b : t) (asset : string) (trade : Trade.t) : option bool :=
  if negb (Trade.isLong trade) && Trade.isOpen trade then
    match charts b !! Trade.chartId trade with
    | Some chart => Some (String.eqb (quoteAsset (Chart.info chart)) asset)
    | None => None
    end
  else Some false.

Definition longsSellingBackAsset (b : t) (asset : string) : option (list Trade.t) :=
  filterThrowing (longSellingBack b asset) (trades b).

Definition shortsSellingBackAsset (b : t) (asset : string) : option (list Trade.t) :=
  filterThrowing (shortSellingBack b asset) (trades b).

Definition quantityLockedByTrades (b : t) (asset : string) : option float :=
  match longsSellingBackAsset b asset with
  | None => None
  | Some longs =>
      match shortsSellingBackAsset b asset with
      | None => None
      | Some shorts => Some (sumQuantity longs + sumQuantity shorts)%float
      end
  end.

(** [(this.funds[asset] && this.funds[asset].available) || 0] *)
Definition ledgerAvailable (b : t) (asset : string) : float :=
  match funds b !! asset with
  | Some fund => Js.orZero (available fund)
  | None => 0%float
  end.

(** [const asset = isLong ? chart.info.quoteAsset : chart.info.baseAsset] *)
Definition settlementAsset (chart : Chart.t) (isLong : bool) : string :=
  if isLong then quoteAsset (Chart.info chart) else baseAsset (Chart.info chart).

(** [const funds = ... - quantityLockedByTrades] *)
Definition availableFunds (b : t) (asset : string) : option float :=
  match quantityLockedByTrades b asset with
  | None => None
  | Some locked => Some (ledgerAvailable b asset - locked)%float
  end.

(** [const amount = (funds * parseFloat(strategy.config.trade.risk || 0)) / 100],
    the argument of [clampQuantity]. *)
Definition amount (b : t) (chart : Chart.t) (isLong : bool) (s : Strategy.t) : option float :=
  match availableFunds b (settlementAsset chart isLong) with
  | None => None
  | Some funds => Some ((funds * riskOf s) / 100)%float
  end.

(** *** Signal digestion

    [digestAdvice] hands one job per signal to the limiter.  A job is
    the promise executor of lines 139-227; it runs up to its first
    [await], is resumed when the awaited promise settles, and ends by
    [resolve()] or [reject(error)]. *)

(** The payload of a DIGEST_ADVICE notification:
    [{ advisorId, chartId, ...advice }]. *)
Record Payload := { advisorId : string; chartId : string; advice : Advice }.

(** What the closure of one signal captures.  [j_batch] numbers the
    [digestAdvice] call, whose promises [processNotification] awaits
    together. *)
Record Job := {
  j_advisorId : string;
  j_chartId : string;
  j_chart : Chart.t;
  j_who : string;
  j_signal : string;
  j_strategy : Strategy.t;
  j_batch : nat
}.

Definition whoOf (advisor : Advisor.t) (chart : Chart.t) (s : Strategy.t) : string :=
  Advisor.name advisor +:+ "→" +:+ Chart.name chart +:+ "→" +:+ Strategy.name s.

(** [digestAdvice(payload)]: the jobs scheduled, in the order of
    [signals.map]; reading [name] of an unknown advisor or chart throws. *)
Definition digestAdvice (b : t) (p : Payload) (batchNo : nat) : Js.Error + list Job :=
  match getAdvisor (advisors b) (advisorId p) with
  | None => inl (Js.typeError "Cannot read property 'name' of undefined")
  | Some advisor =>
      match charts b !! chartId p with
      | None => inl (Js.typeError "Cannot read property 'name' of undefined")
      | Some chart =>
          let who := whoOf advisor chart (strategy (advice p)) in
          inr (map (fun signal =>
                      {| j_advisorId := advisorId p; j_chartId := chartId p;
                         j_chart := chart; j_who := who; j_signal := signal;
                         j_strategy := strategy (advice p); j_batch := batchNo |})
                   (signals (advice p)))
      end
  end.

(** [trade => trade.advisorId === advisorId && trade.chartId === chartId
     && trade.who === who && trade.isOpen] *)
Definition closeCandidate (job : Job) (trade : Trade.t) : bool :=
  String.eqb (Trade.advisorId trade) (j_advisorId job)
  && String.eqb (Trade.chartId trade) (j_chartId job)
  && String.eqb (Trade.who trade) (j_who job)
  && Trade.isOpen trade.

(** [(signal === 'CLOSE LONG' && trade.isLong) ||
     (signal === 'CLOSE SHORT' && !trade.isLong)] *)
Definition polarityMatches (signal : string) (trade : Trade.t) : bool :=
  (String.eqb signal "CLOSE LONG" && Trade.isLong trade)
  || (String.eqb signal "CLOSE SHORT" && negb (Trade.isLong trade)).

(** [trade => trade.advisorId === advisorId && trade.chartId === chartId
     && trade.isOpen] *)
Definition openFor (a c : string) (trade : Trade.t) : bool :=
  String.eqb (Trade.advisorId trade) a
  && String.eqb (Trade.chartId trade) c
  && Trade.isOpen trade.

(** The promise a job is waiting for. *)
Inductive Pending :=
| awaitClose (i : nat) (reason : string)
    (* await trade.close(reason), trade being trades[i] *)
| awaitClampQuantity (amount : float) (info : ChartInfo) (isLong : bool)
    (* await this.provider.clampQuantity(amount, chart.info, isLong) *)
| awaitTradeInitialize (o : Trade.Options).
    (* await Trade.initialize({...}) *)

(** How the awaited promise settles.  [Trade.initialize] resolves to a
    trade or to nothing, see [Trade.initialize]. *)
Inductive Response :=
| closeSettled (r : Js.Settled unit)
| clampSettled (r : Js.Settled float)
| initializeSettled (r : Js.Settled bool).

Inductive JobStep :=
| finished (r : Js.Settled unit)
| suspended (p : Pending).

(** The job from its start to its first [await]. *)
Definition startJob (b : t) (job : Job) : JobStep :=
  let signal := j_signal job in
  if String.eqb signal "CLOSE LONG" || String.eqb signal "CLOSE SHORT" then
    match findIndexed (closeCandidate job) (trades b) with
    | Some (i, trade) =>
        if polarityMatches signal trade
        then suspended (awaitClose i "signal")
        else finished (Js.resolved tt)
    | None => finished (Js.resolved tt)
    end
  else if String.eqb signal "LONG" || String.eqb signal "SHORT" then
    let isLong := String.eqb signal "LONG" in
    match amount b (j_chart job) isLong (j_strategy job) with
    | None => finished (Js.rejected (Js.typeError "Cannot read property 'info' of undefined"))
    | Some a => suspended (awaitClampQuantity a (Chart.info (j_chart job)) isLong)
    end
  else
    finished (Js.rejected (Js.error
      ("Unable to process signal " +:+ signal +:+ " from " +:+ Strategy.name (j_strategy job)))).

(** The object literal of lines 169-213. *)
Definition tradeOptions (b : t) (job : Job) (isLong : bool) (quantity : float) : Trade.Options :=
  {| Trade.o_advisorId := j_advisorId job;
     Trade.o_chartId := j_chartId job;
     Trade.o_id := "T" +:+ pretty (length (trades b) + 1)%nat;
     Trade.o_isLong := isLong;
     Trade.o_quantity := quantity;
     Trade.o_signal := j_signal job;
     Trade.o_strategy := j_strategy job;
     Trade.o_symbol := Chart.symbol (j_chart job);
     Trade.o_who := j_who job |}.

(** The job from the settlement of the promise it awaits to its next
    [await] or its end.  [None]: the response is not one of the awaited
    promise. *)
Definition resumeJob (b : t) (job : Job) (p : Pending) (r : Response) : option (t * JobStep) :=
  match p, r with
  | awaitClose _ _, closeSettled (Js.resolved _) => Some (b, finished (Js.resolved tt))
  | awaitClose _ _, closeSettled (Js.rejected e) => Some (b, finished (Js.rejected e))
  | awaitClampQuantity _ _ isLong, clampSettled (Js.resolved quantity) =>
      if (0 <? quantity)%float
         && negb (existsb (openFor (j_advisorId job) (j_chartId job)) (trades b))
      then Some (b, suspended (awaitTradeInitialize (tradeOptions b job isLong quantity)))
      else Some (b, finished (Js.resolved tt))
  | awaitClampQuantity _ _ _, clampSettled (Js.rejected e) => Some (b, finished (Js.rejected e))
  | awaitTradeInitialize o, initializeSettled (Js.resolved entryFilled) =>
      match Trade.initialize o entryFilled with
      | Some trade => Some (with_trades b (trades b ++ [trade]), finished (Js.resolved tt))
      | None => Some (b, finished (Js.resolved tt))
      end
  | awaitTradeInitialize _, initializeSettled (Js.rejected e) => Some (b, finished (Js.rejected e))
  | _, _ => None
  end.

(** *** The limiter and the event loop

    [new Bottleneck({ maxConcurrent: 1, minTime: 300 })]: a job is
    launched when fewer than [maxConcurrent] jobs are running and at
    least [minTime] milliseconds have passed since the last launch; jobs
    are launched in the order they were scheduled. *)

Definition maxConcurrent : nat := 1.
Definition minTime : N := 300.

(** [this.provider.buy(quantity, info)] and [this.provider.sell(...)] *)
Inductive Order :=
| providerBuy (quantity : float) (info : ChartInfo)
| providerSell (quantity : float) (info : ChartInfo).

(** The [buy] closure handed to a trade (lines 171-180): it awaits
    [this.provider.buy] and passes the order or the error on. *)
Definition buy (quantity : float) (info : ChartInfo) : Order := providerBuy quantity info.

(** The [sell] closure handed to a trade (lines 189-197). *)
Definition sell (quantity : float) (info : ChartInfo) : Order := providerSell quantity info.

(** The bot together with its limiter and the clock.  [scheduled],
    [launches] and [submissions] record what happened and are read by
    no step. *)
Record World := {
  bot : t;
  queue : list Job;
  running : list (Job * Pending);
  lastLaunch : option N;
  now : N;
  nextBatch : nat;
  rejectedBatches : list nat;
  scheduled : list Job;
  launches : list (N * Job);
  submissions : list (N * Order)
}.

Definition initialWorld (b : t) : World :=
  {| bot := b; queue := []; running := []; lastLaunch := None; now := 0%N;
     nextBatch := 0; rejectedBatches := []; scheduled := []; launches := [];
     submissions := [] |}.

Inductive Event :=
| tick (ms : N)                       (* time passes *)
| notify (p : Payload)                (* a DIGEST_ADVICE notification is processed *)
| launch                              (* the limiter launches the next job *)
| settle (k : nat) (r : Response)     (* the promise awaited by running job k settles *)
| tradeCloses (i : nat)               (* trades[i] finishes closing *)
| tradeOrders (o : Order)             (* a trade calls its buy or sell closure *)
| fundsUpdated (f : gmap string Fund)  (* updateFunds stores a new ledger *)
| logCalled (entry : LogEvent).       (* a trade or a chart calls the log closure it was handed *)

Definition with_bot (w : World) (b : t) : World :=
  {| bot := b; queue := queue w; running := running w; lastLaunch := lastLaunch w;
     now := now w; nextBatch := nextBatch w; rejectedBatches := rejectedBatches w;
     scheduled := scheduled w; launches := launches w; submissions := submissions w |}.

Definition with_running (w : World) (r : list (Job * Pending)) : World :=
  {| bot := bot w; queue := queue w; running := r; lastLaunch := lastLaunch w;
     now := now w; nextBatch := nextBatch w; rejectedBatches := rejectedBatches w;
     scheduled := scheduled w; launches := launches w; submissions := submissions w |}.

(** The [catch] of [processNotification] around
    [await Promise.all(this.digestAdvice(payload))]: the first rejection
    among the promises of one call is logged, later ones find the
    [Promise.all] already settled. *)
Definition jobSettled (w : World) (job : Job) (r : Js.Settled unit) : World :=
  match r with
  | Js.resolved _ => w
  | Js.rejected e =>
      if existsb (Nat.eqb (j_batch job)) (rejectedBatches w) then w
      else
        {| bot := log (bot w) (logError e); queue := queue w; running := running w;
           lastLaunch := lastLaunch w; now := now w; nextBatch := nextBatch w;
           rejectedBatches := j_batch job :: rejectedBatches w;
           scheduled := scheduled w; launches := launches w;
           submissions := submissions w |}
  end.

Definition spacingElapsed (w : World) : bool :=
  match lastLaunch w with
  | None => true
  | Some last => (last + minTime <=? now w)%N
  end.

(** One step of the event loop; [None] when the event cannot happen in
    this state. *)
Definition step (w : World) (ev : Event) : option World :=
  match ev with
  | tick ms =>
      Some {| bot := bot w; queue := queue w; running := running w;
              lastLaunch := lastLaunch w; now := (now w + ms)%N;
              nextBatch := nextBatch w; rejectedBatches := rejectedBatches w;
              scheduled := scheduled w; launches := launches w;
              submissions := submissions w |}
  | notify p =>
      match digestAdvice (bot w) p (nextBatch w) with
      | inl e => Some (with_bot w (log (bot w) (logError e)))
      | inr jobs =>
          Some {| bot := bot w; queue := queue w ++ jobs; running := running w;
                  lastLaunch := lastLaunch w; now := now w;
                  nextBatch := S (nextBatch w); rejectedBatches := rejectedBatches w;
                  scheduled := scheduled w ++ jobs; launches := launches w;
                  submissions := submissions w |}
      end
  | launch =>
      match queue w with
      | [] => None
      | job :: rest =>
          if (length (running w) <? maxConcurrent)%nat && spacingElapsed w then
            let w' := {| bot := bot w; queue := rest; running := running w;
                         lastLaunch := Some (now w); now := now w;
                         nextBatch := nextBatch w; rejectedBatches := rejectedBatches w;
                         scheduled := scheduled w;
                         launches := launches w ++ [(now w, job)];
                         submissions := submissions w |} in
            match startJob (bot w) job with
            | finished r => Some (jobSettled w' job r)
            | suspended p => Some (with_running w' (running w ++ [(job, p)]))
            end
          else None
      end
  | settle k r =>
      match running w !! k with
      | None => None
      | Some (job, p) =>
          match resumeJob (bot w) job p r with
          | None => None
          | Some (b', finished res) =>
              Some (jobSettled (with_running (with_bot w b') (delete k (running w))) job res)
          | Some (b', suspended p') =>
              Some (with_running (with_bot w b') (<[k := (job, p')]> (running w)))
          end
      end
  | tradeCloses i =>
      match trades (bot w) !! i with
      | None => None
      | Some trade =>
          Some (with_bot w (with_trades (bot w) (<[i := Trade.closed trade]> (trades (bot w)))))
      end
  | tradeOrders o =>
      Some {| bot := bot w; queue := queue w; running := running w;
              lastLaunch := lastLaunch w; now := now w;
              nextBatch := nextBatch w; rejectedBatches := rejectedBatches w;
              scheduled := scheduled w; launches := launches w;
              submissions := submissions w ++ [(now w, o)] |}
  | fundsUpdated f => Some (with_bot w (with_funds (bot w) f))
  | logCalled entry => Some (with_bot w (log (bot w) entry))
  end.

Fixpoint run (w : World) (evs : list Event) : option World :=
  match evs with
  | [] => Some w
  | ev :: rest =>
      match step w ev with
      | None => None
      | Some w' => run w' rest
      end
  end.

End Runtime.

(** *** Chart analysis *)

(** What [analyzeChart] does, in order. *)
Inductive Effect :=
| analysed (advisorId who : string) (isFinal : bool)  (* advisor.analyze was called *)
| emitted (p : Payload)                    (* notifications.next(DIGEST_ADVICE) *)
| logged (ev : LogEvent)                   (* this.log(error) *)
| unhandledRejection (e : Js.Error).       (* the async callback rejected *)

(** The callback of [Object.keys(this.advisors).map], for one advisor.
    The advisors are taken one after the other; in the source each
    callback continues when its own analysis settles. *)
Definition analyzeFor (b : t) (chartId : string) (candles : Candles) (isFinal : bool)
    (entry : string * Advisor.t) : list Effect :=
  let (advisorId, advisor) := entry in
  if existsb (String.eqb chartId) (Advisor.chartIds advisor) then
    match charts b !! chartId with
    | None => [unhandledRejection (Js.typeError "Cannot read property 'name' of undefined")]
    | Some chart =>
        let who := Advisor.name advisor +:+ "→" +:+ Chart.name chart in
        analysed advisorId who isFinal ::
        match Advisor.analyze advisor candles (Chart.strategies chart) isFinal who with
        | Js.rejected e => [logged (logError e)]
        | Js.resolved advices =>
            map (fun a => emitted {| advisorId := advisorId; chartId := chartId; advice := a |})
                (omap id advices)
        end
    end
  else [].

(** [analyzeChart({ chartId, candles, isFinal })] *)
Definition analyzeChart (b : t) (chartId : string) (candles : Candles) (isFinal : bool) : list Effect :=
  if negb (paused b) then
    concat (map (analyzeFor b chartId candles isFinal) (advisors b))
  else [].

(** *** Closing every trade, and quitting *)

(** [closeTrades()]: the calls [trade.close('expire')] it makes, all in
    the same turn, each as the position of the trade and the reason.
    The promise it returns settles as [promiseAll] over these calls. *)
Definition closeTrades (b : t) : list (nat * string) :=
  map (fun i => (i, "expire")) (openFrom 0 (trades b)).

(** One activation of [handleKeyPress('y')] that is waiting for
    [closeTrades()]: the bot, the close calls made, the promise awaited,
    whether [process.exit()] follows, and whether it was reached. *)
Record Quit := {
  q_bot : t;
  q_closes : list (nat * string);
  q_awaited : PromiseAll;
  q_thenExit : bool;
  q_exited : bool
}.

(** The continuation after [await this.closeTrades()], run as soon as
    the promise is settled. *)
Definition continueQuit (q : Quit) : Quit :=
  match q_awaited q with
  | allResolved =>
      {| q_bot := q_bot q; q_closes := q_closes q; q_awaited := allResolved;
         q_thenExit := q_thenExit q; q_exited := q_thenExit q |}
  | allRejected e =>
      {| q_bot := log (q_bot q) (logError e); q_closes := q_closes q;
         q_awaited := allRejected e; q_thenExit := q_thenExit q; q_exited := false |}
  | allPending _ => q
  end.

(** [case 'k'] and [case 'q'] of [handleKeyPress]. *)
Definition pressK (b : t) : t :=
  match openFrom 0 (trades b) with
  | [] => b
  | _ => with_mode b (Some "k")
  end.

Definition pressQ (b : t) : t := with_mode b (Some "q").

(** [case 'y']: in mode ['k'] the trades are closed, in mode ['q'] they
    are closed and the process exits; in any other mode nothing happens
    ([inl]). *)
Definition pressY (b : t) : t + Quit :=
  match currentMode b with
  | Some mode =>
      if String.eqb mode "k" then
        let b' := with_mode b (Some "t") in
        inr (continueQuit
               {| q_bot := b'; q_closes := closeTrades b';
                  q_awaited := promiseAll (map fst (closeTrades b'));
                  q_thenExit := false; q_exited := false |})
      else if String.eqb mode "q" then
        let b' := log b (logMessage "info" "Exiting…") in
        inr (continueQuit
               {| q_bot := b'; q_closes := closeTrades b';
                  q_awaited := promiseAll (map fst (closeTrades b'));
                  q_thenExit := true; q_exited := false |})
      else inl b
  | None => inl b
  end.

(** The promise of the close call on [trades[i]] settles. *)
Definition quitSettle (q : Quit) (s : nat * Js.Settled unit) : Quit :=
  match q_awaited q with
  | allPending _ =>
      continueQuit
        {| q_bot := q_bot q; q_closes := q_closes q;
           q_awaited := promiseAllSettle (q_awaited q) (fst s) (snd s);
           q_thenExit := q_thenExit q; q_exited := q_exited q |}
  | _ => q
  end.

Definition quitRun (q : Quit) (ss : list (nat * Js.Settled unit)) : Quit :=
  fold_left quitSettle ss q.

(** *** Pausing *)

(** The bot with the clock and the armed [timer(...)] subscriptions
    (number and due time). *)
Record Console := {
  c_bot : t;
  c_now : N;
  c_timers : list (nat * N);
  c_nextTimer : nat
}.

(** [1000 * 60 * 60 * 24] *)
Definition pauseTimeout : N := (1000 * 60 * 60 * 24)%N.

Definition cancelTimer (i : nat) (timers : list (nat * N)) : list (nat * N) :=
  List.filter (fun x => negb (Nat.eqb (fst x) i)) timers.

(** [case 'p'] of [handleKeyPress]. *)
Definition pressP (c : Console) : Console :=
  let b := c_bot c in
  let nowPaused := negb (paused b) in
  let b1 := log (with_paused b nowPaused (unpause b))
                (logMessage "info" (if nowPaused then "Trading paused" else "Trading unpaused")) in
  if nowPaused then
    {| c_bot := with_paused b1 true (Some (c_nextTimer c));
       c_now := c_now c;
       c_timers := c_timers c ++ [(c_nextTimer c, (c_now c + pauseTimeout)%N)];
       c_nextTimer := S (c_nextTimer c) |}
  else
    match unpause b1 with
    | Some i =>
        {| c_bot := b1; c_now := c_now c; c_timers := cancelTimer i (c_timers c);
           c_nextTimer := c_nextTimer c |}
    | None => {| c_bot := b1; c_now := c_now c; c_timers := c_timers c;
                 c_nextTimer := c_nextTimer c |}
    end.

(** The callback of the pause timer: it runs once, when the timer is
    armed and due. *)
Definition timerFires (c : Console) (i : nat) : option Console :=
  match List.find (fun x => Nat.eqb (fst x) i) (c_timers c) with
  | Some (_, due) =>
      if (due <=? c_now c)%N then
        Some {| c_bot := log (with_paused (c_bot c) false (unpause (c_bot c)))
                             (logMessage "info" "Trading unpaused");
                c_now := c_now c; c_timers := cancelTimer i (c_timers c);
                c_nextTimer := c_nextTimer c |}
      else None
  | None => None
  end.

Inductive ConsoleEvent :=
| keyP
| timeout (i : nat)
| wait (ms : N).

Definition consoleStep (c : Console) (ev : ConsoleEvent) : option Console :=
  match ev with
  | keyP => Some (pressP c)
  | timeout i => timerFires c i
  | wait ms =>
      Some {| c_bot := c_bot c; c_now := (c_now c + ms)%N; c_timers := c_timers c;
              c_nextTimer := c_nextTimer c |}
  end.

Fixpoint consoleRun (c : Console) (evs : list ConsoleEvent) : option Console :=
  match evs with
  | [] => Some c
  | ev :: rest =>
      match consoleStep c ev with
      | None => None
      | Some c' => consoleRun c' rest
      end
  end.

Definition initialConsole (b : t) : Console :=
  {| c_bot := b; c_now := 0%N; c_timers := []; c_nextTimer := 0 |}.

(** *** Start-up *)

(** What start-up asks of the file system, the provider and the classes
    that are not part of the bot. *)
Record Host := {
  (* fs.existsSync(`./providers/${providerId}/index.js`) *)
  providerExists : string -> bool;
  (* new Provider(), retrieveExchangeInfo() and updateFunds(): the ledger, or the error *)
  connect : string -> Js.Settled (gmap string Fund);
  (* require(`../advisors/${advisorId}.js`); None when the file does not exist *)
  advisorModule : string -> option Js.Value;
  (* Advisor.getChartConfigs(advisorConfig) *)
  getChartConfigs : Js.Value -> Js.Settled (list Js.Value);
  (* hash(chartConfig) of object-hash, or what it throws *)
  hash : Js.Value -> Js.Error + string;
  (* Chart.initialize(chartId, chartConfig, {...}) *)
  chartInitialize : string -> Js.Value -> Js.Settled Chart.t;
  (* new Advisor(advisorName, chartIds) *)
  newAdvisor : string -> list string -> Advisor.t;
  (* errorToString of ../helpers *)
  errorToString : Js.Error -> string
}.

Definition with_advisors (b : t) (l : list (string * Advisor.t)) : t :=
  {| advisors := l; charts := charts b; currentMode := currentMode b;
     funds := funds b; logs := logs b; paused := paused b; trades := trades b;
     unpause := unpause b |}.

Definition with_charts (b : t) (cs : gmap string Chart.t) : t :=
  {| advisors := advisors b; charts := cs; currentMode := currentMode b;
     funds := funds b; logs := logs b; paused := paused b; trades := trades b;
     unpause := unpause b |}.

(** [this.advisors[advisorId] = advisor]: an existing key keeps its place. *)
Fixpoint setAdvisor (l : list (string * Advisor.t)) (advisorId : string) (a : Advisor.t)
    : list (string * Advisor.t) :=
  match l with
  | [] => [(advisorId, a)]
  | (k, a') :: rest =>
      if String.eqb k advisorId then (k, a) :: rest
      else (k, a') :: setAdvisor rest advisorId a
  end.

(** [addProvider(providerId)]: the bot once connected, or the rejection. *)
Definition addProvider (h : Host) (b : t) (providerId : string) : Js.Error + t :=
  let providerName := Js.capitalize providerId in
  if negb (providerExists h providerId) then
    inl (Js.error ("Provider " +:+ providerName +:+ " doesn't exist"))
  else
    match connect h providerId with
    | Js.rejected e =>
        inl (Js.withMessage e ("Provider " +:+ providerName +:+ ": " +:+ errorToString h e))
    | Js.resolved ledger =>
        inr (log (with_funds b ledger)
                 (logMessage "success" ("Provider " +:+ providerName +:+ " connected")))
    end.

(** The [concatMap] callback of [addAdvisor] for one chart: the bot and
    the chart id the callback's promise resolves with.  That promise is
    settled by its own [resolve] only: [hash] and [Chart.initialize]
    are called in its [async] executor outside any [try], so when [hash]
    throws or [Chart.initialize] rejects it stays pending ([None]). *)
Definition loadChart (h : Host) (b : t) (chartConfig : Js.Value) : t * option string :=
  match hash h chartConfig with
  | inl _ => (b, None)
  | inr chartId =>
      match charts b !! chartId with
      | Some loaded =>
          (log b (logMessage "info" (Chart.name loaded +:+ " already loaded, skipping")),
           Some chartId)
      | None =>
          match chartInitialize h chartId chartConfig with
          | Js.rejected _ => (b, None)
          | Js.resolved chart => (with_charts b (<[chartId := chart]> (charts b)), Some chartId)
          end
      end
  end.

(** [from(chartConfigs).pipe(concatMap(...), toArray())]: one chart
    after the other; the chart ids reach the subscriber once every
    callback's promise has resolved, and never when one stays pending. *)
Fixpoint loadCharts (h : Host) (b : t) (chartConfigs : list Js.Value)
    : t * option (list string) :=
  match chartConfigs with
  | [] => (b, Some [])
  | chartConfig :: rest =>
      match loadChart h b chartConfig with
      | (b1, None) => (b1, None)
      | (b1, Some chartId) =>
          match loadCharts h b1 rest with
          | (b2, chartIds) => (b2, option_map (cons chartId) chartIds)
          end
      end
  end.

(** How the promise of [addAdvisor] ends: with [resolve()], with
    [reject(error)], or not at all, the bot being left as it then is. *)
Inductive Added :=
| resolves (b : t)
| rejects (e : Js.Error)
| neverSettles (b : t).

(** [addAdvisor(advisorId)] *)
Definition addAdvisor (h : Host) (b : t) (advisorId : string) : Added :=
  let advisorName := Js.capitalize advisorId in
  match advisorModule h advisorId with
  | None => rejects (Js.error ("Advisor " +:+ advisorName +:+ " doesn't exist"))
  | Some advisorConfig =>
      match advisorConfig with
      | Js.array (_ :: _) =>
          match getChartConfigs h advisorConfig with
          | Js.rejected e =>
              rejects (Js.withMessage e
                         ("Advisor " +:+ advisorName +:+ ": " +:+ errorToString h e))
          | Js.resolved chartConfigs =>
              match loadCharts h b chartConfigs with
              | (b1, None) => neverSettles b1
              | (b1, Some chartIds) =>
                  let advisor := newAdvisor h advisorName chartIds in
                  resolves (log (with_advisors b1 (setAdvisor (advisors b1) advisorId advisor))
                              (logMessage "success" ("Advisor " +:+ advisorName +:+ " running")))
              end
          end
      | _ => rejects (Js.error ("Advisor " +:+ advisorName +:+ " not configured properly"))
      end
  end.

(** The [concatMap] callback of [initialize] over [advisorIds], entry
    number [index] on: a malformed entry and a rejection of [addAdvisor]
    are logged and the next entry is taken.  While [addAdvisor] does not
    settle the callback waits for it and no later entry is taken: the
    flag tells whether the last entry was passed. *)
Fixpoint addAdvisors (h : Host) (b : t) (advisorIds : list Js.Value) (index : nat)
    : t * bool :=
  match advisorIds with
  | [] => (b, true)
  | advisorId :: rest =>
      match advisorId with
      | Js.str (String c s) =>
          match addAdvisor h b (String c s) with
          | rejects e => addAdvisors h (log b (logError e)) rest (S index)
          | resolves b1 => addAdvisors h b1 rest (S index)
          | neverSettles b1 => (b1, false)
          end
      | _ =>
          addAdvisors h
            (log b (logError (Js.error
               ("Advisor #" +:+ pretty (index + 1)%nat +:+ " not configured properly"))))
            rest (S index)
      end
  end.

(** How start-up ends: [exits] is the [catch] of [initialize]
    ([this.log(error); process.exit()]), [runs] is the bot left running
    with start-up complete, [hangs] is the bot left waiting for an
    [addAdvisor] that never settles: the process stays up, notifications
    are processed, and nothing after the [forkJoin] is reached. *)
Inductive Started :=
| exits (b : t)
| runs (b : t)
| hangs (b : t).

Definition fatal (b : t) (e : Js.Error) : Started := exits (log b (logError e)).

(** The block under [if (!this.options.console)] as far as the log goes. *)
Definition announce (b : t) : t :=
  let b1 := log b (logMessage "info" "Launching…") in
  match advisors b1 with
  | [] => log b1 (logMessage "warning" "No advisors running")
  | loaded =>
      log b1 (logMessage "success"
        ("Advisors running:" +:+
         String.concat "," (map (fun entry => " " +:+ Advisor.name (snd entry)) loaded)))
  end.

Definition announceMode (b : t) (options : Js.Value) : t :=
  match advisors b with
  | [] => b
  | _ =>
      if Js.truthy (match Js.get options "real" with inr v => v | inl _ => Js.undefined end)
      then log b (logMessage "warning" "*** REAL MODE ENABLED ***")
      else log b (logMessage "info"
             "Safe mode (trades will only be announced), run with -r to place real trades")
  end.

(** [initialize(config)], [options] being [this.options]. *)
Definition initialize (h : Host) (b : t) (options config : Js.Value) : Started :=
  if negb (Js.typeofObject config) || Js.isArray config then
    fatal b (Js.error "Bot not configured properly")
  else
    match config with
    | Js.object fields =>
        let advisorIds :=
          match Js.getField fields "advisors" with Js.undefined => Js.array [] | v => v end in
        let providerId :=
          match Js.getField fields "provider" with Js.undefined => Js.str "" | v => v end in
        match providerId with
        | Js.str (String c s) =>
            match addProvider h b (String c s) with
            | inl e => fatal b e
            | inr b1 =>
                let (b3, passed) :=
                  match advisorIds with
                  | Js.array items => addAdvisors h b1 items 0
                  | _ =>
                      (log b1 (logError (Js.error "Advisors not configured properly")), true)
                  end in
                if passed then
                  match Js.get options "console" with
                  | inl e => fatal b3 e
                  | inr console =>
                      let b4 := if negb (Js.truthy console) then announce b3 else b3 in
                      runs (announceMode b4 options)
                  end
                else hangs b3
            end
        | _ => fatal b (Js.error "Provider not configured properly")
        end
    | _ => fatal b (Js.typeError "Cannot destructure property 'advisors' of 'config' as it is null.")
    end.

(** The constructor: [this.options = config.options] throws outside any
    [try] when [config] is [undefined] or [null]; otherwise start-up
    begins. *)
Definition emptyBot : t :=
  {| advisors := []; charts := ∅; currentMode := None; funds := ∅; logs := [];
     paused := false; trades := []; unpause := None |}.


(** *** Stream replacement *)

(** [trade => trade.chartId === chartId && trade.isOpen], with the
    positions, from [i] on, of the trades kept. *)
Fixpoint onChartFrom (i : nat) (chartId : string) (ts : list Trade.t) : list nat :=
  match ts with
  | [] => []
  | trade :: rest =>
      if String.eqb (Trade.chartId trade) chartId && Trade.isOpen trade
      then i :: onChartFrom (S i) chartId rest
      else onChartFrom (S i) chartId rest
  end.

(** [resubscribeTradesToNewStream({ chartId, stream })]: the trades
    whose [subscribe(stream)] it calls, by position. *)
Definition resubscribeTradesToNewStream (b : t) (chartId : string) : list nat :=
  onChartFrom 0 chartId (trades b).

End Bot.

(** ** The screen, the price cache and the resync timer

    [handleKeyPress], [refresh], [switchAdvisor], [log], [retrieveFunds],
    [updateFunds] and [updateTimer] of the current version read and
    write fields of [this] beyond those of [Bot.t]; [Session.t] adds
    them.  A method is an action on the session: it changes it, calls
    the UI and the provider, and may throw.  A method that awaits is run
    to its end with nothing else in between. *)

Module Session.

(** Prices, balances and exchange information are opaque to the bot:
    it passes them on to [calculateFunds] and [updateInfo]. *)
Definition Prices := gmap string float.
Definition Balance := gmap string float.
Definition ExchangeInfo := gmap string ChartInfo.

Record t := {
  bot : Bot.t;
  chartKeys : list string;          (* Object.keys(this.charts) *)
  enabled : string -> bool;         (* this.charts[chartId].enabled *)
  currentAdvisor : option string;
  currentChart : option string;
  readMore : option nat;
  ui : option Z;                    (* this.ui, as Math.ceil(this.ui.screen.rows * 0.8) - 1 *)
  prices : option Prices;
  exchangeInfo : ExchangeInfo;
  now : N;
  resync : list N                   (* due times of the armed timers that call updateTimer *)
}.

Definition with_bot (s : t) (b : Bot.t) : t :=
  {| bot := b; chartKeys := chartKeys s; enabled := enabled s;
     currentAdvisor := currentAdvisor s; currentChart := currentChart s;
     readMore := readMore s; ui := ui s; prices := prices s;
     exchangeInfo := exchangeInfo s; now := now s; resync := resync s |}.

Definition with_current (s : t) (advisorId chartId : option string) : t :=
  {| bot := bot s; chartKeys := chartKeys s; enabled := enabled s;
     currentAdvisor := advisorId; currentChart := chartId;
     readMore := readMore s; ui := ui s; prices := prices s;
     exchangeInfo := exchangeInfo s; now := now s; resync := resync s |}.

Definition with_readMore (s : t) (n : option nat) : t :=
  {| bot := bot s; chartKeys := chartKeys s; enabled := enabled s;
     currentAdvisor := currentAdvisor s; currentChart := currentChart s;
     readMore := n; ui := ui s; prices := prices s;
     exchangeInfo := exchangeInfo s; now := now s; resync := resync s |}.

Definition with_ui (s : t) (u : option Z) : t :=
  {| bot := bot s; chartKeys := chartKeys s; enabled := enabled s;
     currentAdvisor := currentAdvisor s; currentChart := currentChart s;
     readMore := readMore s; ui := u; prices := prices s;
     exchangeInfo := exchangeInfo s; now := now s; resync := resync s |}.

Definition with_prices (s : t) (p : option Prices) : t :=
  {| bot := bot s; chartKeys := chartKeys s; enabled := enabled s;
     currentAdvisor := currentAdvisor s; currentChart := currentChart s;
     readMore := readMore s; ui := ui s; prices := p;
     exchangeInfo := exchangeInfo s; now := now s; resync := resync s |}.

Definition with_exchangeInfo (s : t) (info : ExchangeInfo) : t :=
  {| bot := bot s; chartKeys := chartKeys s; enabled := enabled s;
     currentAdvisor := currentAdvisor s; currentChart := currentChart s;
     readMore := readMore s; ui := ui s; prices := prices s;
     exchangeInfo := info; now := now s; resync := resync s |}.

Definition with_clock (s : t) (time : N) (timers : list N) : t :=
  {| bot := bot s; chartKeys := chartKeys s; enabled := enabled s;
     currentAdvisor := currentAdvisor s; currentChart := currentChart s;
     readMore := readMore s; ui := ui s; prices := prices s;
     exchangeInfo := exchangeInfo s; now := time; resync := timers |}.

Definition with_mode (s : t) (mode : option string) : t :=
  with_bot s (Bot.with_mode (bot s) mode).

(** Truthiness of a field that is [undefined] or a string. *)
Definition isSet (o : option string) : bool :=
  match o with Some x => negb (String.eqb x "") | None => false end.

(** The property name a field stands for in [object[field]]:
    [undefined] reads the property named "undefined". *)
Definition keyOf (o : option string) : string := default "undefined" o.

(** [x === this.field] *)
Definition sameId (o : option string) (x : string) : bool :=
  match o with Some y => String.eqb x y | None => false end.

(** [this.currentMode === mode] and [modes.includes(this.currentMode)] *)
Definition modeIs (mode : string) (s : t) : bool := sameId (Bot.currentMode (bot s)) mode.

Definition modeIn (modes : list string) (s : t) : bool :=
  match Bot.currentMode (bot s) with
  | Some mode => existsb (String.eqb mode) modes
  | None => false
  end.

(** [array.slice(start)] *)
Definition slice {A} (start : Z) (l : list A) : list A :=
  let len := Z.of_nat (length l) in
  drop (Z.to_nat (if (start <? 0)%Z then Z.max (len + start) 0 else Z.min start len)) l.

(** [index + 1 < ids.length ? ids[index + 1] : ids[0]], [index] being
    [ids.findIndex(id => id === current)] ([-1] when there is none). *)
Definition nextOf (ids : list string) (current : option string) : option string :=
  match findIndexed (sameId current) ids with
  | Some (index, _) => if (index + 1 <? length ids)%nat then ids !! (index + 1)%nat else ids !! 0%nat
  | None => ids !! 0%nat
  end.

(** [index - 1 < 0 ? ids[ids.length - 1] : ids[index - 1]] *)
Definition prevOf (ids : list string) (current : option string) : option string :=
  match findIndexed (sameId current) ids with
  | Some (S index, _) => ids !! index
  | _ => ids !! (length ids - 1)%nat
  end.

(** What the UI is asked to draw.  The methods of the UI, [new Log(event)]
    and the [updateInfo] of charts and trades are taken to return without
    throwing. *)
Inductive Render :=
| renderChart (advisor : option Bot.Advisor.t) (chart : option Chart.t) (trade : option Trade.t)
| renderData (chart : option Chart.t) (view : nat)
| renderFunds (funds : gmap string Fund)
| renderClose
| renderLogs (entries : list LogEvent)
| renderQuit
| renderTrades (entries : list Trade.t)
| renderTrade (trade : option Trade.t).

(** What a method does to the outside, in order. *)
Inductive Output :=
| rendered (r : Render)
| asked (method : string)     (* this.provider[method]() is called *)
| tradeUpdated (i : nat).     (* trades[i].updateInfo(this.exchangeInfo) is called *)

(** What the provider answers when asked. *)
Record Provider := {
  updateServerTime : Js.Settled unit;
  retrieveExchangeInfo : Js.Settled ExchangeInfo;
  retrievePrices : Js.Settled Prices;
  retrieveBalance : Js.Settled Balance
}.

(** The helpers and the chart method that are not part of the bot.
    [calculateFunds] receives [this.prices] as it is. *)
Record Host := {
  calculateFunds : Balance -> option Prices -> Js.Error + gmap string Fund;
  updateInfo : ExchangeInfo -> Chart.t -> Chart.t;
  errorToString : Js.Error -> string
}.

(** *** Actions *)

Definition Action (A : Type) : Type := t -> t * list Output * (Js.Error + A).

Definition ret {A} (a : A) : Action A := fun s => (s, [], inr a).

Definition throw {A} (e : Js.Error) : Action A := fun s => (s, [], inl e).

Definition bind {A B} (m : Action A) (k : A -> Action B) : Action B :=
  fun s =>
    match m s with
    | (s1, out1, inl e) => (s1, out1, inl e)
    | (s1, out1, inr a) =>
        match k a s1 with
        | (s2, out2, r) => (s2, out1 ++ out2, r)
        end
    end.

Notation "m >>= k" := (bind m k) (at level 60, right associativity).
Notation "m >> k" := (bind m (fun _ => k)) (at level 60, right associativity).

Definition get : Action t := fun s => (s, [], inr s).

Definition modify (f : t -> t) : Action unit := fun s => (f s, [], inr tt).

Definition emit (out : list Output) : Action unit := fun s => (s, out, inr tt).

(** [try { m } catch (error) { handler(error) }] *)
Definition catch (m : Action unit) (handler : Js.Error -> Action unit) : Action unit :=
  fun s =>
    match m s with
    | (s1, out1, inl e) =>
        match handler e s1 with
        | (s2, out2, r) => (s2, out1 ++ out2, r)
        end
    | done => done
    end.

(** [await promise] *)
Definition await {A} (r : Js.Settled A) : Action A :=
  match r with
  | Js.resolved a => ret a
  | Js.rejected e => throw e
  end.

(** The session an action leaves. *)
Definition after {A} (m : Action A) (s : t) : t := fst (fst (m s)).

Definition setMode (mode : string) : Action unit := modify (fun s => with_mode s (Some mode)).

(** *** Choosing what to show *)

(** [chartId => this.advisors[this.currentAdvisor].chartIds.includes(chartId)
     && this.charts[chartId].enabled]; [None] is the [TypeError] of
    reading [chartIds] of an advisor that is not there. *)
Definition shownChart (s : t) (chartId : string) : option bool :=
  match Bot.getAdvisor (Bot.advisors (bot s)) (keyOf (currentAdvisor s)) with
  | Some advisor =>
      Some (existsb (String.eqb chartId) (Bot.Advisor.chartIds advisor) && enabled s chartId)
  | None => None
  end.

(** [Object.keys(this.charts).filter(...)] *)
Definition shownCharts : Action (list string) :=
  get >>= fun s =>
  match filterThrowing (shownChart s) (chartKeys s) with
  | Some chartIds => ret chartIds
  | None => throw (Js.typeError "Cannot read property 'chartIds' of undefined")
  end.

(** [switchAdvisor(advisorId)] *)
Definition switchAdvisor (advisorId : option string) : Action unit :=
  modify (fun s => with_current s advisorId None) >>
  shownCharts >>= fun chartIds =>
  match chartIds with
  | chartId :: _ => modify (fun s => with_current s (currentAdvisor s) (Some chartId))
  | [] => ret tt
  end.

(** [trade => trade.advisorId === this.currentAdvisor &&
     trade.chartId === this.currentChart] *)
Definition shownTrade (s : t) (trade : Trade.t) : bool :=
  sameId (currentAdvisor s) (Trade.advisorId trade)
  && sameId (currentChart s) (Trade.chartId trade).

(** [list.slice((Math.ceil(this.ui.screen.rows * 0.8) - 1 + (this.readMore || 0)) * -1)] *)
Definition window {A} (s : t) (pageSize : Z) (l : list A) : list A :=
  slice (- (pageSize + Z.of_nat (default 0%nat (readMore s)))) l.

(** The [switch] of [refresh]. *)
Definition draw (s : t) (pageSize : Z) : list Render :=
  match Bot.currentMode (bot s) with
  | None => []
  | Some mode =>
      let chart := Bot.charts (bot s) !! keyOf (currentChart s) in
      if String.eqb mode "c" || String.eqb mode "z" then
        [renderChart (Bot.getAdvisor (Bot.advisors (bot s)) (keyOf (currentAdvisor s))) chart
           (List.find (fun trade => shownTrade s trade && Trade.isOpen trade)
                      (Bot.trades (bot s)))]
      else if String.eqb mode "d1" then [renderData chart 1]
      else if String.eqb mode "d2" then [renderData chart 2]
      else if String.eqb mode "d3" then [renderData chart 3]
      else if String.eqb mode "f" then [renderFunds (Bot.funds (bot s))]
      else if String.eqb mode "k" then [renderClose]
      else if String.eqb mode "l" then [renderLogs (window s pageSize (Bot.logs (bot s)))]
      else if String.eqb mode "q" then [renderQuit]
      else if String.eqb mode "t" then [renderTrades (window s pageSize (Bot.trades (bot s)))]
      else if String.eqb mode "v" then
        [renderTrade (List.find (shownTrade s) (rev (Bot.trades (bot s))))]
      else []
  end.

(** The first lines of [refresh]: without a current advisor, the first
    one loaded becomes it. *)
Definition pickAdvisor : Action unit :=
  get >>= fun s =>
  if isSet (currentAdvisor s) then ret tt
  else match Bot.advisors (bot s) with
       | (advisorId, _) :: _ => switchAdvisor (Some advisorId)
       | [] => ret tt
       end.

(** The mode left by
    [if (!this.currentMode) { this.currentMode = 'c' }
     if (this.currentMode === 'c' && !this.currentChart) { this.currentMode = 'f' }] *)
Definition settledMode (mode chartId : option string) : option string :=
  let mode1 := if isSet mode then mode else Some "c" in
  if sameId mode1 "c" && negb (isSet chartId) then Some "f" else mode1.

Definition settleMode (s : t) : t :=
  with_mode s (settledMode (Bot.currentMode (bot s)) (currentChart s)).

(** [refresh()] *)
Definition refresh : Action unit :=
  get >>= fun s =>
  match ui s with
  | None => ret tt
  | Some pageSize =>
      pickAdvisor >>
      modify settleMode >>
      get >>= fun s => emit (map rendered (draw s pageSize))
  end.

(** [refreshChart(chartId)] *)
Definition refreshChart (chartId : string) : Action unit :=
  get >>= fun s =>
  if modeIn ["c"; "d1"; "d2"; "z"] s && sameId (currentChart s) chartId then refresh else ret tt.

(** [handleResize] of the UI options. *)
Definition handleResize : Action unit :=
  modify (fun s => with_readMore s None) >> refresh.

(** The callback of [interval(1000)]. *)
Definition everySecond : Action unit :=
  get >>= fun s =>
  if modeIn ["c"; "t"; "v"; "z"] s
     && existsb (fun trade => sameId (currentAdvisor s) (Trade.advisorId trade)
                              && Trade.isOpen trade) (Bot.trades (bot s))
  then refresh else ret tt.

(** [log(event)] with its last lines: while the log screen shows and
    has been scrolled back, the offset follows the new entry. *)
Definition log (ev : LogEvent) : Action unit :=
  modify (fun s => with_bot s (Bot.log (bot s) ev)) >>
  get >>= fun s =>
  if modeIs "l" s then
    match readMore s with
    | Some (S n) => modify (fun s => with_readMore s (Some (S (S n)))) >> refresh
    | _ => refresh
    end
  else ret tt.

(** *** Funds *)

(** [this.prices] is set. *)
Definition cached (s : t) : bool :=
  match prices s with Some _ => true | None => false end.

(** [retrieveFunds(updatePrices)] *)
Definition retrieveFunds (h : Host) (p : Provider) (updatePrices : bool)
    : Action (gmap string Fund) :=
  get >>= fun s =>
  (if negb (cached s) || updatePrices then
     emit [asked "retrievePrices"] >>
     await (retrievePrices p) >>= fun quotes =>
     modify (fun s => with_prices s (Some quotes))
   else ret tt) >>
  emit [asked "retrieveBalance"] >>
  await (retrieveBalance p) >>= fun balance =>
  get >>= fun s =>
  match calculateFunds h balance (prices s) with
  | inr funds => ret funds
  | inl e => throw e
  end.

(** [updateFunds(updatePrices)] *)
Definition updateFunds (h : Host) (p : Provider) (updatePrices : bool)
    : Action (gmap string Fund) :=
  retrieveFunds h p updatePrices >>= fun funds =>
  modify (fun s => with_bot s (Bot.with_funds (bot s) funds)) >>
  get >>= fun s =>
  (if modeIs "f" s then refresh else ret tt) >>
  ret funds.

(** *** Keys *)

Inductive Key :=
| keyA | keyC | keyD | keyF | keyK | keyL | keyQ | keyT | keyV | keyX | keyY | keyZ.

(** The bodies of [case 'l'] and [case 't'] before their [refresh], on
    a list of [size] entries. *)
Definition readOn (mode : string) (size : nat) : Action unit :=
  get >>= fun s =>
  if modeIs mode s then
    match ui s with
    | None => throw (Js.typeError "Cannot read property 'screen' of undefined")
    | Some pageSize =>
        if (pageSize <? Z.of_nat size - Z.of_nat (default 0%nat (readMore s)))%Z
        then modify (fun s => with_readMore s (Some (S (default 0%nat (readMore s)))))
        else ret tt
    end
  else modify (fun s => with_readMore (with_mode s (Some mode)) None).

(** [handleKeyPress(key)].  [case 'p'] touches neither the screen nor
    the mode and is [Bot.pressP]; of [case 'y'] this is the part before
    [await this.closeTrades()], the rest being [Bot.pressY] and
    [Bot.quitRun]. *)
Definition handleKeyPress (h : Host) (p : Provider) (key : Key) : Action unit :=
  get >>= fun s =>
  match key with
  | keyA =>
      match map fst (Bot.advisors (bot s)) with
      | [] => ret tt
      | advisorIds =>
          switchAdvisor (nextOf advisorIds (currentAdvisor s)) >> setMode "c" >> refresh
      end
  | keyC | keyX =>
      (if modeIn ["c"; "z"] s then
         shownCharts >>= fun chartIds =>
         modify (fun s =>
           with_current s (currentAdvisor s)
             (match key with
              | keyC => nextOf chartIds (currentChart s)
              | _ => prevOf chartIds (currentChart s)
              end))
       else ret tt) >>
      setMode "c" >> refresh
  | keyD =>
      (if modeIs "d1" s then setMode "d2"
       else if modeIs "d2" s then setMode "d3"
       else setMode "d1") >>
      refresh
  | keyF =>
      (if modeIs "f" s then
         catch (retrieveFunds h p true >>= fun funds =>
                modify (fun s => with_bot s (Bot.with_funds (bot s) funds)))
               (fun e => log (logError e))
       else setMode "f") >>
      refresh
  | keyK =>
      match List.filter Trade.isOpen (Bot.trades (bot s)) with
      | [] => ret tt
      | _ => setMode "k" >> refresh
      end
  | keyL => readOn "l" (length (Bot.logs (bot s))) >> refresh
  | keyQ => setMode "q" >> refresh
  | keyT =>
      match Bot.trades (bot s) with
      | [] => ret tt
      | trades => readOn "t" (length trades) >> refresh
      end
  | keyV =>
      if modeIn ["c"; "z"] s && existsb (shownTrade s) (Bot.trades (bot s))
      then setMode "v" >> refresh
      else ret tt
  | keyY =>
      if modeIs "k" s then catch (setMode "t" >> refresh) (fun e => log (logError e))
      else if modeIs "q" s then
        catch (log (logMessage "info" "Exiting…")) (fun e => log (logError e))
      else ret tt
  | keyZ =>
      match List.filter Trade.isOpen (Bot.trades (bot s)) with
      | [] => ret tt
      | trades =>
          let position :=
            match findIndexed (shownTrade s) trades with
            | Some (S tradeIndex, _) =>
                if modeIn ["c"; "d1"; "d2"; "d3"; "v"; "z"] s then S tradeIndex
                else length trades
            | _ => length trades
            end in
          match trades !! (position - 1)%nat with
          | Some trade =>
              modify (fun s => with_current s (Some (Trade.advisorId trade))
                                              (Some (Trade.chartId trade))) >>
              setMode "z" >> refresh
          | None => throw (Js.typeError "Cannot read property 'advisorId' of undefined")
          end
      end
  end.

(** *** The resync timer *)

(** [1000 * 60 * 30] and [1000 * 60] *)
Definition resyncDelay : N := (1000 * 60 * 30)%N.
Definition retryDelay : N := (1000 * 60)%N.

(** [timer(delay).subscribe(() => this.updateTimer())] *)
Definition arm (delay : N) : Action unit :=
  modify (fun s => with_clock s (now s) (resync s ++ [(now s + delay)%N])).

(** [updateTimer()] *)
Definition updateTimer (h : Host) (p : Provider) : Action unit :=
  catch
    (emit [asked "updateServerTime"] >>
     await (updateServerTime p) >>
     emit [asked "retrieveExchangeInfo"] >>
     await (retrieveExchangeInfo p) >>= fun info =>
     modify (fun s => with_exchangeInfo s info) >>
     modify (fun s => with_bot s (Bot.with_charts (bot s)
                                    (updateInfo h (exchangeInfo s) <$> Bot.charts (bot s)))) >>
     get >>= fun s =>
     emit (map tradeUpdated (openFrom 0 (Bot.trades (bot s)))) >>
     updateFunds h p true >>
     log (logMessage "silent" "Server info updated") >>
     arm resyncDelay)
    (fun e =>
       arm retryDelay >>
       log (logError (Js.withMessage e
              ("Unable to update server info: " +:+ errorToString h e)))).

(** *** The session as events reach it *)

Inductive Event :=
| pressed (key : Key) (p : Provider)   (* a key bound by the UI *)
| logged (ev : LogEvent)               (* another method calls this.log *)
| resized (pageSize : Z)               (* the screen changes size *)
| registered (trade : Trade.t)         (* a digestion job pushes its trade and refreshes *)
| closed (i : nat)                     (* trades[i] finishes closing *)
| refreshed                            (* a trade calls its refresh closure *)
| chartRefreshed (chartId : string)    (* a chart calls its refreshChart closure *)
| second                               (* the interval of one second *)
| resyncDue (i : nat) (p : Provider)   (* the armed timer number i fires *)
| waited (ms : N).                     (* time passes *)

Definition step (h : Host) (s : t) (ev : Event) : option t :=
  match ev with
  | pressed key p =>
      match ui s with
      | Some _ => Some (after (handleKeyPress h p key) s)
      | None => None
      end
  | logged entry => Some (after (log entry) s)
  | resized pageSize =>
      match ui s with
      | Some _ => Some (after handleResize (with_ui s (Some pageSize)))
      | None => None
      end
  | registered trade =>
      Some (after refresh
              (with_bot s (Bot.with_trades (bot s) (Bot.trades (bot s) ++ [trade]))))
  | closed i =>
      match Bot.trades (bot s) !! i with
      | Some trade =>
          Some (with_bot s (Bot.with_trades (bot s)
                              (<[i := Trade.closed trade]> (Bot.trades (bot s)))))
      | None => None
      end
  | refreshed => Some (after refresh s)
  | chartRefreshed chartId => Some (after (refreshChart chartId) s)
  | second =>
      match ui s with
      | Some _ => Some (after everySecond s)
      | None => None
      end
  | resyncDue i p =>
      match resync s !! i with
      | Some due =>
          if (due <=? now s)%N
          then Some (after (updateTimer h p) (with_clock s (now s) (delete i (resync s))))
          else None
      | None => None
      end
  | waited ms => Some (with_clock s (now s + ms)%N (resync s))
  end.

Fixpoint run (h : Host) (s : t) (evs : list Event) : option t :=
  match evs with
  | [] => Some s
  | ev :: rest =>
      match step h s ev with
      | Some s' => run h s' rest
      | None => None
      end
  end.

End Session.

(** ** The older version of the class

    It has no limiter and no pause; [digestAdvice] takes one signal
    together with [isFinal], sizes with the advisor's margin, and leaves
    its promise unsettled on the paths that end in [break]. *)

Module Legacy.

Record Advice := { signal : string; strategy : Strategy.t }.

Module Advisor.
Record t := {
  name : string;
  chartIds : list string;
  margin : float;
  analyze : Candles -> list Strategy.t -> Js.Settled (list (option Advice))
}.
End Advisor.

Record t := {
  advisors : list (string * Advisor.t);
  charts : gmap string Chart.t;
  funds : gmap string Fund;
  logs : list LogEvent;
  quitting : bool;
  trades : list Trade.t
}.

Definition with_trades (b : t) (ts : list Trade.t) : t :=
  {| advisors := advisors b; charts := charts b; funds := funds b;
     logs := logs b; quitting := quitting b; trades := ts |}.

Definition log (b : t) (ev : LogEvent) : t :=
  {| advisors := advisors b; charts := charts b; funds := funds b;
     logs := logs b ++ [ev]; quitting := quitting b; trades := trades b |}.

Fixpoint getAdvisor (l : list (string * Advisor.t)) (advisorId : string) : option Advisor.t :=
  match l with
  | [] => None
  | (k, a) :: rest => if String.eqb k advisorId then Some a else getAdvisor rest advisorId
  end.

(** The argument of [digestAdvice]:
    [{ advisorId, chartId, isFinal, ...advice }]. *)
Record Digest := {
  advisorId : string;
  chartId : string;
  isFinal : bool;
  advice : Advice
}.

Definition longSellingBack (b : t) (asset : string) (trade : Trade.t) : option bool :=
  if Trade.isLong trade && Trade.isOpen trade then
    match charts b !! Trade.chartId trade with
    | Some chart => Some (String.eqb (baseAsset (Chart.info chart)) asset)
    | None => None
    end
  else Some false.

Definition shortSellingBack (b : t) (asset : string) (trade : Trade.t) : option bool :=
  if negb (Trade.isLong trade) && Trade.isOpen trade then
    match charts b !! Trade.chartId trade with
    | Some chart => Some (String.eqb (quoteAsset (Chart.info chart)) asset)
    | None => None
    end
  else Some false.

Definition quantityLockedByTrades (b : t) (asset : string) : option float :=
  match filterThrowing (longSellingBack b asset) (trades b) with
  | None => None
  | Some longs =>
      match filterThrowing (shortSellingBack b asset) (trades b) with
      | None => None
      | Some shorts => Some (sumQuantity longs + sumQuantity shorts)%float
      end
  end.

Definition ledgerAvailable (b : t) (asset : string) : float :=
  match funds b !! asset with
  | Some fund => Js.orZero (available fund)
  | None => 0%float
  end.

(** [const amount = funds * advisor.margin] *)
Definition amount (b : t) (advisor : Advisor.t) (chart : Chart.t) (isLong : bool) : option float :=
  let asset := if isLong then quoteAsset (Chart.info chart) else baseAsset (Chart.info chart) in
  match quantityLockedByTrades b asset with
  | None => None
  | Some locked => Some ((ledgerAvailable b asset - locked) * Advisor.margin advisor)%float
  end.

Definition whoOf (advisor : Advisor.t) (chart : Chart.t) (s : Strategy.t) : string :=
  Advisor.name advisor +:+ "->" +:+ Chart.name chart +:+ "->" +:+ Strategy.name s.

Definition closeCandidate (d : Digest) (who : string) (trade : Trade.t) : bool :=
  String.eqb (Trade.advisorId trade) (advisorId d)
  && String.eqb (Trade.chartId trade) (chartId d)
  && String.eqb (Trade.who trade) who
  && Trade.isOpen trade.

Definition polarityMatches (sig : string) (trade : Trade.t) : bool :=
  (String.eqb sig "CLOSE LONG" && Trade.isLong trade)
  || (String.eqb sig "CLOSE SHORT" && negb (Trade.isLong trade)).

Definition openFor (a c : string) (trade : Trade.t) : bool :=
  String.eqb (Trade.advisorId trade) a
  && String.eqb (Trade.chartId trade) c
  && Trade.isOpen trade.

Inductive Pending :=
| awaitClose (i : nat) (reason : string)
| awaitClampQuantity (amount : float) (info : ChartInfo) (isLong : bool)
| awaitTradeInitialize (o : Trade.Options).

Inductive Response :=
| closeSettled (r : Js.Settled unit)
| clampSettled (r : Js.Settled float)
| initializeSettled (r : Js.Settled unit).

(** [unsettled]: the executor ended, by [break] or by an exception
    outside its [try] blocks, without [resolve] or [reject]. *)
Inductive Step :=
| finished (r : Js.Settled unit)
| suspended (p : Pending)
| unsettled.

(** What the executor of [digestAdvice] has bound before its [switch]. *)
Record Bound := {
  b_digest : Digest;
  b_advisor : Advisor.t;
  b_chart : Chart.t;
  b_who : string
}.

(** The first lines of the executor; reading [name] of an unknown
    advisor or chart throws ([None]). *)
Definition bind (b : t) (d : Digest) : option Bound :=
  match getAdvisor (advisors b) (advisorId d), charts b !! chartId d with
  | Some advisor, Some chart =>
      Some {| b_digest := d; b_advisor := advisor; b_chart := chart;
              b_who := whoOf advisor chart (strategy (advice d)) |}
  | _, _ => None
  end.

(** The [switch] up to its first [await]. *)
Definition startBound (b : t) (c : Bound) : Step :=
  let d := b_digest c in
  let sig := signal (advice d) in
  if String.eqb sig "CLOSE LONG" || String.eqb sig "CLOSE SHORT" then
    match findIndexed (closeCandidate d (b_who c)) (trades b) with
    | Some (i, trade) =>
        if polarityMatches sig trade then suspended (awaitClose i "signal") else unsettled
    | None => unsettled
    end
  else if String.eqb sig "LONG" || String.eqb sig "SHORT" then
    if isFinal d then
      let isLong := String.eqb sig "LONG" in
      match amount b (b_advisor c) (b_chart c) isLong with
      | None => unsettled
      | Some a => suspended (awaitClampQuantity a (Chart.info (b_chart c)) isLong)
      end
    else unsettled
  else finished (Js.resolved tt).

(** [digestAdvice(advice)] up to its first [await]. *)
Definition startDigest (b : t) (d : Digest) : Step :=
  match bind b d with
  | Some c => startBound b c
  | None => unsettled
  end.

(** The object literal handed to [Trade.initialize]; this version
    passes no [id]. *)
Definition tradeOptions (c : Bound) (isLong : bool) (quantity : float) : Trade.Options :=
  {| Trade.o_advisorId := advisorId (b_digest c);
     Trade.o_chartId := chartId (b_digest c);
     Trade.o_id := "";
     Trade.o_isLong := isLong;
     Trade.o_quantity := quantity;
     Trade.o_signal := signal (advice (b_digest c));
     Trade.o_strategy := strategy (advice (b_digest c));
     Trade.o_symbol := Chart.symbol (b_chart c);
     Trade.o_who := b_who c |}.

(** The executor from the settlement of the promise it awaits on.
    [Trade.initialize] resolves to the trade (this version pushes the
    result without testing it) or rejects; a rejection of
    [clampQuantity] is outside the [try]. *)
Definition resumeDigest (b : t) (c : Bound) (p : Pending) (r : Response) : option (t * Step) :=
  match p, r with
  | awaitClose _ _, closeSettled (Js.resolved _) => Some (b, finished (Js.resolved tt))
  | awaitClose _ _, closeSettled (Js.rejected e) => Some (b, finished (Js.rejected e))
  | awaitClampQuantity _ _ isLong, clampSettled (Js.resolved quantity) =>
      if (0 <? quantity)%float
         && negb (existsb (openFor (advisorId (b_digest c)) (chartId (b_digest c))) (trades b))
      then Some (b, suspended (awaitTradeInitialize (tradeOptions c isLong quantity)))
      else Some (b, unsettled)
  | awaitClampQuantity _ _ _, clampSettled (Js.rejected _) => Some (b, unsettled)
  | awaitTradeInitialize o, initializeSettled (Js.resolved _) =>
      match Trade.initialize o true with
      | Some trade => Some (with_trades b (trades b ++ [trade]), finished (Js.resolved tt))
      | None => Some (b, unsettled)
      end
  | awaitTradeInitialize _, initializeSettled (Js.rejected e) => Some (b, finished (Js.rejected e))
  | _, _ => None
  end.

(** One [digestAdvice] call run to its end with nothing else in
    between, the awaited promises settling as [answers] say, one per
    [await]; [None] when an answer does not fit. *)
Fixpoint resumeAll (b : t) (c : Bound) (st : Step) (answers : list Response) : option (t * Step) :=
  match st, answers with
  | suspended p, r :: rest =>
      match resumeDigest b c p r with
      | Some (b', st') => resumeAll b' c st' rest
      | None => None
      end
  | _, _ => Some (b, st)
  end.

Definition digestAdvice (b : t) (d : Digest) (answers : list Response) : option (t * Step) :=
  match bind b d with
  | Some c => resumeAll b c (startBound b c) answers
  | None => Some (b, unsettled)
  end.

(** *** Quitting *)

Definition closeTrades (b : t) : list (nat * string) :=
  map (fun i => (i, "expire")) (openFrom 0 (trades b)).

(** Where an activation of [case 'y'] stands: awaiting [closeTrades()],
    awaiting the two-second timer, after [process.exit()], or in the
    [catch]. *)
Inductive Phase :=
| closing (p : PromiseAll)
| lingering
| exited
| failed.

Record Quit := {
  q_bot : t;
  q_closes : list (nat * string);
  q_hadOpenTrades : bool;
  q_phase : Phase
}.

Inductive QuitEvent :=
| closeSettles (i : nat) (r : Js.Settled unit)
| timerElapsed.

Definition continueQuit (q : Quit) : Quit :=
  match q_phase q with
  | closing allResolved =>
      if q_hadOpenTrades q then
        {| q_bot := log (q_bot q) (logMessage "info" "Exiting…"); q_closes := q_closes q;
           q_hadOpenTrades := true; q_phase := lingering |}
      else
        {| q_bot := q_bot q; q_closes := q_closes q; q_hadOpenTrades := false;
           q_phase := exited |}
  | closing (allRejected e) =>
      {| q_bot := log (q_bot q) (logError e); q_closes := q_closes q;
         q_hadOpenTrades := q_hadOpenTrades q; q_phase := failed |}
  | _ => q
  end.

(** [case 'y'] of [handleKeyPress]; nothing happens unless [quitting]. *)
Definition pressY (b : t) : option Quit :=
  if quitting b then
    Some (continueQuit
            {| q_bot := b; q_closes := closeTrades b;
               q_hadOpenTrades := negb (Nat.eqb (length (openFrom 0 (trades b))) 0);
               q_phase := closing (promiseAll (map fst (closeTrades b))) |})
  else None.

Definition quitStep (q : Quit) (ev : QuitEvent) : Quit :=
  match q_phase q, ev with
  | closing (allPending remaining), closeSettles i r =>
      continueQuit
        {| q_bot := q_bot q; q_closes := q_closes q; q_hadOpenTrades := q_hadOpenTrades q;
           q_phase := closing (promiseAllSettle (allPending remaining) i r) |}
  | lingering, timerElapsed =>
      {| q_bot := q_bot q; q_closes := q_closes q; q_hadOpenTrades := q_hadOpenTrades q;
         q_phase := exited |}
  | _, _ => q
  end.

Definition quitRun (q : Quit) (evs : list QuitEvent) : Quit := fold_left quitStep evs q.

(** *** The log and its bound *)

Definition with_logs (b : t) (l : list LogEvent) : t :=
  {| advisors := advisors b; charts := charts b; funds := funds b;
     logs := l; quitting := quitting b; trades := trades b |}.

Definition maxLogs : nat := 2000.

(** [while (this.logs.length > 2000) { this.logs.shift() }] *)
Fixpoint shiftLogs (l : list LogEvent) : list LogEvent :=
  match l with
  | [] => []
  | ev :: rest => if (maxLogs <? S (length rest))%nat then shiftLogs rest else ev :: rest
  end.

(** [log(event)] with the loop that follows the push of [log] (the
    lines after it concern the screen). *)
Definition logEvent (b : t) (ev : LogEvent) : t :=
  with_logs b (shiftLogs (logs (log b ev))).

(** *** Chart analysis *)

(** Where the [concatMap] over the advices of one analysis stands:
    every advice was digested; the digestion of one is still awaiting a
    promise, the advices [rest] waiting behind it; or the promise of
    one digestion was left unsettled, and [rest] is never taken. *)
Inductive Progress :=
| completed
| waiting (rest : list Advice)
| blocked (rest : list Advice).

(** The [concatMap] callback of [analyzeChart] over the advices, the
    promises awaited by the digestion of each advice settling as its
    entry of [answers] says. *)
Fixpoint digestInOrder (b : t) (advisorId chartId : string) (isFinal : bool)
    (advices : list Advice) (answers : list (list Response)) : option (t * Progress) :=
  match advices with
  | [] => Some (b, completed)
  | advice :: rest =>
      match digestAdvice b {| advisorId := advisorId; chartId := chartId;
                              isFinal := isFinal; advice := advice |}
                         (hd [] answers) with
      | None => None
      | Some (b', finished (Js.resolved _)) =>
          digestInOrder b' advisorId chartId isFinal rest (tl answers)
      | Some (b', finished (Js.rejected e)) =>
          digestInOrder (logEvent b' (logError e)) advisorId chartId isFinal rest (tl answers)
      | Some (b', suspended _) => Some (b', waiting rest)
      | Some (b', unsettled) => Some (b', blocked rest)
      end
  end.

(** The callback of [Object.keys(this.advisors).map] in [analyzeChart],
    for one advisor; reading [config] of an unknown chart throws inside
    the [try]. *)
Definition analyzeFor (b : t) (chartId : string) (candles : Candles) (isFinal : bool)
    (entry : string * Advisor.t) (answers : list (list Response)) : option (t * Progress) :=
  let (advisorId, advisor) := entry in
  if existsb (String.eqb chartId) (Advisor.chartIds advisor) then
    match charts b !! chartId with
    | None =>
        Some (logEvent b (logError (Js.typeError "Cannot read property 'config' of undefined")),
              completed)
    | Some chart =>
        match Advisor.analyze advisor candles (Chart.strategies chart) with
        | Js.rejected e => Some (logEvent b (logError e), completed)
        | Js.resolved advices =>
            digestInOrder b advisorId chartId isFinal (omap id advices) answers
        end
    end
  else Some (b, completed).

(** *** Loading an advisor *)

Record Host := {
  (* require(`../advisors/${advisorId}.js`); None when the file does not exist *)
  advisorModule : string -> option Js.Value;
  (* Advisor.getChartConfigs(sights) *)
  getChartConfigs : Js.Value -> Js.Settled (list Js.Value);
  (* hash(chartConfig) of object-hash, or what it throws *)
  hash : Js.Value -> Js.Error + string;
  (* Chart.initialize(chartId, chartConfig, {...}) *)
  chartInitialize : string -> Js.Value -> Js.Settled Chart.t;
  (* new Advisor(advisorName, chartIds, margin) *)
  newAdvisor : string -> list string -> float -> Advisor.t;
  (* errorToString of ../helpers *)
  errorToString : Js.Error -> string;
  (* parseFloat on anything but a number *)
  parseFloatOther : Js.Value -> float
}.

Definition with_advisors (b : t) (l : list (string * Advisor.t)) : t :=
  {| advisors := l; charts := charts b; funds := funds b;
     logs := logs b; quitting := quitting b; trades := trades b |}.

Definition with_charts (b : t) (cs : gmap string Chart.t) : t :=
  {| advisors := advisors b; charts := cs; funds := funds b;
     logs := logs b; quitting := quitting b; trades := trades b |}.

(** [this.advisors[advisorId] = advisor]: an existing key keeps its place. *)
Fixpoint setAdvisor (l : list (string * Advisor.t)) (advisorId : string) (a : Advisor.t)
    : list (string * Advisor.t) :=
  match l with
  | [] => [(advisorId, a)]
  | (k, a') :: rest =>
      if String.eqb k advisorId then (k, a) :: rest
      else (k, a') :: setAdvisor rest advisorId a
  end.

(** The [concatMap] callback of [addAdvisor] for one chart: the bot and
    the chart id its promise resolves with, or [None] when [hash] throws
    or [Chart.initialize] rejects: nothing catches either, and the
    promise stays pending. *)
Definition loadChart (h : Host) (b : t) (chartConfig : Js.Value) : t * option string :=
  match hash h chartConfig with
  | inl _ => (b, None)
  | inr chartId =>
      match charts b !! chartId with
      | Some loaded =>
          (logEvent b (logMessage "info" (Chart.name loaded +:+ " already loaded, skipping")),
           Some chartId)
      | None =>
          match chartInitialize h chartId chartConfig with
          | Js.rejected _ => (b, None)
          | Js.resolved chart => (with_charts b (<[chartId := chart]> (charts b)), Some chartId)
          end
      end
  end.

(** [from(chartConfigs).pipe(concatMap(...), toArray())] *)
Fixpoint loadCharts (h : Host) (b : t) (chartConfigs : list Js.Value)
    : t * option (list string) :=
  match chartConfigs with
  | [] => (b, Some [])
  | chartConfig :: rest =>
      match loadChart h b chartConfig with
      | (b1, None) => (b1, None)
      | (b1, Some chartId) =>
          match loadCharts h b1 rest with
          | (b2, chartIds) => (b2, option_map (cons chartId) chartIds)
          end
      end
  end.

(** How the promise of [addAdvisor] ends: with [resolve()], with
    [reject(error)], or not at all. *)
Inductive Added :=
| resolves (b : t)
| rejects (e : Js.Error)
| neverSettles (b : t).

(** [value || fallback] *)
Definition orElse (value fallback : Js.Value) : Js.Value :=
  if Js.truthy value then value else fallback.

(** [(!(margin > 0) || margin > 100) || !Array.isArray(sights) || !sights.length] *)
Definition misconfigured (margin : float) (sights : Js.Value) : bool :=
  (negb (0 <? margin)%float || (100 <? margin)%float)
  || negb (Js.isArray sights)
  || match sights with Js.array [] => true | _ => false end.

(** [addAdvisor(advisorId)] *)
Definition addAdvisor (h : Host) (b : t) (advisorId : string) : Added :=
  let advisorName := Js.capitalize advisorId in
  let caught e :=
    Js.withMessage e ("Advisor " +:+ advisorName +:+ ": " +:+ errorToString h e) in
  let notConfigured := Js.error ("Advisor " +:+ advisorName +:+ " not properly configured") in
  match advisorModule h advisorId with
  | None => rejects (Js.error ("Advisor " +:+ advisorName +:+ " doesn't exist"))
  | Some advisorConfig =>
      if negb (Js.typeofObject advisorConfig) || Js.isArray advisorConfig
      then rejects notConfigured
      else
        match Js.get advisorConfig "margin", Js.get advisorConfig "sights" with
        | inr marginValue, inr sightsValue =>
            let margin :=
              Bot.parseFloat (parseFloatOther h) (orElse marginValue (Js.number 0%float)) in
            let sights := orElse sightsValue (Js.array []) in
            if misconfigured margin sights then rejects notConfigured
            else
              match getChartConfigs h sights with
              | Js.rejected e => rejects (caught e)
              | Js.resolved chartConfigs =>
                  match loadCharts h b chartConfigs with
                  | (b1, None) => neverSettles b1
                  | (b1, Some chartIds) =>
                      let advisor := newAdvisor h advisorName chartIds margin in
                      resolves
                        (logEvent
                           (with_advisors b1 (setAdvisor (advisors b1) advisorId advisor))
                           (logMessage "success" ("Advisor " +:+ advisorName +:+ " running")))
                  end
              end
        | inl e, _ => rejects (caught e)
        | _, inl e => rejects (caught e)
        end
  end.

End Legacy.

(** ** The wording of the specification, for comparison *)

Module Spec.

(** The quantity committed to [asset] as the specification words it:
    "longs selling the quote asset, shorts selling the base asset". *)
Definition committed (b : Bot.t) (asset : string) : option float :=
  match filterThrowing
          (fun trade =>
             if Trade.isLong trade && Trade.isOpen trade then
               match Bot.charts b !! Trade.chartId trade with
               | Some chart => Some (String.eqb (quoteAsset (Chart.info chart)) asset)
               | None => None
               end
             else Some false) (Bot.trades b) with
  | None => None
  | Some longs =>
      match filterThrowing
              (fun trade =>
                 if negb (Trade.isLong trade) && Trade.isOpen trade then
                   match Bot.charts b !! Trade.chartId trade with
                   | Some chart => Some (String.eqb (baseAsset (Chart.info chart)) asset)
                   | None => None
                   end
                 else Some false) (Bot.trades b) with
      | None => None
      | Some shorts => Some (sumQuantity longs + sumQuantity shorts)%float
      end
  end.

End Spec.

(** ** Predicates the statements use *)

(** The open trade [trade] will sell [asset] back: it is a long on a
    chart whose base asset is [asset], or a short on a chart whose quote
    asset is [asset]. *)
Definition sellsBack (b : Bot.t) (asset : string) (trade : Trade.t) : Prop :=
  Trade.isOpen trade = true /\
  exists chart, Bot.charts b !! Trade.chartId trade = Some chart /\
    ((Trade.isLong trade = true /\ baseAsset (Chart.info chart) = asset) \/
     (Trade.isLong trade = false /\ quoteAsset (Chart.info chart) = asset)).

(** The chart of every open trade is loaded (trades are only opened on
    loaded charts, and charts are never unloaded). *)
Definition chartsKnown (b : Bot.t) : Prop :=
  forall trade, In trade (Bot.trades b) -> Trade.isOpen trade = true ->
    is_Some (Bot.charts b !! Trade.chartId trade).

(** Number of open trades of advisor [a] on chart [c]. *)
Definition openCount (a c : string) (ts : list Trade.t) : nat :=
  length (List.filter (Bot.openFor a c) ts).

Definition atMostOneOpen (ts : list Trade.t) : Prop :=
  forall a c, (openCount a c ts <= 1)%nat.

(** At most one open position per pair, in the words of the
    specification: two positions of the list that are both open never
    have the same advisor and the same chart. *)
Definition onePositionPerPair (ts : list Trade.t) : Prop :=
  forall i j ti tj,
    ts !! i = Some ti -> ts !! j = Some tj ->
    Trade.isOpen ti = true -> Trade.isOpen tj = true ->
    Trade.advisorId ti = Trade.advisorId tj ->
    Trade.chartId ti = Trade.chartId tj ->
    i = j.

(** No position of advisor [advisorId] on chart [chartId] is open. *)
Definition noneOpen (advisorId chartId : string) (ts : list Trade.t) : Prop :=
  forall trade, In trade ts ->
    Trade.advisorId trade = advisorId -> Trade.chartId trade = chartId ->
    Trade.isOpen trade = false.

(** Consecutive times are at least [d] apart. *)
Fixpoint spaced (d : N) (times : list N) : Prop :=
  match times with
  | t1 :: rest =>
      match rest with
      | t2 :: _ => (t1 + d <= t2)%N /\ spaced d rest
      | [] => True
      end
  | [] => True
  end.

(** A job that awaits [Trade.initialize] has seen no open trade for
    its advisor and chart, and none has appeared since. *)
Definition pendingSafe (b : Bot.t) (entry : Bot.Job * Bot.Pending) : Prop :=
  match snd entry with
  | Bot.awaitTradeInitialize o =>
      openCount (Trade.o_advisorId o) (Trade.o_chartId o) (Bot.trades b) = 0%nat
  | _ => True
  end.

Definition worldInvariant (w : Bot.World) : Prop :=
  atMostOneOpen (Bot.trades (Bot.bot w)) /\
  (length (Bot.running w) <= Bot.maxConcurrent)%nat /\
  Forall (pendingSafe (Bot.bot w)) (Bot.running w).

(** What the limiter maintains: the lane holds at most [maxConcurrent]
    jobs, the jobs launched so far followed by the waiting ones are the
    scheduled ones, launches are [minTime] apart, and [lastLaunch] is
    the time of the last of them and not in the future. *)
Definition laneInvariant (w : Bot.World) : Prop :=
  (length (Bot.running w) <= Bot.maxConcurrent)%nat /\
  (map snd (Bot.launches w) ++ Bot.queue w)%list = Bot.scheduled w /\
  spaced Bot.minTime (map fst (Bot.launches w)) /\
  last (map fst (Bot.launches w)) = Bot.lastLaunch w /\
  (forall t, Bot.lastLaunch w = Some t -> (t <= Bot.now w)%N).

(** The signals [digestAdvice] knows. *)
Definition recognized (signal : string) : Prop :=
  signal = "LONG" \/ signal = "SHORT" \/ signal = "CLOSE LONG" \/ signal = "CLOSE SHORT".



(** While paused exactly one timer is armed, the one [this.unpause]
    subscribes to; while not paused none is. *)
Definition pauseInvariant (c : Bot.Console) : Prop :=
  if Bot.paused (Bot.c_bot c) then
    exists i due, Bot.unpause (Bot.c_bot c) = Some i /\ Bot.c_timers c = [(i, due)]
  else Bot.c_timers c = [].

(** [evs] holds [n] DIGEST_ADVICE notifications. *)
Definition notifications (evs : list Bot.Event) : nat :=
  length (List.filter (fun ev => match ev with Bot.notify _ => true | _ => false end) evs).

(** [evs] holds [n] calls of the [log] closure by trades and charts. *)
Definition logCalls (evs : list Bot.Event) : nat :=
  length (List.filter (fun ev => match ev with Bot.logCalled _ => true | _ => false end) evs).

(** A trade has a positive quantity and the direction of the signal
    that opened it. *)
Definition directed (signal : string) (isLong : bool) : Prop :=
  (signal = "LONG" /\ isLong = true) \/ (signal = "SHORT" /\ isLong = false).

Definition wellFormed (trade : Trade.t) : Prop :=
  (0 <? Trade.quantity trade)%float = true /\
  directed (Trade.signal trade) (Trade.isLong trade).

(** Trade number [i] (from 0) is called T(i+1). *)
Definition numbered (ts : list Trade.t) : Prop :=
  forall i trade, ts !! i = Some trade -> Trade.id trade = "T" +:+ pretty (i + 1)%nat.

(** What a job in flight has fixed about the trade it may register. *)
Definition offerSafe (b : Bot.t) (entry : Bot.Job * Bot.Pending) : Prop :=
  match snd entry with
  | Bot.awaitClampQuantity _ _ isLong => directed (Bot.j_signal (fst entry)) isLong
  | Bot.awaitTradeInitialize o =>
      (0 <? Trade.o_quantity o)%float = true /\
      directed (Trade.o_signal o) (Trade.o_isLong o) /\
      Trade.o_id o = "T" +:+ pretty (length (Bot.trades b) + 1)%nat
  | _ => True
  end.

Definition registryInvariant (w : Bot.World) : Prop :=
  (length (Bot.running w) <= Bot.maxConcurrent)%nat /\
  Forall (offerSafe (Bot.bot w)) (Bot.running w) /\
  Forall wellFormed (Bot.trades (Bot.bot w)) /\
  numbered (Bot.trades (Bot.bot w)).

(** The batches whose rejection was logged are distinct, and they and
    the batches of the jobs waiting or in flight were handed out by
    [digestAdvice] calls made so far. *)
Definition batchInvariant (w : Bot.World) : Prop :=
  NoDup (Bot.rejectedBatches w) /\
  Forall (fun n => (n < Bot.nextBatch w)%nat) (Bot.rejectedBatches w) /\
  Forall (fun job => (Bot.j_batch job < Bot.nextBatch w)%nat) (Bot.queue w) /\
  Forall (fun entry => (Bot.j_batch (fst entry) < Bot.nextBatch w)%nat) (Bot.running w).

(** Every chart an advisor subscribes to is loaded. *)
Definition subscriptionsLoaded (b : Bot.t) : Prop :=
  forall advisorId advisor chartId,
    In (advisorId, advisor) (Bot.advisors b) ->
    In chartId (Bot.Advisor.chartIds advisor) ->
    is_Some (Bot.charts b !! chartId).


(** What [initialize] does with the advisor list once the provider is
    connected: the bot it leaves, and whether the [forkJoin] completes. *)
Definition advisorsAdded (h : Bot.Host) (b1 : Bot.t) (advisorIds : Js.Value) : Bot.t * bool :=
  match advisorIds with
  | Js.undefined => Bot.addAdvisors h b1 [] 0
  | Js.array items => Bot.addAdvisors h b1 items 0
  | _ => (Bot.log b1 (logError (Js.error "Advisors not configured properly")), true)
  end.



(** While the log screen is scrolled back by [n] entries, the window of
    [pageSize + n] entries fits in the log. *)
Definition scrollBounded (s : Session.t) : Prop :=
  forall pageSize n,
    Session.modeIs "l" s = true ->
    Session.ui s = Some pageSize ->
    Session.readMore s = Some (S n) ->
    (pageSize + Z.of_nat (S n) <= Z.of_nat (length (Bot.logs (Session.bot s))))%Z.

(** The state [handleKeyPress(key)] leaves. *)
Definition press (h : Session.Host) (p : Session.Provider) (key : Session.Key)
    (s : Session.t) : Session.t :=
  Session.after (Session.handleKeyPress h p key) s.

(** An action keeps a property of the session, whether it throws or
    not. *)
Definition keeps {A} (I : Session.t -> Prop) (m : Session.Action A) : Prop :=
  forall s, I s -> I (Session.after m s).

(** The action ends without throwing. *)
Definition returns {A} (m : Session.Action A) (s : Session.t) : Prop :=
  exists a, snd (m s) = inr a.

(** ** Data for the worked scenarios *)

Module Example.

(** Every configured risk is a number here. *)
Definition noStrings (v : Js.Value) : float := nan.

Definition vsa : Strategy.t := {| Strategy.name := "vsa"; Strategy.risk := Js.number 10 |}.

Definition btcusdt : Chart.t :=
  {| Chart.name := "BTCUSDT 1m";
     Chart.info := {| baseAsset := "BTC"; quoteAsset := "USDT" |};
     Chart.symbol := "BTCUSDT";
     Chart.strategies := [vsa] |}.

(** An advisor whose strategies answer every candle, final or not,
    with the one signal [sig]. *)
Definition always (sig : string) : Bot.Advisor.t :=
  {| Bot.Advisor.name := "Example";
     Bot.Advisor.chartIds := ["c1"];
     Bot.Advisor.analyze := fun _ ss _ _ =>
       Js.resolved (map (fun s => Some {| Bot.signals := [sig]; Bot.strategy := s |}) ss) |}.

(** One advisor on one chart, 1000 USDT available, no trade yet. *)
Definition bot0 : Bot.t :=
  {| Bot.advisors := [("example", always "LONG")];
     Bot.charts := <["c1" := btcusdt]> ∅;
     Bot.currentMode := None;
     Bot.funds := <["USDT" := {| available := 1000 |}]> ∅;
     Bot.logs := [];
     Bot.paused := false;
     Bot.trades := [];
     Bot.unpause := None |}.

Definition long1 : Trade.t :=
  {| Trade.id := "T1"; Trade.advisorId := "example"; Trade.chartId := "c1";
     Trade.who := "Example→BTCUSDT 1m→vsa"; Trade.isLong := true;
     Trade.quantity := 100; Trade.isOpen := true; Trade.signal := "LONG";
     Trade.strategy := vsa |}.

Definition short2 : Trade.t :=
  {| Trade.id := "T2"; Trade.advisorId := "other"; Trade.chartId := "c1";
     Trade.who := "Other→BTCUSDT 1m→vsa"; Trade.isLong := false;
     Trade.quantity := 2; Trade.isOpen := true; Trade.signal := "SHORT";
     Trade.strategy := vsa |}.

(** [bot0] holding the open long [long1]. *)
Definition bot1 : Bot.t := Bot.with_trades bot0 [long1].

(** [bot0] holding an open long and an open short. *)
Definition bot2 : Bot.t := Bot.with_trades bot0 [long1; short2].

Definition longPayload : Bot.Payload :=
  {| Bot.advisorId := "example"; Bot.chartId := "c1";
     Bot.advice := {| Bot.signals := ["LONG"]; Bot.strategy := vsa |} |}.

(** Two LONG advices for the same advisor and chart, the second
    processed before the first position has finished opening. *)
Definition twoLongs : list Bot.Event :=
  [Bot.notify longPayload; Bot.notify longPayload; Bot.launch;
   Bot.settle 0 (Bot.clampSettled (Js.resolved 100%float));
   Bot.settle 0 (Bot.initializeSettled (Js.resolved true));
   Bot.tick 300; Bot.launch;
   Bot.settle 0 (Bot.clampSettled (Js.resolved 90%float))].

(** Both trades of [bot2] are told to close in the same turn; the long
    calls its [sell] closure and the short its [buy] closure. *)
Definition bothClose : list Bot.Event :=
  [Bot.tradeOrders (Bot.sell 100 (Chart.info btcusdt));
   Bot.tradeOrders (Bot.buy 2 (Chart.info btcusdt))].




(** A LONG advice is digested, the clamp returns the amount it was
    given (100), and the entry order is filled. *)
Definition openLong : list Bot.Event :=
  [Bot.notify longPayload; Bot.launch;
   Bot.settle 0 (Bot.clampSettled (Js.resolved 100%float));
   Bot.settle 0 (Bot.initializeSettled (Js.resolved true))].

(** [bot2] with the quit screen showing. *)
Definition quittingBot : Bot.t := Bot.with_mode bot2 (Some "q").

(** The older bot with the same two open trades, [q] having been
    pressed. *)
Definition oldQuittingBot : Legacy.t :=
  {| Legacy.advisors := []; Legacy.charts := <["c1" := btcusdt]> ∅;
     Legacy.funds := ∅; Legacy.logs := []; Legacy.quitting := true;
     Legacy.trades := [long1; short2] |}.

(** The older bot with one advisor on the chart and 1000 USDT. *)
Definition oldAdvisor : Legacy.Advisor.t :=
  {| Legacy.Advisor.name := "Example"; Legacy.Advisor.chartIds := ["c1"];
     Legacy.Advisor.margin := 10;
     Legacy.Advisor.analyze := fun _ ss =>
       Js.resolved (map (fun s => Some {| Legacy.signal := "LONG"; Legacy.strategy := s |}) ss) |}.

Definition oldBot : Legacy.t :=
  {| Legacy.advisors := [("example", oldAdvisor)];
     Legacy.charts := <["c1" := btcusdt]> ∅;
     Legacy.funds := <["USDT" := {| available := 1000 |}]> ∅;
     Legacy.logs := []; Legacy.quitting := false; Legacy.trades := [] |}.

(** A LONG computed on a candle that is still in progress. *)
Definition provisionalLong : Legacy.Digest :=
  {| Legacy.advisorId := "example"; Legacy.chartId := "c1"; Legacy.isFinal := false;
     Legacy.advice := {| Legacy.signal := "LONG"; Legacy.strategy := vsa |} |}.




(** The same LONG on a final candle. *)
Definition finalLong : Legacy.Digest :=
  {| Legacy.advisorId := "example"; Legacy.chartId := "c1"; Legacy.isFinal := true;
     Legacy.advice := {| Legacy.signal := "LONG"; Legacy.strategy := vsa |} |}.

Definition finalBound : Legacy.Bound :=
  {| Legacy.b_digest := finalLong; Legacy.b_advisor := oldAdvisor;
     Legacy.b_chart := btcusdt; Legacy.b_who := "Example->BTCUSDT 1m->vsa" |}.

(** An advice with a signal the bot does not know. *)
Definition oldHold : Legacy.Digest :=
  {| Legacy.advisorId := "example"; Legacy.chartId := "c1"; Legacy.isFinal := true;
     Legacy.advice := {| Legacy.signal := "HOLD"; Legacy.strategy := vsa |} |}.

(** An advice with two signals the bot does not know. *)
Definition holdTwice : Bot.Payload :=
  {| Bot.advisorId := "example"; Bot.chartId := "c1";
     Bot.advice := {| Bot.signals := ["HOLD"; "WAIT"]; Bot.strategy := vsa |} |}.

(** Both signals are digested, 300 ms apart; both jobs reject. *)
Definition bothRejected : list Bot.Event :=
  [Bot.notify holdTwice; Bot.launch; Bot.tick 300; Bot.launch].



(** Both signals of [holdTwice] are digested and rejected; in between
    a trade logs an entry of its own through the closure it was handed. *)
Definition rejectedWhileLogging : list Bot.Event :=
  [Bot.notify holdTwice; Bot.launch;
   Bot.logCalled (logMessage "closeTarget" "Target reached");
   Bot.tick 300; Bot.launch].

(** [bot2] with the close-all screen showing. *)
Definition closingBot : Bot.t := Bot.with_mode bot2 (Some "k").

(** A host on which the advisor file [example.js] lists one sight, whose
    chart is [c1]. *)
Definition loadingHost : Bot.Host :=
  {| Bot.providerExists := String.eqb "binance";
     Bot.connect := fun _ => Js.resolved (<["USDT" := {| available := 1000 |}]> ∅);
     Bot.advisorModule := fun advisorId =>
       if String.eqb advisorId "example"
       then Some (Js.array [Js.object [("symbol", Js.str "BTCUSDT")]])
       else None;
     Bot.getChartConfigs := fun advisorConfig =>
       match advisorConfig with
       | Js.array sights => Js.resolved sights
       | _ => Js.resolved []
       end;
     Bot.hash := fun _ => inr "c1";
     Bot.chartInitialize := fun _ _ => Js.resolved btcusdt;
     Bot.newAdvisor := fun advisorName chartIds =>
       {| Bot.Advisor.name := advisorName; Bot.Advisor.chartIds := chartIds;
          Bot.Advisor.analyze := fun _ _ _ _ => Js.resolved [] |};
     Bot.errorToString := Js.message |}.



Definition oneAdvisor : Js.Value :=
  Js.object [("provider", Js.str "binance"); ("advisors", Js.array [Js.str "example"]);
             ("options", Js.object [])].

(** An advisor on two charts. *)
Definition twoCharts : Bot.Advisor.t :=
  {| Bot.Advisor.name := "Example";
     Bot.Advisor.chartIds := ["c1"; "c2"];
     Bot.Advisor.analyze := fun _ _ _ _ => Js.resolved [] |}.

Definition fiveEntries : list LogEvent :=
  [logMessage "info" "one"; logMessage "info" "two"; logMessage "info" "three";
   logMessage "info" "four"; logMessage "info" "five"].

(** Two advisors, two charts, the two open trades of [bot2], five log
    entries; the chart screen shows [c1] of the first advisor on a screen
    whose page holds two entries. *)
Definition screen : Session.t :=
  {| Session.bot :=
       {| Bot.advisors := [("example", twoCharts); ("other", always "SHORT")];
          Bot.charts := <["c1" := btcusdt]> (<["c2" := btcusdt]> ∅);
          Bot.currentMode := Some "c";
          Bot.funds := ∅;
          Bot.logs := fiveEntries;
          Bot.paused := false;
          Bot.trades := [long1; short2];
          Bot.unpause := None |};
     Session.chartKeys := ["c1"; "c2"];
     Session.enabled := fun _ => true;
     Session.currentAdvisor := Some "example";
     Session.currentChart := Some "c1";
     Session.readMore := None;
     Session.ui := Some 2%Z;
     Session.prices := None;
     Session.exchangeInfo := ∅;
     Session.now := 0%N;
     Session.resync := [Session.resyncDelay] |}.

(** The log screen of [screen], scrolled back by one entry. *)
Definition scrolled : Session.t :=
  Session.with_readMore (Session.with_mode screen (Some "l")) (Some 1%nat).

Definition services : Session.Host :=
  {| Session.calculateFunds := fun balance _ =>
       inr ((fun quantity => {| available := quantity |}) <$> balance);
     Session.updateInfo := fun _ chart => chart;
     Session.errorToString := Js.message |}.

(** A provider that cannot be reached. *)
Definition offline : Session.Provider :=
  {| Session.updateServerTime := Js.rejected (Js.error "offline");
     Session.retrieveExchangeInfo := Js.rejected (Js.error "offline");
     Session.retrievePrices := Js.rejected (Js.error "offline");
     Session.retrieveBalance := Js.rejected (Js.error "offline") |}.

(** [l] three times: the log screen, then two entries back. *)
Definition scrollBack : list Session.Event :=
  [Session.pressed Session.keyL offline; Session.pressed Session.keyL offline;
   Session.pressed Session.keyL offline].

(** The older bot's advisor files: [example.js] as in the repository
    (sights only), and [margin.js] with a margin of 10. *)
Definition oldHost : Legacy.Host :=
  {| Legacy.advisorModule := fun advisorId =>
       if String.eqb advisorId "example"
       then Some (Js.object [("sights", Js.array [Js.object [("symbol", Js.str "BTCUSDT")]])])
       else if String.eqb advisorId "margin"
       then Some (Js.object [("margin", Js.number 10);
                             ("sights", Js.array [Js.object [("symbol", Js.str "BTCUSDT")]])])
       else None;
     Legacy.getChartConfigs := fun sights =>
       match sights with
       | Js.array items => Js.resolved items
       | _ => Js.resolved []
       end;
     Legacy.hash := fun _ => inr "c1";
     Legacy.chartInitialize := fun _ _ => Js.resolved btcusdt;
     Legacy.newAdvisor := fun advisorName chartIds margin =>
       {| Legacy.Advisor.name := advisorName; Legacy.Advisor.chartIds := chartIds;
          Legacy.Advisor.margin := margin;
          Legacy.Advisor.analyze := fun _ _ => Js.resolved [] |};
     Legacy.errorToString := Js.message;
     Legacy.parseFloatOther := noStrings |}.

End Example.

(** * Properties *)

(** ** Array helpers *)

Lemma filterThrowing_In {A} (p : A -> option bool) (l r : list A) :
  filterThrowing p l = Some r ->
  forall x, In x r <-> In x l /\ p x = Some true.
Proof.
  revert r. induction l as [|y l IH]; simpl; intros r Hr x.
  - inversion Hr; subst. simpl. tauto.
  - destruct (p y) as [keep|] eqn:Hy; [|discriminate].
    destruct (filterThrowing p l) as [r'|] eqn:Hl; [|discriminate].
    inversion Hr; subst; clear Hr.
    specialize (IH r' eq_refl x).
    destruct keep; simpl; rewrite ?IH.
    + split.
      * intros [->|[H1 H2]]; auto.
      * intros [[->|H1] H2]; auto.
    + split.
      * intros [H1 H2]; auto.
      * intros [[->|H1] H2]; [congruence|auto].
Qed.

Lemma filterThrowing_sublist {A} (p : A -> option bool) (l r : list A) :
  filterThrowing p l = Some r -> sublist r l.
Proof.
  revert r. induction l as [|y l IH]; simpl; intros r Hr.
  - inversion Hr. constructor.
  - destruct (p y) as [keep|]; [|discriminate].
    destruct (filterThrowing p l) as [r'|]; [|discriminate].
    inversion Hr; subst. destruct keep; constructor; auto.
Qed.

Lemma filterThrowing_defined {A} (p : A -> option bool) (l : list A) :
  (forall x, In x l -> is_Some (p x)) -> is_Some (filterThrowing p l).
Proof.
  induction l as [|y l IH]; simpl; intros H; [eauto|].
  destruct (H y (or_introl eq_refl)) as [keep ->].
  destruct IH as [r ->]; [intros; apply H; auto|]. eauto.
Qed.

(** ** Capital committed to open trades *)

Lemma longSellingBack_true (b : Bot.t) asset trade :
  Bot.longSellingBack b asset trade = Some true <->
  Trade.isLong trade = true /\ sellsBack b asset trade.
Proof.
  unfold Bot.longSellingBack, sellsBack.
  destruct (Trade.isLong trade), (Trade.isOpen trade); simpl;
    try (split; [discriminate | intros [? [? _]]; congruence]).
  - destruct (Bot.charts b !! Trade.chartId trade) as [chart|] eqn:Hc.
    + split.
      * intros H. inversion H as [He]. apply String.eqb_eq in He.
        split; [reflexivity|]. split; [reflexivity|]. exists chart. auto.
      * intros [_ [_ [chart' [Hc' [[_ He]|[Hl _]]]]]]; [|discriminate].
        inversion Hc'; subst. f_equal. apply String.eqb_eq. reflexivity.
    + split; [discriminate|]. intros [_ [_ [chart' [Hc' _]]]]. discriminate.
Qed.

Lemma shortSellingBack_true (b : Bot.t) asset trade :
  Bot.shortSellingBack b asset trade = Some true <->
  Trade.isLong trade = false /\ sellsBack b asset trade.
Proof.
  unfold Bot.shortSellingBack, sellsBack.
  destruct (Trade.isLong trade), (Trade.isOpen trade); simpl;
    try (split; [discriminate | intros [? [? _]]; congruence]).
  - destruct (Bot.charts b !! Trade.chartId trade) as [chart|] eqn:Hc.
    + split.
      * intros H. inversion H as [He]. apply String.eqb_eq in He.
        split; [reflexivity|]. split; [reflexivity|]. exists chart. auto.
      * intros [_ [_ [chart' [Hc' [[Hl _]|[_ He]]]]]]; [discriminate|].
        inversion Hc'; subst. f_equal. apply String.eqb_eq. reflexivity.
    + split; [discriminate|]. intros [_ [_ [chart' [Hc' _]]]]. discriminate.
Qed.

Lemma sellingBack_defined (b : Bot.t) asset :
  chartsKnown b ->
  (forall trade, In trade (Bot.trades b) -> is_Some (Bot.longSellingBack b asset trade)) /\
  (forall trade, In trade (Bot.trades b) -> is_Some (Bot.shortSellingBack b asset trade)).
Proof.
  intros Hk. split; intros trade Hin;
    unfold Bot.longSellingBack, Bot.shortSellingBack;
    destruct (Trade.isLong trade) eqn:Hl, (Trade.isOpen trade) eqn:Ho; simpl; eauto;
    destruct (Hk trade Hin Ho) as [chart ->]; eauto.
Qed.

(** C2 (as amended): when sizing for asset A with every open trade's
    chart loaded, the committed quantity is the sum, in list order, of
    the quantities of the open longs whose chart has A as base asset
    plus that of the open shorts whose chart has A as quote asset, taken
    from the trade list at the call; the capital available for sizing is
    the ledger's available balance for A (0 if missing or falsy) minus
    that quantity. *)
Theorem committed_quantity (b : Bot.t) (asset : string) :
  chartsKnown b ->
  exists longs shorts,
    Bot.longsSellingBackAsset b asset = Some longs /\
    Bot.shortsSellingBackAsset b asset = Some shorts /\
    (forall trade, In trade longs <->
       In trade (Bot.trades b) /\ Trade.isLong trade = true /\ sellsBack b asset trade) /\
    (forall trade, In trade shorts <->
       In trade (Bot.trades b) /\ Trade.isLong trade = false /\ sellsBack b asset trade) /\
    sublist longs (Bot.trades b) /\ sublist shorts (Bot.trades b) /\
    Bot.quantityLockedByTrades b asset = Some (sumQuantity longs + sumQuantity shorts)%float /\
    Bot.availableFunds b asset =
      Some (Bot.ledgerAvailable b asset - (sumQuantity longs + sumQuantity shorts))%float.
Proof.
  intros Hk. destruct (sellingBack_defined b asset Hk) as [HL HS].
  destruct (filterThrowing_defined _ _ HL) as [longs Hlongs].
  destruct (filterThrowing_defined _ _ HS) as [shorts Hshorts].
  exists longs, shorts.
  unfold Bot.availableFunds, Bot.quantityLockedByTrades,
    Bot.longsSellingBackAsset, Bot.shortsSellingBackAsset.
  rewrite Hlongs, Hshorts.
  split; [reflexivity|]. split; [reflexivity|].
  split.
  { intros trade. rewrite (filterThrowing_In _ _ _ Hlongs trade).
    rewrite longSellingBack_true. tauto. }
  split.
  { intros trade. rewrite (filterThrowing_In _ _ _ Hshorts trade).
    rewrite shortSellingBack_true. tauto. }
  split; [eapply filterThrowing_sublist; eassumption|].
  split; [eapply filterThrowing_sublist; eassumption|].
  split; reflexivity.
Qed.

Lemma chartsKnown_bot2 : chartsKnown Example.bot2.
Proof.
  intros trade [<-|[<-|[]]] _; vm_compute; eauto.
Qed.

Lemma committed_quantity_witness :
  chartsKnown Example.bot2 /\
  Bot.availableFunds Example.bot2 "USDT" = Some (1000 - (0 + (0 + 2)))%float.
Proof.
  split; [exact chartsKnown_bot2|].
  destruct (committed_quantity Example.bot2 "USDT" chartsKnown_bot2)
    as (longs & shorts & Hl & Hs & _ & _ & _ & _ & _ & Hf).
  vm_compute in Hl. vm_compute in Hs.
  injection Hl as <-. injection Hs as <-.
  exact Hf.
Defined.

(** C2 (as stated, refuted): with one open long of 100 on BTC/USDT, the
    quantity the code treats as committed to USDT, the long's quote
    asset, is 0, where "longs selling the quote asset" gives 100. *)
Lemma committed_not_as_specified :
  Bot.quantityLockedByTrades Example.bot1 "USDT" = Some 0%float /\
  Spec.committed Example.bot1 "USDT" = Some 100%float /\
  Bot.quantityLockedByTrades Example.bot1 "USDT" <> Spec.committed Example.bot1 "USDT".
Proof.
  split; [reflexivity|]. split; [reflexivity|].
  intros H. vm_compute in H.
  apply (f_equal (fun o => match o with Some x => (x =? 0)%float | None => false end)) in H.
  vm_compute in H. discriminate.
Qed.

(** ** At most one open trade per advisor and chart *)

Lemma openFor_true a c trade :
  Bot.openFor a c trade = true <->
  Trade.advisorId trade = a /\ Trade.chartId trade = c /\ Trade.isOpen trade = true.
Proof.
  unfold Bot.openFor. rewrite !andb_true_iff, !String.eqb_eq. tauto.
Qed.

Lemma openCount_app a c l trade :
  openCount a c (l ++ [trade]) =
  (openCount a c l + (if Bot.openFor a c trade then 1 else 0))%nat.
Proof.
  unfold openCount. rewrite List.filter_app, length_app. simpl.
  destruct (Bot.openFor a c trade); reflexivity.
Qed.

Lemma openCount_closed a c (l : list Trade.t) i trade :
  l !! i = Some trade ->
  (openCount a c (<[i := Trade.closed trade]> l) <= openCount a c l)%nat.
Proof.
  unfold openCount. revert i. induction l as [|x l IH]; intros [|i] H; simpl in *;
    try discriminate.
  - unfold Bot.openFor at 1. simpl. rewrite !andb_false_r.
    destruct (Bot.openFor a c x); simpl; lia.
  - specialize (IH i H). destruct (Bot.openFor a c x); simpl; lia.
Qed.

Lemma existsb_openFor a c l :
  existsb (Bot.openFor a c) l = false <-> openCount a c l = 0%nat.
Proof.
  unfold openCount. induction l as [|x l IH]; simpl; [tauto|].
  destruct (Bot.openFor a c x); simpl; [split; discriminate | exact IH].
Qed.

Lemma atMostOneOpen_nil : atMostOneOpen [].
Proof. intros a c. unfold openCount. simpl. lia. Qed.

Lemma filter_one {A} (p : A -> bool) (l : list A) i x :
  l !! i = Some x -> p x = true -> (1 <= length (List.filter p l))%nat.
Proof.
  revert i. induction l as [|y l IH]; intros [|i] Hi Hp; simpl in *; try discriminate.
  - inversion Hi; subst. rewrite Hp. simpl. lia.
  - specialize (IH i Hi Hp). destruct (p y); simpl; lia.
Qed.

Lemma filter_two {A} (p : A -> bool) (l : list A) i j x y :
  l !! i = Some x -> l !! j = Some y -> i <> j -> p x = true -> p y = true ->
  (2 <= length (List.filter p l))%nat.
Proof.
  revert i j. induction l as [|z l IH]; intros [|i] [|j] Hi Hj Hne Hx Hy; simpl in *;
    try discriminate; try congruence.
  - inversion Hi; subst. rewrite Hx. simpl. pose proof (filter_one p l j y Hj Hy). lia.
  - inversion Hj; subst. rewrite Hy. simpl. pose proof (filter_one p l i x Hi Hx). lia.
  - assert (Hne' : i <> j) by congruence.
    specialize (IH i j Hi Hj Hne' Hx Hy). destruct (p z); simpl; lia.
Qed.

Lemma filter_one_inv {A} (p : A -> bool) (l : list A) :
  (1 <= length (List.filter p l))%nat -> exists i x, l !! i = Some x /\ p x = true.
Proof.
  induction l as [|y l IH]; simpl; [lia|].
  destruct (p y) eqn:Hy.
  - intros _. exists 0%nat, y. auto.
  - intros H. destruct (IH H) as (i & x & Hi & Hx). exists (S i), x. auto.
Qed.

Lemma filter_two_inv {A} (p : A -> bool) (l : list A) :
  (2 <= length (List.filter p l))%nat ->
  exists i j x y, i <> j /\ l !! i = Some x /\ l !! j = Some y /\ p x = true /\ p y = true.
Proof.
  induction l as [|z l IH]; simpl; [lia|].
  destruct (p z) eqn:Hz; simpl.
  - intros H. destruct (filter_one_inv p l) as (j & y & Hj & Hy); [lia|].
    exists 0%nat, (S j), z, y. auto.
  - intros H. destruct (IH H) as (i & j & x & y & Hne & Hi & Hj & Hx & Hy).
    exists (S i), (S j), x, y. split; [congruence|]. auto.
Qed.

(** The count the proofs carry and the wording of the specification
    say the same of a list of trades. *)
Lemma atMostOneOpen_pairs (ts : list Trade.t) : atMostOneOpen ts <-> onePositionPerPair ts.
Proof.
  split.
  - intros Hone i j ti tj Hi Hj Hoi Hoj Ha Hc.
    destruct (decide (i = j)) as [|Hne]; [assumption|exfalso].
    specialize (Hone (Trade.advisorId ti) (Trade.chartId ti)). unfold openCount in Hone.
    pose proof (filter_two (Bot.openFor (Trade.advisorId ti) (Trade.chartId ti))
                  ts i j ti tj Hi Hj Hne) as H2.
    rewrite !openFor_true in H2.
    specialize (H2 (conj eq_refl (conj eq_refl Hoi))
                   (conj (eq_sym Ha) (conj (eq_sym Hc) Hoj))).
    lia.
  - intros Hpair a c.
    destruct (le_lt_dec (openCount a c ts) 1) as [|Hmore]; [assumption|exfalso].
    destruct (filter_two_inv (Bot.openFor a c) ts) as (i & j & x & y & Hne & Hi & Hj & Hx & Hy);
      [exact Hmore|].
    apply openFor_true in Hx as (Hax & Hcx & Hox), Hy as (Hay & Hcy & Hoy).
    apply Hne. apply (Hpair i j x y Hi Hj Hox Hoy); congruence.
Qed.

Lemma noneOpen_count a c (ts : list Trade.t) : openCount a c ts = 0%nat <-> noneOpen a c ts.
Proof.
  split.
  - intros H0 trade Hin Ha Hc. destruct (Trade.isOpen trade) eqn:Hopen; [exfalso|reflexivity].
    apply list_elem_of_In, list_elem_of_lookup in Hin as [i Hi].
    pose proof (filter_one (Bot.openFor a c) ts i trade Hi) as H1.
    rewrite openFor_true in H1. specialize (H1 (conj Ha (conj Hc Hopen))).
    unfold openCount in H0. lia.
  - intros Hnone. destruct (openCount a c ts) as [|n] eqn:Hn; [reflexivity|exfalso].
    destruct (filter_one_inv (Bot.openFor a c) ts) as (i & x & Hi & Hx);
      [unfold openCount in Hn; lia|].
    apply openFor_true in Hx as (Hax & Hcx & Hox).
    apply list_elem_of_lookup_2, list_elem_of_In in Hi.
    rewrite (Hnone x Hi Hax Hcx) in Hox. discriminate.
Qed.

(** *** The older version *)

Lemma legacy_resumeAll_invariant c answers : forall b st b' st',
  atMostOneOpen (Legacy.trades b) ->
  (forall o, st = Legacy.suspended (Legacy.awaitTradeInitialize o) ->
     openCount (Trade.o_advisorId o) (Trade.o_chartId o) (Legacy.trades b) = 0%nat) ->
  Legacy.resumeAll b c st answers = Some (b', st') ->
  atMostOneOpen (Legacy.trades b').
Proof.
  induction answers as [|r answers IH]; intros b st b' st' Hone Hsafe Hrun.
  - destruct st; inversion Hrun; subst; assumption.
  - destruct st as [res|p|]; simpl in Hrun; try (inversion Hrun; subst; assumption).
    destruct (Legacy.resumeDigest b c p r) as [[b1 st1]|] eqn:Hres; [|discriminate].
    apply (IH b1 st1 b' st'); [| |exact Hrun]; clear IH Hrun.
    + destruct p as [i reason|a info isLong|o], r as [[[]|e]|[q|e]|[[]|e]];
        simpl in Hres; try discriminate; try (inversion Hres; subst; assumption).
      * destruct (_ && _); inversion Hres; subst; assumption.
      * inversion Hres; subst; clear Hres. simpl. intros a k. rewrite openCount_app.
        destruct (Bot.openFor a k _) eqn:Hopen; [|specialize (Hone a k); lia].
        apply openFor_true in Hopen as (<- & <- & _). simpl.
        rewrite (Hsafe o eq_refl). lia.
    + intros o' Hst1. subst st1.
      destruct p as [i reason|a info isLong|o], r as [[[]|e]|[q|e]|[[]|e]];
        simpl in Hres; try discriminate.
      destruct ((0 <? q)%float) eqn:Hq; simpl in Hres; [|discriminate].
      destruct (existsb _ _) eqn:Hnone; simpl in Hres; inversion Hres; subst.
      simpl. apply existsb_openFor. exact Hnone.
Qed.

Lemma legacy_digestAdvice_invariant old d answers old' st :
  atMostOneOpen (Legacy.trades old) ->
  Legacy.digestAdvice old d answers = Some (old', st) ->
  atMostOneOpen (Legacy.trades old').
Proof.
  intros Hone Hd. unfold Legacy.digestAdvice in Hd.
  destruct (Legacy.bind old d) as [c|]; [|inversion Hd; subst; assumption].
  eapply legacy_resumeAll_invariant; [exact Hone| |exact Hd].
  intros o Hstart. exfalso. revert Hstart. unfold Legacy.startBound.
  repeat match goal with
         | |- context [if ?x then _ else _] => destruct x
         | |- context [match ?x with _ => _ end] => destruct x
         end; discriminate.
Qed.


Ltac lane := unfold Bot.maxConcurrent; simpl; lia.

Section Engine.

Variable parseFloatOther : Js.Value -> float.

Local Abbreviation step := (Bot.step parseFloatOther).
Local Abbreviation run := (Bot.run parseFloatOther).
Local Abbreviation startJob := (Bot.startJob parseFloatOther).

Lemma jobSettled_bot w job r :
  Bot.trades (Bot.bot (Bot.jobSettled w job r)) = Bot.trades (Bot.bot w) /\
  Bot.running (Bot.jobSettled w job r) = Bot.running w /\
  Bot.queue (Bot.jobSettled w job r) = Bot.queue w /\
  Bot.launches (Bot.jobSettled w job r) = Bot.launches w /\
  Bot.scheduled (Bot.jobSettled w job r) = Bot.scheduled w /\
  Bot.lastLaunch (Bot.jobSettled w job r) = Bot.lastLaunch w /\
  Bot.now (Bot.jobSettled w job r) = Bot.now w /\
  Bot.submissions (Bot.jobSettled w job r) = Bot.submissions w.
Proof.
  unfold Bot.jobSettled. destruct r; [tauto|].
  destruct (existsb _ _); simpl; tauto.
Qed.

Lemma startJob_never_initializes b job o :
  startJob b job <> Bot.suspended (Bot.awaitTradeInitialize o).
Proof.
  unfold Bot.startJob.
  repeat match goal with
         | |- context [if ?c then _ else _] => destruct c
         | |- context [match ?x with _ => _ end] => destruct x
         end; discriminate.
Qed.

Lemma invariant_settled w job r :
  worldInvariant w -> worldInvariant (Bot.jobSettled w job r).
Proof.
  unfold worldInvariant, Bot.jobSettled. destruct r; [tauto|].
  destruct (existsb _ _); simpl; tauto.
Qed.

Lemma step_invariant w ev w' :
  worldInvariant w -> step w ev = Some w' -> worldInvariant w'.
Proof.
  intros (Hone & Hlen & Hsafe) Hstep. destruct ev; simpl in Hstep.
  - (* tick *) inversion Hstep; subst. split; [|split]; assumption.
  - (* notify *)
    destruct (Bot.digestAdvice _ _ _); inversion Hstep; subst; split; try split; assumption.
  - (* launch *)
    destruct (Bot.queue w) as [|job rest]; [discriminate|].
    destruct (length (Bot.running w) <? Bot.maxConcurrent)%nat eqn:Hfree; [|discriminate].
    destruct (Bot.spacingElapsed w); [|discriminate]. simpl in Hstep.
    apply Nat.ltb_lt in Hfree. unfold Bot.maxConcurrent in Hfree.
    destruct (Bot.running w) as [|x xs] eqn:Hrun; [|simpl in Hfree; lia].
    destruct (startJob (Bot.bot w) job) as [r|p] eqn:Hstart;
      inversion Hstep; subst; clear Hstep.
    + apply invariant_settled. unfold worldInvariant. simpl.
      split; [assumption|]. split; [lane|constructor].
    + unfold worldInvariant. simpl. split; [assumption|]. split; [lane|].
      constructor; [|constructor]. unfold pendingSafe. simpl.
      destruct p; try exact I.
      exfalso. eapply startJob_never_initializes. eassumption.
  - (* settle *)
    destruct (Bot.running w !! k) as [[job p]|] eqn:Hk; [|discriminate].
    unfold Bot.maxConcurrent in Hlen.
    destruct (Bot.running w) as [|x [|y xs]] eqn:Hrun; simpl in Hlen; try lia;
      [discriminate|].
    destruct k as [|k]; [|discriminate]. simpl in Hk. inversion Hk; subst x; clear Hk.
    inversion Hsafe as [|? ? Hp _]; subst.
    destruct (Bot.resumeJob (Bot.bot w) job p r) as [[b' st]|] eqn:Hres; [|discriminate].
    assert (Hb' : atMostOneOpen (Bot.trades b') /\
                  match st with
                  | Bot.suspended p' => pendingSafe b' (job, p')
                  | Bot.finished _ => True
                  end).
    { destruct p as [i reason|a info isLong|o], r as [r|r|r]; simpl in Hres;
        try discriminate.
      - destruct r; inversion Hres; subst; auto.
      - destruct r as [quantity|e]; [|inversion Hres; subst; auto].
        destruct ((0 <? quantity)%float
                  && negb (existsb (Bot.openFor (Bot.j_advisorId job) (Bot.j_chartId job))
                                   (Bot.trades (Bot.bot w)))) eqn:Hcheck;
          inversion Hres; subst; clear Hres; [|auto].
        apply andb_true_iff in Hcheck as [_ Hnone].
        apply negb_true_iff, existsb_openFor in Hnone.
        split; [assumption|exact Hnone].
      - destruct r as [entryFilled|e]; [|inversion Hres; subst; auto].
        destruct entryFilled; simpl in Hres; inversion Hres; subst; clear Hres; [|auto].
        split; [|exact I]. simpl. intros a c. rewrite openCount_app.
        destruct (Bot.openFor a c _) eqn:Hopen; [|specialize (Hone a c); lia].
        apply openFor_true in Hopen as (<- & <- & _). simpl.
        unfold pendingSafe in Hp. simpl in Hp. rewrite Hp. lia. }
    destruct Hb' as [Hone' Hst].
    destruct st as [res|p']; inversion Hstep; subst; clear Hstep.
    + apply invariant_settled. unfold worldInvariant. simpl.
      split; [assumption|]. split; [lane|constructor].
    + unfold worldInvariant. simpl.
      split; [assumption|]. split; [lane|]. constructor; [assumption|constructor].
  - (* tradeCloses *)
    destruct (Bot.trades (Bot.bot w) !! i) as [trade|] eqn:Hi; [|discriminate].
    inversion Hstep; subst; clear Hstep. unfold worldInvariant. simpl.
    split; [|split; [assumption|]].
    + intros a c. pose proof (openCount_closed a c _ _ _ Hi). specialize (Hone a c). lia.
    + eapply Forall_impl; [exact Hsafe|]. intros [job p]. unfold pendingSafe. simpl.
      destruct p; auto. intros H0.
      pose proof (openCount_closed (Trade.o_advisorId o) (Trade.o_chartId o) _ _ _ Hi). lia.
  - (* tradeOrders *) inversion Hstep; subst. split; [|split]; assumption.
  - (* fundsUpdated *) inversion Hstep; subst. split; [|split]; assumption.
  - (* logCalled *) inversion Hstep; subst. split; [|split]; assumption.
Qed.

Lemma run_invariant evs : forall w w',
  worldInvariant w -> run w evs = Some w' -> worldInvariant w'.
Proof.
  induction evs as [|ev evs IH]; simpl; intros w w' Hw Hrun.
  - inversion Hrun; subst. assumption.
  - destruct (step w ev) as [w1|] eqn:Hstep; [|discriminate].
    eapply IH; [|eassumption]. eapply step_invariant; eassumption.
Qed.

Lemma initial_invariant b :
  atMostOneOpen (Bot.trades b) -> worldInvariant (Bot.initialWorld b).
Proof.
  intros H. split; [assumption|]. split; [simpl; lia|constructor].
Qed.

Lemma step_registers w ev w' :
  worldInvariant w -> step w ev = Some w' ->
  length (Bot.trades (Bot.bot w')) = length (Bot.trades (Bot.bot w)) \/
  exists trade,
    Bot.trades (Bot.bot w') = (Bot.trades (Bot.bot w) ++ [trade])%list /\
    Trade.isOpen trade = true /\
    openCount (Trade.advisorId trade) (Trade.chartId trade) (Bot.trades (Bot.bot w)) = 0%nat.
Proof.
  intros (Hone & Hlen & Hsafe) Hstep. destruct ev; simpl in Hstep.
  - inversion Hstep; subst. left. reflexivity.
  - destruct (Bot.digestAdvice _ _ _); inversion Hstep; subst; left; reflexivity.
  - destruct (Bot.queue w) as [|job rest]; [discriminate|].
    destruct ((length (Bot.running w) <? Bot.maxConcurrent)%nat && Bot.spacingElapsed w);
      [|discriminate].
    destruct (startJob (Bot.bot w) job) as [r|p]; inversion Hstep; subst; left.
    + destruct (jobSettled_bot
                  {| Bot.bot := Bot.bot w; Bot.queue := rest; Bot.running := Bot.running w;
                     Bot.lastLaunch := Some (Bot.now w); Bot.now := Bot.now w;
                     Bot.nextBatch := Bot.nextBatch w;
                     Bot.rejectedBatches := Bot.rejectedBatches w;
                     Bot.scheduled := Bot.scheduled w;
                     Bot.launches := Bot.launches w ++ [(Bot.now w, job)];
                     Bot.submissions := Bot.submissions w |} job r) as [-> _].
      reflexivity.
    + reflexivity.
  - destruct (Bot.running w !! k) as [[job p]|] eqn:Hk; [|discriminate].
    assert (Hp : pendingSafe (Bot.bot w) (job, p)).
    { rewrite Forall_forall in Hsafe. apply Hsafe. apply list_elem_of_lookup. eauto. }
    destruct (Bot.resumeJob (Bot.bot w) job p r) as [[b' st]|] eqn:Hres; [|discriminate].
    assert (Hw' : Bot.trades (Bot.bot w') = Bot.trades b').
    { destruct st; inversion Hstep; subst; [|reflexivity].
      destruct (jobSettled_bot
                  (Bot.with_running (Bot.with_bot w b') (delete k (Bot.running w))) job r0)
        as [-> _]. reflexivity. }
    rewrite Hw'. clear Hstep Hw'.
    destruct p as [i reason|a info isLong|o], r as [r|r|r]; simpl in Hres;
      try discriminate.
    + destruct r; inversion Hres; subst; left; reflexivity.
    + destruct r as [quantity|e]; [|inversion Hres; subst; left; reflexivity].
      destruct (_ && _); inversion Hres; subst; left; reflexivity.
    + destruct r as [entryFilled|e]; [|inversion Hres; subst; left; reflexivity].
      destruct entryFilled; simpl in Hres; inversion Hres; subst; [|left; reflexivity].
      right. eexists. split; [reflexivity|]. split; [reflexivity|]. exact Hp.
  - destruct (Bot.trades (Bot.bot w) !! i) as [trade|]; [|discriminate].
    inversion Hstep; subst. left. simpl. apply length_insert.
  - inversion Hstep; subst. left. reflexivity.
  - inversion Hstep; subst. left. reflexivity.
  - inversion Hstep; subst. left. reflexivity.
Qed.

(** C1 (as amended): in the current version, along every run of the
    event loop from a bot in which no two open positions share their
    advisor and chart (an empty trade list, for one), whatever the order
    in which signals are digested, awaited promises settle and trades
    close, no two open positions ever share their advisor and chart; a
    job calls [Trade.initialize] only right after finding that no
    position of its advisor and chart is open, and a trade is registered
    only while there is still none.  In the older version, which makes
    the same check but serializes nothing, a [digestAdvice] call that
    runs to its end with no other in between keeps the property. *)
Theorem at_most_one_open_position (b : Bot.t) (evs : list Bot.Event) (w : Bot.World) :
  onePositionPerPair (Bot.trades b) ->
  run (Bot.initialWorld b) evs = Some w ->
  onePositionPerPair (Bot.trades (Bot.bot w)) /\
  (forall k job amount info isLong quantity b' o,
     Bot.running w !! k = Some (job, Bot.awaitClampQuantity amount info isLong) ->
     Bot.resumeJob (Bot.bot w) job (Bot.awaitClampQuantity amount info isLong)
       (Bot.clampSettled (Js.resolved quantity))
       = Some (b', Bot.suspended (Bot.awaitTradeInitialize o)) ->
     Trade.o_advisorId o = Bot.j_advisorId job /\
     Trade.o_chartId o = Bot.j_chartId job /\
     noneOpen (Bot.j_advisorId job) (Bot.j_chartId job) (Bot.trades (Bot.bot w))) /\
  (forall ev w', step w ev = Some w' ->
     length (Bot.trades (Bot.bot w')) = length (Bot.trades (Bot.bot w)) \/
     exists trade,
       Bot.trades (Bot.bot w') = (Bot.trades (Bot.bot w) ++ [trade])%list /\
       Trade.isOpen trade = true /\
       noneOpen (Trade.advisorId trade) (Trade.chartId trade) (Bot.trades (Bot.bot w))) /\
  (forall old d answers old' st,
     onePositionPerPair (Legacy.trades old) ->
     Legacy.digestAdvice old d answers = Some (old', st) ->
     onePositionPerPair (Legacy.trades old')).
Proof.
  intros Hb Hrun.
  assert (Hw : worldInvariant w).
  { eapply run_invariant; [|eassumption]. apply initial_invariant.
    apply atMostOneOpen_pairs. assumption. }
  split; [apply atMostOneOpen_pairs; apply Hw|]. split; [|split].
  - intros k job a info isLong quantity b' o _ Hres. simpl in Hres.
    destruct ((0 <? quantity)%float) eqn:Hq; simpl in Hres; [|discriminate].
    destruct (existsb _ _) eqn:He; simpl in Hres; inversion Hres; subst.
    simpl. split; [reflexivity|]. split; [reflexivity|].
    apply noneOpen_count, existsb_openFor. exact He.
  - intros ev w' Hstep.
    destruct (step_registers w ev w' Hw Hstep) as [Hsame|(trade & Hpush & Hopen & Hnone)];
      [left; exact Hsame|right].
    exists trade. split; [exact Hpush|]. split; [exact Hopen|].
    apply noneOpen_count. exact Hnone.
  - intros old d answers old' st Hold Hd. apply atMostOneOpen_pairs.
    eapply legacy_digestAdvice_invariant; [|exact Hd].
    apply atMostOneOpen_pairs. exact Hold.
Qed.

(** ** The limiter *)

Lemma spaced_snoc d (l : list N) t' :
  spaced d l -> (forall t, last l = Some t -> (t + d <= t')%N) -> spaced d (l ++ [t']).
Proof.
  induction l as [|x l IH]; simpl; intros Hs Hlast; [exact I|].
  destruct l as [|y l].
  - simpl. split; [apply Hlast; reflexivity|exact I].
  - destruct Hs as [Hxy Hs]. simpl. split; [exact Hxy|].
    apply IH; [exact Hs|]. intros t Ht. apply Hlast. exact Ht.
Qed.

Lemma lane_settled w job r :
  laneInvariant w -> laneInvariant (Bot.jobSettled w job r).
Proof.
  unfold laneInvariant, Bot.jobSettled. destruct r; [tauto|].
  destruct (existsb _ _); simpl; tauto.
Qed.

Lemma step_lane w ev w' :
  laneInvariant w -> step w ev = Some w' -> laneInvariant w'.
Proof.
  intros (Hlen & Hord & Hsp & Hlast & Hnow) Hstep. destruct ev; simpl in Hstep.
  - inversion Hstep; subst. unfold laneInvariant. simpl.
    repeat (split; [assumption|]). intros t Ht. specialize (Hnow t Ht). lia.
  - destruct (Bot.digestAdvice _ _ _) as [e|jobs]; inversion Hstep; subst;
      unfold laneInvariant; simpl.
    + repeat (split; [assumption|]). assumption.
    + split; [assumption|]. split; [rewrite app_assoc, Hord; reflexivity|].
      repeat (split; [assumption|]). assumption.
  - destruct (Bot.queue w) as [|job rest] eqn:Hq; [discriminate|].
    destruct (length (Bot.running w) <? Bot.maxConcurrent)%nat eqn:Hfree; [|discriminate].
    destruct (Bot.spacingElapsed w) eqn:Hel; [|discriminate]. simpl in Hstep.
    apply Nat.ltb_lt in Hfree.
    assert (Hlane : forall r,
      laneInvariant
        {| Bot.bot := Bot.bot w; Bot.queue := rest; Bot.running := r;
           Bot.lastLaunch := Some (Bot.now w); Bot.now := Bot.now w;
           Bot.nextBatch := Bot.nextBatch w;
           Bot.rejectedBatches := Bot.rejectedBatches w;
           Bot.scheduled := Bot.scheduled w;
           Bot.launches := Bot.launches w ++ [(Bot.now w, job)];
           Bot.submissions := Bot.submissions w |} <->
      (length r <= Bot.maxConcurrent)%nat).
    { intros r. unfold laneInvariant. simpl. split; [tauto|]. intros Hr.
      split; [exact Hr|]. rewrite !map_app. simpl.
      split; [rewrite <- app_assoc; simpl; exact Hord|].
      split.
      - apply spaced_snoc; [exact Hsp|]. intros t Ht.
        rewrite Hlast in Ht. unfold Bot.spacingElapsed in Hel. rewrite Ht in Hel.
        apply N.leb_le in Hel. exact Hel.
      - split; [apply last_snoc|]. intros t Ht. inversion Ht; subst. lia. }
    destruct (startJob (Bot.bot w) job) as [r|p]; inversion Hstep; subst; clear Hstep.
    + apply lane_settled. apply Hlane. lia.
    + apply (Hlane (Bot.running w ++ [(job, p)])). rewrite length_app. simpl. lia.
  - destruct (Bot.running w !! k) as [[job p]|] eqn:Hk; [|discriminate].
    destruct (Bot.resumeJob (Bot.bot w) job p r) as [[b' st]|]; [|discriminate].
    destruct st as [res|p']; inversion Hstep; subst; clear Hstep.
    + apply lane_settled. unfold laneInvariant. simpl.
      split; [rewrite length_delete; [lia|eauto]|]. tauto.
    + unfold laneInvariant. simpl. rewrite length_insert. tauto.
  - destruct (Bot.trades (Bot.bot w) !! i); inversion Hstep; subst.
    unfold laneInvariant. simpl. tauto.
  - inversion Hstep; subst. unfold laneInvariant. simpl. tauto.
  - inversion Hstep; subst. unfold laneInvariant. simpl. tauto.
  - inversion Hstep; subst. unfold laneInvariant. simpl. tauto.
Qed.

Lemma run_lane evs : forall w w',
  laneInvariant w -> run w evs = Some w' -> laneInvariant w'.
Proof.
  induction evs as [|ev evs IH]; simpl; intros w w' Hw Hrun.
  - inversion Hrun; subst. assumption.
  - destruct (step w ev) as [w1|] eqn:Hstep; [|discriminate].
    eapply IH; [|eassumption]. eapply step_lane; eassumption.
Qed.

Lemma initial_lane b : laneInvariant (Bot.initialWorld b).
Proof.
  unfold laneInvariant, Bot.maxConcurrent. simpl.
  split; [lia|]. split; [reflexivity|]. split; [exact I|]. split; [reflexivity|].
  discriminate.
Qed.

Lemma digestAdvice_signals b p n jobs :
  Bot.digestAdvice b p n = inr jobs ->
  map Bot.j_signal jobs = Bot.signals (Bot.advice p).
Proof.
  unfold Bot.digestAdvice.
  destruct (Bot.getAdvisor _ _); [|discriminate].
  destruct (Bot.charts b !! _); [|discriminate].
  intros H. inversion H; subst. rewrite map_map. simpl. apply map_id.
Qed.

(** C6 (as amended): what passes through the single-lane limiter is
    the digestion of signals, one job per signal.  Along every run at
    most one job is in flight, consecutive launches are at least
    [minTime] (300 ms) apart, jobs are launched in the order they were
    scheduled, and [digestAdvice] schedules its signals in their order.
    The [buy] and [sell] closures handed to a trade call the provider
    at once, whatever the state of the limiter. *)
Theorem limiter_serializes_digestion (b : Bot.t) (evs : list Bot.Event) (w : Bot.World) :
  run (Bot.initialWorld b) evs = Some w ->
  (length (Bot.running w) <= 1)%nat /\
  spaced 300 (map fst (Bot.launches w)) /\
  (map snd (Bot.launches w) ++ Bot.queue w)%list = Bot.scheduled w /\
  (forall p jobs, Bot.digestAdvice (Bot.bot w) p (Bot.nextBatch w) = inr jobs ->
     map Bot.j_signal jobs = Bot.signals (Bot.advice p) /\
     exists w', step w (Bot.notify p) = Some w' /\
       Bot.queue w' = (Bot.queue w ++ jobs)%list /\
       Bot.scheduled w' = (Bot.scheduled w ++ jobs)%list) /\
  (forall o, exists w', step w (Bot.tradeOrders o) = Some w' /\
     Bot.submissions w' = (Bot.submissions w ++ [(Bot.now w, o)])%list /\
     Bot.queue w' = Bot.queue w /\ Bot.running w' = Bot.running w /\
     Bot.launches w' = Bot.launches w /\ Bot.scheduled w' = Bot.scheduled w /\
     Bot.lastLaunch w' = Bot.lastLaunch w).
Proof.
  intros Hrun.
  destruct (run_lane evs _ _ (initial_lane b) Hrun) as (Hlen & Hord & Hsp & _ & _).
  split; [exact Hlen|]. split; [exact Hsp|]. split; [exact Hord|]. split.
  - intros p jobs Hd. split; [eapply digestAdvice_signals; eassumption|].
    simpl. rewrite Hd. eexists. split; [reflexivity|]. simpl. auto.
  - intros o. simpl. eexists. split; [reflexivity|]. simpl. tauto.
Qed.

(** ** Unrecognized signals *)


End Engine.

Lemma onePositionPerPair_nil : onePositionPerPair [].
Proof. intros i j ti tj Hi. rewrite lookup_nil in Hi. discriminate. Qed.

Lemma at_most_one_open_position_witness :
  onePositionPerPair (Bot.trades Example.bot0) /\
  match Bot.run Example.noStrings (Bot.initialWorld Example.bot0) Example.twoLongs with
  | Some w =>
      onePositionPerPair (Bot.trades (Bot.bot w)) /\
      length (List.filter Trade.isOpen (Bot.trades (Bot.bot w))) = 1%nat
  | None => False
  end.
Proof.
  split; [apply onePositionPerPair_nil|].
  destruct (Bot.run Example.noStrings (Bot.initialWorld Example.bot0) Example.twoLongs)
    as [w|] eqn:Hrun.
  - split.
    + apply (at_most_one_open_position Example.noStrings Example.bot0 Example.twoLongs w
               onePositionPerPair_nil Hrun).
    + vm_compute in Hrun. injection Hrun as <-. reflexivity.
  - vm_compute in Hrun. discriminate.
Defined.

(** C1 (as stated, refuted): in the older version two [digestAdvice]
    calls for the same advisor and chart overlap: each finds no open
    position when its clamp returns, each initializes a trade, and both
    are registered.  The pair [(example, c1)] then has two open
    positions. *)
Lemma overlapping_digestions_open_two_positions :
  onePositionPerPair (Legacy.trades Example.oldBot) /\
  exists a o1 o2 b1 b2 t1 t2,
    Legacy.startDigest Example.oldBot Example.finalLong
      = Legacy.suspended (Legacy.awaitClampQuantity a (Chart.info Example.btcusdt) true) /\
    Legacy.resumeDigest Example.oldBot Example.finalBound
      (Legacy.awaitClampQuantity a (Chart.info Example.btcusdt) true)
      (Legacy.clampSettled (Js.resolved 100%float))
      = Some (Example.oldBot, Legacy.suspended (Legacy.awaitTradeInitialize o1)) /\
    Legacy.resumeDigest Example.oldBot Example.finalBound
      (Legacy.awaitClampQuantity a (Chart.info Example.btcusdt) true)
      (Legacy.clampSettled (Js.resolved 90%float))
      = Some (Example.oldBot, Legacy.suspended (Legacy.awaitTradeInitialize o2)) /\
    Legacy.resumeDigest Example.oldBot Example.finalBound (Legacy.awaitTradeInitialize o1)
      (Legacy.initializeSettled (Js.resolved tt))
      = Some (b1, Legacy.finished (Js.resolved tt)) /\
    Legacy.resumeDigest b1 Example.finalBound (Legacy.awaitTradeInitialize o2)
      (Legacy.initializeSettled (Js.resolved tt))
      = Some (b2, Legacy.finished (Js.resolved tt)) /\
    Legacy.trades b2 = [t1; t2] /\
    Trade.isOpen t1 = true /\ Trade.isOpen t2 = true /\
    Trade.advisorId t1 = "example" /\ Trade.advisorId t2 = "example" /\
    Trade.chartId t1 = "c1" /\ Trade.chartId t2 = "c1" /\
    ~ onePositionPerPair (Legacy.trades b2).
Proof.
  split; [apply onePositionPerPair_nil|].
  eexists _, _, _, _, _, _, _.
  split; [vm_compute; reflexivity|].
  split; [vm_compute; reflexivity|].
  split; [vm_compute; reflexivity|].
  split; [vm_compute; reflexivity|].
  split; [vm_compute; reflexivity|].
  split; [reflexivity|].
  repeat (split; [reflexivity|]).
  intros Hpair.
  specialize (Hpair 0%nat 1%nat _ _ eq_refl eq_refl eq_refl eq_refl eq_refl eq_refl).
  discriminate.
Qed.

Lemma limiter_serializes_digestion_witness :
  match Bot.run Example.noStrings (Bot.initialWorld Example.bot0) Example.twoLongs with
  | Some w => spaced 300 (map fst (Bot.launches w)) /\ map fst (Bot.launches w) = [0%N; 300%N]
  | None => False
  end.
Proof.
  destruct (Bot.run Example.noStrings (Bot.initialWorld Example.bot0) Example.twoLongs)
    as [w|] eqn:Hrun.
  - split.
    + apply (limiter_serializes_digestion Example.noStrings Example.bot0 Example.twoLongs w Hrun).
    + vm_compute in Hrun. injection Hrun as <-. reflexivity.
  - vm_compute in Hrun. discriminate.
Defined.

(** C6 (as stated, refuted): the two trades of [bot2] close in the
    same turn and each calls the closure the bot gave it; both orders
    reach the provider at time 0, with no job scheduled or launched, so
    two submissions are in flight together and 0 ms apart. *)
Lemma orders_bypass_limiter :
  exists w,
    Bot.run Example.noStrings (Bot.initialWorld Example.bot2) Example.bothClose = Some w /\
    Bot.submissions w =
      [(0%N, Bot.providerSell 100 (Chart.info Example.btcusdt));
       (0%N, Bot.providerBuy 2 (Chart.info Example.btcusdt))] /\
    Bot.scheduled w = [] /\ Bot.launches w = [] /\
    ~ spaced Bot.minTime (map fst (Bot.submissions w)).
Proof.
  eexists. split; [reflexivity|]. split; [reflexivity|].
  split; [reflexivity|]. split; [reflexivity|].
  simpl. unfold Bot.minTime. intros [H _]. lia.
Qed.




(** ** Close signals *)

Lemma findIndexed_Some {A} (p : A -> bool) (l : list A) i x :
  findIndexed p l = Some (i, x) -> l !! i = Some x /\ p x = true.
Proof.
  revert i. induction l as [|y l IH]; simpl; intros i H; [discriminate|].
  destruct (p y) eqn:Hy.
  - inversion H; subst. auto.
  - destruct (findIndexed p l) as [[j z]|]; [|discriminate].
    inversion H; subst. simpl. apply IH. reflexivity.
Qed.

Lemma findIndexed_None {A} (p : A -> bool) (l : list A) i x :
  findIndexed p l = None -> l !! i = Some x -> p x = false.
Proof.
  revert i. induction l as [|y l IH]; simpl; intros i H Hi; [discriminate|].
  destruct (p y) eqn:Hy; [discriminate|].
  destruct (findIndexed p l) as [[j z]|]; [discriminate|].
  destruct i as [|i]; simpl in Hi; [inversion Hi; subst; exact Hy|].
  eapply IH; eauto.
Qed.




Section Digestion.

Variable parseFloatOther : Js.Value -> float.

Local Abbreviation startJob := (Bot.startJob parseFloatOther).


End Digestion.



(** ** Position size *)

Section Sizing.

Variable parseFloatOther : Js.Value -> float.

Local Abbreviation step := (Bot.step parseFloatOther).
Local Abbreviation run := (Bot.run parseFloatOther).
Local Abbreviation amount := (Bot.amount parseFloatOther).

Lemma amount_formula b chart isLong s funds :
  Bot.availableFunds b (Bot.settlementAsset chart isLong) = Some funds ->
  amount b chart isLong s = Some ((funds * Bot.riskOf parseFloatOther s) / 100)%float.
Proof. intros H. unfold Bot.amount. rewrite H. reflexivity. Qed.

Lemma locked_single_long b trade chart asset :
  Bot.charts b !! Trade.chartId trade = Some chart ->
  Trade.isLong trade = true -> Trade.isOpen trade = true ->
  Bot.quantityLockedByTrades (Bot.with_trades b [trade]) asset =
    Some (if String.eqb (baseAsset (Chart.info chart)) asset
          then (0 + Trade.quantity trade) + 0 else 0 + 0)%float.
Proof.
  intros Hc Hl Ho.
  unfold Bot.quantityLockedByTrades, Bot.longsSellingBackAsset, Bot.shortsSellingBackAsset,
    Bot.longSellingBack, Bot.shortSellingBack. simpl.
  rewrite Hl, Ho, Hc. simpl.
  destruct (String.eqb _ asset); reflexivity.
Qed.

(** C4 (as amended): the amount handed to the clamp is the available
    capital times the strategy's risk percentage divided by 100.  With
    risk 10, 1000 available of the chart's quote asset, no trade yet and
    a clamp that returns what it is given, a LONG signal opens a position
    of quantity 100; a sizing call made before it closes counts those 100
    as committed for the chart's base asset (the asset the long sells
    back) and counts nothing as committed for its quote asset. *)
Theorem position_size (b : Bot.t) (a c : string) (advisor : Bot.Advisor.t)
    (chart : Chart.t) (s : Strategy.t) :
  Bot.trades b = [] ->
  Bot.getAdvisor (Bot.advisors b) a = Some advisor ->
  Bot.charts b !! c = Some chart ->
  baseAsset (Chart.info chart) <> quoteAsset (Chart.info chart) ->
  Bot.funds b !! quoteAsset (Chart.info chart) = Some {| available := 1000 |} ->
  Strategy.risk s = Js.number 10 ->
  (forall b' chart' isLong s' funds,
     Bot.availableFunds b' (Bot.settlementAsset chart' isLong) = Some funds ->
     amount b' chart' isLong s' = Some ((funds * Bot.riskOf parseFloatOther s') / 100)%float) /\
  exists job w1 w2 trade,
    run (Bot.initialWorld b)
        [Bot.notify {| Bot.advisorId := a; Bot.chartId := c;
                       Bot.advice := {| Bot.signals := ["LONG"]; Bot.strategy := s |} |};
         Bot.launch] = Some w1 /\
    Bot.running w1 = [(job, Bot.awaitClampQuantity 100 (Chart.info chart) true)] /\
    run w1 [Bot.settle 0 (Bot.clampSettled (Js.resolved 100%float));
            Bot.settle 0 (Bot.initializeSettled (Js.resolved true))] = Some w2 /\
    Bot.trades (Bot.bot w2) = [trade] /\
    Trade.quantity trade = 100%float /\
    Trade.isLong trade = true /\ Trade.isOpen trade = true /\
    Bot.quantityLockedByTrades (Bot.bot w2) (baseAsset (Chart.info chart)) = Some 100%float /\
    Bot.quantityLockedByTrades (Bot.bot w2) (quoteAsset (Chart.info chart)) = Some 0%float.
Proof.
  intros Htrades Hadv Hchart Hne Hfunds Hrisk.
  split; [intros; apply amount_formula; assumption|].
  assert (Hamount : amount b chart true s = Some 100%float).
  { unfold Bot.amount, Bot.availableFunds, Bot.quantityLockedByTrades,
      Bot.longsSellingBackAsset, Bot.shortsSellingBackAsset, Bot.ledgerAvailable,
      Bot.riskOf, Bot.settlementAsset.
    rewrite Htrades, Hfunds, Hrisk. reflexivity. }
  eexists _, _, _, _.
  split.
  { simpl. unfold Bot.digestAdvice. simpl. rewrite Hadv, Hchart. simpl.
    unfold Bot.startJob. simpl. rewrite Hamount. reflexivity. }
  split; [reflexivity|].
  split.
  { simpl. rewrite Htrades. simpl. reflexivity. }
  split; [simpl; rewrite Htrades; reflexivity|].
  split; [reflexivity|]. split; [reflexivity|]. split; [reflexivity|].
  simpl. rewrite Htrades. simpl.
  split.
  - erewrite locked_single_long; [|simpl; exact Hchart|reflexivity|reflexivity].
    rewrite String.eqb_refl. reflexivity.
  - erewrite locked_single_long; [|simpl; exact Hchart|reflexivity|reflexivity].
    apply String.eqb_neq in Hne. rewrite Hne. reflexivity.
Qed.

End Sizing.

Lemma position_size_witness :
  Bot.trades Example.bot0 = [] /\
  Bot.getAdvisor (Bot.advisors Example.bot0) "example" = Some (Example.always "LONG") /\
  Bot.charts Example.bot0 !! "c1" = Some Example.btcusdt /\
  baseAsset (Chart.info Example.btcusdt) <> quoteAsset (Chart.info Example.btcusdt) /\
  Bot.funds Example.bot0 !! quoteAsset (Chart.info Example.btcusdt)
    = Some {| available := 1000 |} /\
  Strategy.risk Example.vsa = Js.number 10 /\
  Bot.amount Example.noStrings Example.bot0 Example.btcusdt true Example.vsa = Some 100%float.
Proof.
  assert (Hne : baseAsset (Chart.info Example.btcusdt) <> quoteAsset (Chart.info Example.btcusdt))
    by discriminate.
  repeat (split; [first [reflexivity | exact Hne]|]).
  destruct (position_size Example.noStrings Example.bot0 "example" "c1"
              (Example.always "LONG") Example.btcusdt Example.vsa
              eq_refl eq_refl eq_refl Hne eq_refl eq_refl) as [Hformula _].
  apply (Hformula Example.bot0 Example.btcusdt true Example.vsa 1000%float).
  reflexivity.
Defined.

(** C4 (as stated, refuted): after the LONG of the scenario has opened
    its position of 100, a sizing call for USDT, the quote asset it was
    sized in, finds 0 committed, not 100. *)
Lemma quote_asset_not_committed :
  exists w,
    Bot.run Example.noStrings (Bot.initialWorld Example.bot0) Example.openLong = Some w /\
    Bot.trades (Bot.bot w) = [Example.long1] /\
    Bot.quantityLockedByTrades (Bot.bot w) "USDT" = Some 0%float /\
    Bot.quantityLockedByTrades (Bot.bot w) "USDT" <> Some 100%float.
Proof.
  eexists. split; [vm_compute; reflexivity|].
  split; [reflexivity|]. split; [reflexivity|].
  intros H. vm_compute in H.
  apply (f_equal (fun o => match o with Some x => (x =? 0)%float | None => false end)) in H.
  vm_compute in H. discriminate.
Qed.

(** ** Shutdown *)

Lemma openFrom_In k (ts : list Trade.t) i :
  In i (openFrom k ts) <->
  (k <= i)%nat /\ exists trade, ts !! (i - k)%nat = Some trade /\ Trade.isOpen trade = true.
Proof.
  revert k. induction ts as [|t ts IH]; intros k; simpl.
  - split; [tauto|]. intros [_ (trade & H & _)]. discriminate.
  - assert (Hrest : In i (openFrom (S k) ts) <->
              (k < i)%nat /\ exists trade, (t :: ts) !! (i - k)%nat = Some trade
                                          /\ Trade.isOpen trade = true).
    { rewrite IH. split.
      - intros [Hle (trade & Hl & Ho)]. split; [lia|]. exists trade.
        replace (i - k)%nat with (S (i - S k)) by lia. auto.
      - intros [Hlt (trade & Hl & Ho)]. split; [lia|]. exists trade.
        replace (i - k)%nat with (S (i - S k)) in Hl by lia. auto. }
    destruct (Trade.isOpen t) eqn:Ht; simpl; rewrite ?Hrest.
    + split.
      * intros [->|[Hlt H]]; [|split; [lia|exact H]].
        split; [lia|]. exists t. rewrite Nat.sub_diag. auto.
      * intros [Hle (trade & Hl & Ho)].
        destruct (decide (k = i)) as [->|Hne]; [left; reflexivity|right].
        split; [lia|]. eauto.
    + split.
      * intros [Hlt H]. split; [lia|exact H].
      * intros [Hle (trade & Hl & Ho)].
        destruct (decide (k = i)) as [->|Hne].
        -- rewrite Nat.sub_diag in Hl. simpl in Hl. inversion Hl; subst. congruence.
        -- split; [lia|]. eauto.
Qed.

Lemma closes_In (ts : list Trade.t) i reason :
  In (i, reason) (map (fun i => (i, "expire")) (openFrom 0 ts)) <->
  reason = "expire" /\ exists trade, ts !! i = Some trade /\ Trade.isOpen trade = true.
Proof.
  rewrite in_map_iff. split.
  - intros (j & Hj & Hin). inversion Hj; subst.
    apply openFrom_In in Hin as [_ H]. rewrite Nat.sub_0_r in H. auto.
  - intros [-> H]. exists i. split; [reflexivity|].
    apply openFrom_In. rewrite Nat.sub_0_r. split; [lia|exact H].
Qed.

Lemma without_In i j ids : In j (without i ids) <-> In j ids /\ i <> j.
Proof.
  unfold without. rewrite filter_In, negb_true_iff, Nat.eqb_neq. tauto.
Qed.

Lemma existsb_eqb_In i ids : existsb (Nat.eqb i) ids = true <-> In i ids.
Proof.
  rewrite existsb_exists. split.
  - intros (j & Hin & He). apply Nat.eqb_eq in He. subst. exact Hin.
  - intros H. exists i. split; [exact H|apply Nat.eqb_refl].
Qed.

Lemma quitRun_settled q ss :
  (forall remaining, Bot.q_awaited q <> allPending remaining) -> Bot.quitRun q ss = q.
Proof.
  intros Hq. induction ss as [|s ss IH]; simpl; [reflexivity|].
  unfold Bot.quitRun in *. simpl.
  replace (Bot.quitSettle q s) with q; [exact IH|].
  unfold Bot.quitSettle. destruct (Bot.q_awaited q) eqn:Ha; try reflexivity.
  exfalso. eapply Hq. reflexivity.
Qed.

Lemma quitRun_exited ss : forall q,
  Bot.q_exited (Bot.quitRun q ss) = true ->
  Bot.q_exited q = true \/
  exists remaining, Bot.q_awaited q = allPending remaining /\
    forall i, In i remaining -> In (i, Js.resolved tt) ss.
Proof.
  induction ss as [|s ss IH]; intros q Hex; [left; exact Hex|].
  change (Bot.quitRun q (s :: ss)) with (Bot.quitRun (Bot.quitSettle q s) ss) in Hex.
  specialize (IH _ Hex). unfold Bot.quitSettle in IH.
  destruct (Bot.q_awaited q) as [remaining| |e] eqn:Ha;
    [|destruct IH as [H|(r & H & _)]; [left; exact H|congruence]
     |destruct IH as [H|(r & H & _)]; [left; exact H|congruence]].
  destruct s as [i res]. simpl in IH.
  destruct (existsb (Nat.eqb i) remaining) eqn:Hin.
  - destruct res as [[]|e].
    + unfold promiseAll in IH.
      destruct (without i remaining) as [|j rest] eqn:Hw; simpl in IH.
      * right. exists remaining. split; [reflexivity|]. intros k Hk.
        destruct (decide (i = k)) as [->|Hne]; [left; reflexivity|].
        assert (In k (without i remaining)) by (apply without_In; auto).
        rewrite Hw in H. destruct H.
      * destruct IH as [H|(r & Hr & Hall)]; [left; exact H|].
        right. exists remaining. split; [reflexivity|]. intros k Hk.
        destruct (decide (i = k)) as [->|Hne]; [left; reflexivity|].
        right. apply Hall. inversion Hr; subst. rewrite <- Hw. apply without_In. auto.
    + simpl in IH. destruct IH as [H|(r & Hr & _)]; discriminate.
  - simpl in IH. destruct IH as [H|(r & Hr & Hall)]; [left; exact H|].
    right. exists remaining. split; [reflexivity|]. inversion Hr; subst.
    intros k Hk. right. apply Hall. exact Hk.
Qed.

Lemma quitRun_all_resolved ss : forall q remaining,
  Bot.q_awaited q = allPending remaining -> remaining <> [] ->
  (forall s, In s ss -> snd s = Js.resolved tt) ->
  (forall i, In i remaining -> In (i, Js.resolved tt) ss) ->
  Bot.q_exited (Bot.quitRun q ss) = Bot.q_thenExit q.
Proof.
  induction ss as [|s ss IH]; intros q remaining Ha Hne Hres Hall.
  - destruct remaining as [|i r]; [congruence|]. destruct (Hall i (or_introl eq_refl)).
  - change (Bot.quitRun q (s :: ss)) with (Bot.quitRun (Bot.quitSettle q s) ss).
    destruct s as [i r]. pose proof (Hres (i, r) (or_introl eq_refl)) as Hr.
    simpl in Hr. subst r.
    unfold Bot.quitSettle. rewrite Ha. simpl.
    destruct (existsb (Nat.eqb i) remaining) eqn:Hin.
    + unfold promiseAll. destruct (without i remaining) as [|j rest] eqn:Hw; simpl.
      * rewrite quitRun_settled; [reflexivity|]. simpl. discriminate.
      * rewrite (IH _ (j :: rest));
          [reflexivity|reflexivity|discriminate|intros; apply Hres; right; assumption|].
        intros k Hk. rewrite <- Hw in Hk. apply without_In in Hk as [Hk Hik].
        destruct (Hall k Hk) as [Heq|H]; [inversion Heq; congruence|exact H].
    + rewrite (IH _ remaining);
        [reflexivity|reflexivity|exact Hne|intros; apply Hres; right; assumption|].
      intros k Hk. destruct (Hall k Hk) as [Heq|H]; [|exact H].
      inversion Heq; subst. apply existsb_eqb_In in Hk. congruence.
Qed.

Lemma quitRun_rejected ss : forall q,
  (forall e, Bot.q_awaited q = allRejected e ->
     Bot.q_exited q = false /\ In (logError e) (Bot.logs (Bot.q_bot q))) ->
  forall e, Bot.q_awaited (Bot.quitRun q ss) = allRejected e ->
    Bot.q_exited (Bot.quitRun q ss) = false /\
    In (logError e) (Bot.logs (Bot.q_bot (Bot.quitRun q ss))).
Proof.
  induction ss as [|s ss IH]; intros q Hq; [exact Hq|].
  change (Bot.quitRun q (s :: ss)) with (Bot.quitRun (Bot.quitSettle q s) ss).
  apply IH. unfold Bot.quitSettle.
  destruct (Bot.q_awaited q) as [remaining| |e0] eqn:Ha;
    try (intros e He; apply Hq; congruence).
  destruct s as [i r]. simpl.
  destruct (existsb (Nat.eqb i) remaining); simpl; [|discriminate].
  destruct r as [[]|e1]; simpl.
  - unfold promiseAll. destruct (without i remaining); simpl; discriminate.
  - intros e He. inversion He; subst. split; [reflexivity|].
    apply in_or_app. right. left. reflexivity.
Qed.

Lemma legacy_quitRun_stuck q evs :
  (forall remaining, Legacy.q_phase q <> Legacy.closing (allPending remaining)) ->
  Legacy.q_phase q <> Legacy.lingering ->
  Legacy.quitRun q evs = q.
Proof.
  intros Hp Hl. induction evs as [|ev evs IH]; [reflexivity|].
  change (Legacy.quitRun q (ev :: evs)) with (Legacy.quitRun (Legacy.quitStep q ev) evs).
  replace (Legacy.quitStep q ev) with q; [exact IH|].
  unfold Legacy.quitStep.
  destruct (Legacy.q_phase q) as [[remaining| |e]| | |] eqn:Hq; try reflexivity.
  - exfalso. eapply Hp. reflexivity.
  - congruence.
Qed.

Lemma legacy_quitRun_exited evs : forall q,
  Legacy.q_phase (Legacy.quitRun q evs) = Legacy.exited ->
  Legacy.q_phase q = Legacy.exited \/ Legacy.q_phase q = Legacy.lingering \/
  exists remaining, Legacy.q_phase q = Legacy.closing (allPending remaining) /\
    forall i, In i remaining -> In (Legacy.closeSettles i (Js.resolved tt)) evs.
Proof.
  induction evs as [|ev evs IH]; intros q Hex; [left; exact Hex|].
  change (Legacy.quitRun q (ev :: evs)) with (Legacy.quitRun (Legacy.quitStep q ev) evs) in Hex.
  specialize (IH _ Hex). unfold Legacy.quitStep in IH.
  destruct (Legacy.q_phase q) as [[remaining| |e]| | |] eqn:Hq;
    try (destruct IH as [H|[H|(r & H & _)]]; congruence); auto.
  destruct ev as [i res|].
  - simpl in IH. destruct (existsb (Nat.eqb i) remaining) eqn:Hin.
    + destruct res as [[]|e].
      * unfold promiseAll in IH.
        destruct (without i remaining) as [|j rest] eqn:Hw; simpl in IH.
        -- right. right. exists remaining. split; [reflexivity|]. intros k Hk.
           destruct (decide (i = k)) as [->|Hne]; [left; reflexivity|].
           assert (In k (without i remaining)) by (apply without_In; auto).
           rewrite Hw in H. destruct H.
        -- destruct IH as [H|[H|(r & Hr & Hall)]]; try discriminate.
           right. right. exists remaining. split; [reflexivity|]. intros k Hk.
           destruct (decide (i = k)) as [->|Hne]; [left; reflexivity|].
           right. apply Hall. inversion Hr; subst. rewrite <- Hw. apply without_In. auto.
      * simpl in IH. destruct IH as [H|[H|(r & Hr & _)]]; discriminate.
    + simpl in IH. destruct IH as [H|[H|(r & Hr & Hall)]]; try discriminate.
      right. right. exists remaining. split; [reflexivity|]. inversion Hr; subst.
      intros k Hk. right. apply Hall. exact Hk.
  - rewrite Hq in IH. destruct IH as [H|[H|(r & Hr & Hall)]]; try discriminate.
    right. right. exists remaining. split; [reflexivity|]. inversion Hr; subst.
    intros k Hk. right. apply Hall. exact Hk.
Qed.

Lemma legacy_quitRun_all_resolved evs : forall q remaining,
  Legacy.q_phase q = Legacy.closing (allPending remaining) -> remaining <> [] ->
  (forall i r, In (Legacy.closeSettles i r) evs -> r = Js.resolved tt) ->
  (forall i, In i remaining -> In (Legacy.closeSettles i (Js.resolved tt)) evs) ->
  Legacy.q_phase (Legacy.quitRun q (evs ++ [Legacy.timerElapsed])) = Legacy.exited.
Proof.
  induction evs as [|ev evs IH]; intros q remaining Ha Hne Hres Hall.
  - destruct remaining as [|i r]; [congruence|]. destruct (Hall i (or_introl eq_refl)).
  - change (Legacy.quitRun q ((ev :: evs) ++ [Legacy.timerElapsed]))
      with (Legacy.quitRun (Legacy.quitStep q ev) (evs ++ [Legacy.timerElapsed])).
    assert (Hres' : forall i r, In (Legacy.closeSettles i r) evs -> r = Js.resolved tt)
      by (intros; eapply Hres; right; eassumption).
    destruct ev as [i res|].
    + pose proof (Hres i res (or_introl eq_refl)) as ->.
      unfold Legacy.quitStep. rewrite Ha. simpl.
      destruct (existsb (Nat.eqb i) remaining) eqn:Hin.
      * unfold promiseAll. destruct (without i remaining) as [|j rest] eqn:Hw; simpl.
        -- assert (Hfin : forall q', Legacy.q_phase q' = Legacy.lingering \/
                                      Legacy.q_phase q' = Legacy.exited ->
                     Legacy.q_phase (Legacy.quitRun q' (evs ++ [Legacy.timerElapsed]))
                     = Legacy.exited).
           { clear. induction evs as [|ev evs IH]; intros q' Hq'.
             - simpl. unfold Legacy.quitRun. simpl. unfold Legacy.quitStep.
               destruct Hq' as [Hq'|Hq']; rewrite Hq'; simpl; [reflexivity|exact Hq'].
             - change (Legacy.quitRun q' ((ev :: evs) ++ [Legacy.timerElapsed]))
                 with (Legacy.quitRun (Legacy.quitStep q' ev) (evs ++ [Legacy.timerElapsed])).
               apply IH. unfold Legacy.quitStep.
               destruct Hq' as [Hq'|Hq']; rewrite Hq'; destruct ev; simpl; auto. }
           apply Hfin. destruct (Legacy.q_hadOpenTrades q); simpl; auto.
        -- apply (IH _ (j :: rest)); [reflexivity|discriminate|exact Hres'|].
           intros k Hk. rewrite <- Hw in Hk. apply without_In in Hk as [Hk Hik].
           destruct (Hall k Hk) as [Heq|H]; [inversion Heq; congruence|exact H].
      * apply (IH _ remaining); [reflexivity|exact Hne|exact Hres'|].
        intros k Hk. destruct (Hall k Hk) as [Heq|H]; [|exact H].
        inversion Heq; subst. apply existsb_eqb_In in Hk. congruence.
    + unfold Legacy.quitStep. rewrite Ha.
      apply (IH _ remaining); [exact Ha|exact Hne|exact Hres'|].
      intros k Hk. destruct (Hall k Hk) as [Heq|H]; [discriminate|exact H].
Qed.

(** C8: [y] on the quit screen calls [close('expire')] on every trade
    that is open, and on no other, and reaches [process.exit()] only
    once every one of these calls has resolved: while one of them is
    pending, or after one of them has rejected (the error is then
    logged), the process has not exited; once all have resolved it
    exits (in the older version, after its two-second timer). *)
Theorem shutdown_waits_for_closures (b : Bot.t) (old : Legacy.t) :
  Bot.currentMode b = Some "q" ->
  Legacy.quitting old = true ->
  (exists q, Bot.pressY b = inr q /\
     (forall i reason, In (i, reason) (Bot.q_closes q) <->
        reason = "expire" /\
        exists trade, Bot.trades b !! i = Some trade /\ Trade.isOpen trade = true) /\
     (forall ss, Bot.q_exited (Bot.quitRun q ss) = true ->
        forall i reason, In (i, reason) (Bot.q_closes q) -> In (i, Js.resolved tt) ss) /\
     (forall ss e, Bot.q_awaited (Bot.quitRun q ss) = allRejected e ->
        Bot.q_exited (Bot.quitRun q ss) = false /\
        In (logError e) (Bot.logs (Bot.q_bot (Bot.quitRun q ss)))) /\
     (forall ss, (forall s, In s ss -> snd s = Js.resolved tt) ->
        (forall i reason, In (i, reason) (Bot.q_closes q) -> In (i, Js.resolved tt) ss) ->
        Bot.q_exited (Bot.quitRun q ss) = true)) /\
  (exists q, Legacy.pressY old = Some q /\
     (forall i reason, In (i, reason) (Legacy.q_closes q) <->
        reason = "expire" /\
        exists trade, Legacy.trades old !! i = Some trade /\ Trade.isOpen trade = true) /\
     (forall evs, Legacy.q_phase (Legacy.quitRun q evs) = Legacy.exited ->
        forall i reason, In (i, reason) (Legacy.q_closes q) ->
          In (Legacy.closeSettles i (Js.resolved tt)) evs) /\
     (forall evs, (forall i r, In (Legacy.closeSettles i r) evs -> r = Js.resolved tt) ->
        (forall i reason, In (i, reason) (Legacy.q_closes q) ->
           In (Legacy.closeSettles i (Js.resolved tt)) evs) ->
        Legacy.q_phase (Legacy.quitRun q (evs ++ [Legacy.timerElapsed])) = Legacy.exited)).
Proof.
  intros Hmode Hquit. split.
  - unfold Bot.pressY. rewrite Hmode. simpl.
    set (b' := Bot.log b (logMessage "info" "Exiting…")).
    assert (Hids : map fst (Bot.closeTrades b') = openFrom 0 (Bot.trades b)).
    { unfold Bot.closeTrades. rewrite map_map. simpl. apply map_id. }
    rewrite Hids.
    assert (Hcl : forall i reason, In (i, reason) (Bot.closeTrades b') -> In i (openFrom 0 (Bot.trades b))).
    { intros i reason H. rewrite <- Hids. apply in_map_iff. exists (i, reason). auto. }
    eexists. split; [reflexivity|].
    destruct (openFrom 0 (Bot.trades b)) as [|j rest] eqn:Hopen; simpl.
    + split; [|split; [|split]].
      * intros i reason. unfold Bot.closeTrades. simpl. rewrite closes_In. reflexivity.
      * intros ss _ i reason Hin. destruct (Hcl i reason Hin).
      * intros ss e. rewrite quitRun_settled; [discriminate|simpl; discriminate].
      * intros ss _ _. rewrite quitRun_settled; [reflexivity|simpl; discriminate].
    + split; [|split; [|split]].
      * intros i reason. unfold Bot.closeTrades. simpl. rewrite closes_In. reflexivity.
      * intros ss Hex i reason Hin.
        apply quitRun_exited in Hex as [H|(r & Hr & Hall)]; [discriminate|].
        simpl in Hr. inversion Hr; subst. apply Hall. apply (Hcl i reason Hin).
      * intros ss. apply quitRun_rejected. simpl. discriminate.
      * intros ss Hres Hall.
        rewrite (quitRun_all_resolved ss _ (j :: rest));
          [reflexivity|reflexivity|discriminate|exact Hres|].
        intros i Hi. apply (Hall i "expire"). simpl.
        unfold Bot.closeTrades. simpl. rewrite Hopen.
        apply (in_map (fun i => (i, "expire"))) in Hi. exact Hi.
  - unfold Legacy.pressY. rewrite Hquit.
    assert (Hids : map fst (Legacy.closeTrades old) = openFrom 0 (Legacy.trades old)).
    { unfold Legacy.closeTrades. rewrite map_map. simpl. apply map_id. }
    rewrite Hids.
    assert (Hcl : forall i reason, In (i, reason) (Legacy.closeTrades old) ->
                                   In i (openFrom 0 (Legacy.trades old))).
    { intros i reason H. rewrite <- Hids. apply in_map_iff. exists (i, reason). auto. }
    eexists. split; [reflexivity|].
    destruct (openFrom 0 (Legacy.trades old)) as [|j rest] eqn:Hopen; simpl.
    + split; [|split].
      * intros i reason. unfold Legacy.closeTrades. rewrite closes_In. reflexivity.
      * intros evs _ i reason Hin. destruct (Hcl i reason Hin).
      * intros evs _ _. rewrite legacy_quitRun_stuck; simpl; [reflexivity| |]; discriminate.
    + split; [|split].
      * intros i reason. unfold Legacy.closeTrades. rewrite closes_In. reflexivity.
      * intros evs Hex i reason Hin.
        apply legacy_quitRun_exited in Hex as [H|[H|(r & Hr & Hall)]]; try discriminate.
        simpl in Hr. inversion Hr; subst. apply Hall. apply (Hcl i reason Hin).
      * intros evs Hres Hall.
        apply (legacy_quitRun_all_resolved evs _ (j :: rest));
          [reflexivity|discriminate|exact Hres|].
        intros i Hi. apply (Hall i "expire").
        unfold Legacy.closeTrades. rewrite Hopen.
        apply (in_map (fun i => (i, "expire"))) in Hi. exact Hi.
Qed.

Lemma shutdown_waits_for_closures_witness :
  Bot.currentMode Example.quittingBot = Some "q" /\
  Legacy.quitting Example.oldQuittingBot = true /\
  exists q, Bot.pressY Example.quittingBot = inr q /\
    Bot.q_closes q = [(0%nat, "expire"); (1%nat, "expire")] /\
    Bot.q_exited (Bot.quitRun q [(1%nat, Js.resolved tt)]) = false /\
    Bot.q_exited (Bot.quitRun q [(1%nat, Js.resolved tt); (0%nat, Js.resolved tt)]) = true.
Proof.
  split; [reflexivity|]. split; [reflexivity|].
  destruct (shutdown_waits_for_closures Example.quittingBot Example.oldQuittingBot
              eq_refl eq_refl) as [(q & Hq & _ & _ & _ & Hlive) _].
  exists q. split; [exact Hq|].
  vm_compute in Hq. injection Hq as <-.
  split; [reflexivity|]. split; [reflexivity|].
  apply Hlive.
  - intros s [<-|[<-|[]]]; reflexivity.
  - intros i reason [H|[H|[]]]; inversion H; subst; simpl; auto.
Defined.

(** ** Pausing *)

Lemma pressP_invariant c : pauseInvariant c -> pauseInvariant (Bot.pressP c).
Proof.
  unfold pauseInvariant, Bot.pressP.
  destruct (Bot.paused (Bot.c_bot c)) eqn:Hp; simpl.
  - intros (i & due & Hu & Ht). rewrite Hu. simpl. rewrite Ht.
    unfold Bot.cancelTimer. simpl. rewrite Nat.eqb_refl. reflexivity.
  - intros Ht. rewrite Ht. simpl. eauto.
Qed.

Lemma timerFires_invariant c i c' :
  pauseInvariant c -> Bot.timerFires c i = Some c' ->
  Bot.paused (Bot.c_bot c) = true /\ Bot.paused (Bot.c_bot c') = false /\
  Bot.c_timers c' = [] /\ Bot.trades (Bot.c_bot c') = Bot.trades (Bot.c_bot c).
Proof.
  unfold pauseInvariant, Bot.timerFires.
  destruct (Bot.paused (Bot.c_bot c)) eqn:Hp.
  - intros (j & due & Hu & Ht). rewrite Ht. simpl.
    destruct (Nat.eqb j i) eqn:Hji; [|discriminate].
    destruct (due <=? Bot.c_now c)%N; [|discriminate].
    intros H. inversion H; subst; clear H. simpl. auto.
  - intros Ht. rewrite Ht. simpl. discriminate.
Qed.

Lemma consoleStep_invariant c ev c' :
  pauseInvariant c -> Bot.consoleStep c ev = Some c' ->
  pauseInvariant c' /\ Bot.trades (Bot.c_bot c') = Bot.trades (Bot.c_bot c).
Proof.
  intros Hinv Hstep. destruct ev; simpl in Hstep.
  - inversion Hstep; subst. split; [apply pressP_invariant; assumption|].
    unfold Bot.pressP. destruct (negb _); simpl; [reflexivity|].
    destruct (Bot.unpause _); reflexivity.
  - destruct (timerFires_invariant _ _ _ Hinv Hstep) as (_ & Hp & Ht & Htr).
    split; [|exact Htr]. unfold pauseInvariant. rewrite Hp. exact Ht.
  - inversion Hstep; subst. split; [exact Hinv|reflexivity].
Qed.

Lemma consoleRun_invariant evs : forall c c',
  pauseInvariant c -> Bot.consoleRun c evs = Some c' ->
  pauseInvariant c' /\ Bot.trades (Bot.c_bot c') = Bot.trades (Bot.c_bot c).
Proof.
  induction evs as [|ev evs IH]; simpl; intros c c' Hinv Hrun.
  - inversion Hrun; subst. auto.
  - destruct (Bot.consoleStep c ev) as [c1|] eqn:Hstep; [|discriminate].
    destruct (consoleStep_invariant _ _ _ Hinv Hstep) as [Hinv1 Htr1].
    destruct (IH _ _ Hinv1 Hrun) as [Hinv' Htr']. split; [assumption|congruence].
Qed.

Lemma resumeJob_ignores_paused b p u job pending r :
  Bot.resumeJob (Bot.with_paused b p u) job pending r =
  option_map (fun x => (Bot.with_paused (fst x) p u, snd x)) (Bot.resumeJob b job pending r).
Proof.
  destruct pending as [i reason|a info isLong|o], r as [[[]|e]|[q|e]|[filled|e]];
    simpl; try reflexivity.
  - destruct ((0 <? q)%float && _); reflexivity.
  - destruct (Trade.initialize o filled); reflexivity.
Qed.

Section Pausing.

Variable parseFloatOther : Js.Value -> float.

Local Abbreviation startJob := (Bot.startJob parseFloatOther).

Lemma startJob_ignores_paused b p u job :
  startJob (Bot.with_paused b p u) job = startJob b job.
Proof. reflexivity. Qed.

(** C10: after any sequence of [p] key presses, timer expiries and
    waiting, starting from a bot that is not paused: while [paused] is
    set, [analyzeChart] calls no advisor and emits no notification; the
    trade list is the one the bot had, and jobs and [closeTrades] read
    nothing of the flag; exactly one timer is armed, and when it fires
    the flag is cleared, and pressing [p] again clears the flag and
    disarms the timer; while [paused] is not set no timer is armed, and
    pressing [p] sets the flag and arms one timer due 24 hours later,
    which can fire once that time has passed and not before. *)
Theorem paused_engine_ignores_candles (b : Bot.t) (evs : list Bot.ConsoleEvent)
    (c : Bot.Console) :
  Bot.paused b = false ->
  Bot.consoleRun (Bot.initialConsole b) evs = Some c ->
  (Bot.paused (Bot.c_bot c) = true ->
     forall chartId candles isFinal,
       Bot.analyzeChart (Bot.c_bot c) chartId candles isFinal = []) /\
  Bot.trades (Bot.c_bot c) = Bot.trades b /\
  (forall p u job,
     startJob (Bot.with_paused (Bot.c_bot c) p u) job = startJob (Bot.c_bot c) job /\
     Bot.closeTrades (Bot.with_paused (Bot.c_bot c) p u) = Bot.closeTrades (Bot.c_bot c) /\
     forall pending r,
       Bot.resumeJob (Bot.with_paused (Bot.c_bot c) p u) job pending r =
       option_map (fun x => (Bot.with_paused (fst x) p u, snd x))
                  (Bot.resumeJob (Bot.c_bot c) job pending r)) /\
  (Bot.paused (Bot.c_bot c) = true ->
     exists i due,
       Bot.unpause (Bot.c_bot c) = Some i /\ Bot.c_timers c = [(i, due)] /\
       (forall c', Bot.timerFires c i = Some c' ->
          Bot.paused (Bot.c_bot c') = false /\ Bot.c_timers c' = []) /\
       Bot.paused (Bot.c_bot (Bot.pressP c)) = false /\
       Bot.c_timers (Bot.pressP c) = []) /\
  (Bot.paused (Bot.c_bot c) = false ->
     Bot.c_timers c = [] /\
     Bot.paused (Bot.c_bot (Bot.pressP c)) = true /\
     Bot.c_timers (Bot.pressP c) = [(Bot.c_nextTimer c, (Bot.c_now c + 86400000)%N)] /\
     (forall ms, (86400000 <= ms)%N ->
        exists c', Bot.consoleRun (Bot.pressP c) [Bot.wait ms; Bot.timeout (Bot.c_nextTimer c)]
                   = Some c' /\
                   Bot.paused (Bot.c_bot c') = false /\ Bot.c_timers c' = []) /\
     (forall ms, (ms < 86400000)%N ->
        Bot.consoleRun (Bot.pressP c) [Bot.wait ms; Bot.timeout (Bot.c_nextTimer c)] = None)).
Proof.
  intros Hb Hrun.
  assert (Hinit : pauseInvariant (Bot.initialConsole b)).
  { unfold pauseInvariant. simpl. rewrite Hb. reflexivity. }
  destruct (consoleRun_invariant evs _ _ Hinit Hrun) as [Hinv Htr].
  split; [|split; [exact Htr|split; [|split]]].
  - intros Hp chartId candles isFinal. unfold Bot.analyzeChart. rewrite Hp. reflexivity.
  - intros p u job. split; [reflexivity|]. split; [reflexivity|].
    intros pending r. apply resumeJob_ignores_paused.
  - intros Hp. unfold pauseInvariant in Hinv. rewrite Hp in Hinv.
    destruct Hinv as (i & due & Hu & Ht). exists i, due.
    split; [exact Hu|]. split; [exact Ht|]. split.
    + intros c' Hfire.
      assert (Hinv : pauseInvariant c).
      { unfold pauseInvariant. rewrite Hp. eauto. }
      destruct (timerFires_invariant _ _ _ Hinv Hfire) as (_ & H1 & H2 & _). auto.
    + unfold Bot.pressP. rewrite Hp. simpl. rewrite Hu. simpl. rewrite Ht.
      unfold Bot.cancelTimer. simpl. rewrite Nat.eqb_refl. auto.
  - intros Hp. unfold pauseInvariant in Hinv. rewrite Hp in Hinv.
    split; [exact Hinv|].
    unfold Bot.pressP. rewrite Hp. simpl. rewrite Hinv. simpl.
    split; [reflexivity|]. split; [reflexivity|]. split.
    + intros ms Hms. unfold Bot.timerFires. simpl. rewrite Nat.eqb_refl.
      assert (Hdue : (Bot.c_now c + Bot.pauseTimeout <=? Bot.c_now c + ms)%N = true).
      { apply N.leb_le. unfold Bot.pauseTimeout. lia. }
      rewrite Hdue. eexists. split; [reflexivity|]. simpl. auto.
    + intros ms Hms. unfold Bot.timerFires. simpl. rewrite Nat.eqb_refl.
      assert (Hdue : (Bot.c_now c + Bot.pauseTimeout <=? Bot.c_now c + ms)%N = false).
      { apply N.leb_gt. unfold Bot.pauseTimeout. lia. }
      rewrite Hdue. reflexivity.
Qed.

End Pausing.

Lemma paused_engine_ignores_candles_witness :
  Bot.paused Example.bot1 = false /\
  match Bot.consoleRun (Bot.initialConsole Example.bot1) [Bot.keyP; Bot.wait 5000] with
  | Some c =>
      Bot.paused (Bot.c_bot c) = true /\
      Bot.analyzeChart (Bot.c_bot c) "c1" [] true = [] /\
      Bot.trades (Bot.c_bot c) = [Example.long1]
  | None => False
  end.
Proof.
  split; [reflexivity|].
  destruct (Bot.consoleRun (Bot.initialConsole Example.bot1) [Bot.keyP; Bot.wait 5000])
    as [c|] eqn:Hrun; [|vm_compute in Hrun; discriminate].
  destruct (paused_engine_ignores_candles Example.noStrings Example.bot1 _ c eq_refl Hrun)
    as (Hquiet & Htrades & _).
  assert (Hp : Bot.paused (Bot.c_bot c) = true).
  { vm_compute in Hrun. injection Hrun as <-. reflexivity. }
  split; [exact Hp|]. split; [apply Hquiet; exact Hp|exact Htrades].
Defined.

(** ** Candle finality *)

Lemma locked_defined (b : Bot.t) asset :
  chartsKnown b -> is_Some (Bot.quantityLockedByTrades b asset).
Proof.
  intros Hk. destruct (sellingBack_defined b asset Hk) as [HL HS].
  unfold Bot.quantityLockedByTrades, Bot.longsSellingBackAsset, Bot.shortsSellingBackAsset.
  destruct (filterThrowing_defined _ _ HL) as [longs ->].
  destruct (filterThrowing_defined _ _ HS) as [shorts ->]. eauto.
Qed.

Lemma getAdvisor_In l advisorId advisor :
  Bot.getAdvisor l advisorId = Some advisor -> In (advisorId, advisor) l.
Proof.
  induction l as [|[k a] l IH]; simpl; [discriminate|].
  destruct (String.eqb_spec k advisorId) as [->|Hne].
  - intros H. inversion H; subst. left. reflexivity.
  - intros H. right. apply IH. exact H.
Qed.

Lemma legacy_resumeAll_unsettled b c answers :
  Legacy.resumeAll b c Legacy.unsettled answers = Some (b, Legacy.unsettled).
Proof. destruct answers; reflexivity. Qed.

Lemma legacy_gate (old : Legacy.t) (d : Legacy.Digest) answers :
  Legacy.signal (Legacy.advice d) = "LONG" \/ Legacy.signal (Legacy.advice d) = "SHORT" ->
  Legacy.isFinal d = false ->
  Legacy.startDigest old d = Legacy.unsettled /\
  Legacy.digestAdvice old d answers = Some (old, Legacy.unsettled).
Proof.
  intros Hsig Hfinal. unfold Legacy.startDigest, Legacy.digestAdvice.
  destruct (Legacy.bind old d) as [c|] eqn:Hbind; [|auto].
  assert (Hstart : Legacy.startBound old c = Legacy.unsettled).
  { unfold Legacy.bind in Hbind.
    destruct (Legacy.getAdvisor _ _); [|discriminate].
    destruct (Legacy.charts old !! _); [|discriminate].
    inversion Hbind; subst; clear Hbind.
    unfold Legacy.startBound. simpl. rewrite Hfinal.
    destruct Hsig as [-> | ->]; reflexivity. }
  rewrite Hstart. split; [reflexivity|apply legacy_resumeAll_unsettled].
Qed.

Section Finality.

Variable parseFloatOther : Js.Value -> float.

Local Abbreviation startJob := (Bot.startJob parseFloatOther).

(** C3 (as amended): in the older version [digestAdvice] sizes and
    opens a position for a LONG or SHORT signal only when the advice
    says the candle is final, and otherwise leaves the bot as it is.  In
    the current version [digestAdvice] is given no finality: whatever
    [isFinal] is, [analyzeChart] emits every advice the advisor's
    [analyze] returns, each of its signals gets a job, and a LONG or
    SHORT job is sized; discarding provisional signals is left to the
    advisor. *)
Theorem finality_gate (old : Legacy.t) (d : Legacy.Digest) (answers : list Legacy.Response)
    (b : Bot.t) (chartId : string) (candles : Candles) (isFinal : bool)
    (advisorId : string) (advisor : Bot.Advisor.t) (chart : Chart.t)
    (advices : list (option Bot.Advice)) (adv : Bot.Advice) :
  Legacy.signal (Legacy.advice d) = "LONG" \/ Legacy.signal (Legacy.advice d) = "SHORT" ->
  Bot.paused b = false ->
  chartsKnown b ->
  Bot.getAdvisor (Bot.advisors b) advisorId = Some advisor ->
  existsb (String.eqb chartId) (Bot.Advisor.chartIds advisor) = true ->
  Bot.charts b !! chartId = Some chart ->
  Bot.Advisor.analyze advisor candles (Chart.strategies chart) isFinal
    (Bot.Advisor.name advisor +:+ "→" +:+ Chart.name chart) = Js.resolved advices ->
  In (Some adv) advices ->
  ((Legacy.isFinal d = false ->
      Legacy.digestAdvice old d answers = Some (old, Legacy.unsettled)) /\
   (forall old' st, Legacy.digestAdvice old d answers = Some (old', st) ->
      Legacy.trades old' <> Legacy.trades old -> Legacy.isFinal d = true)) /\
  (let payload := {| Bot.advisorId := advisorId; Bot.chartId := chartId; Bot.advice := adv |} in
   In (Bot.emitted payload) (Bot.analyzeChart b chartId candles isFinal) /\
   forall n, exists jobs,
     Bot.digestAdvice b payload n = inr jobs /\
     map Bot.j_signal jobs = Bot.signals adv /\
     forall job, In job jobs ->
       Bot.j_signal job = "LONG" \/ Bot.j_signal job = "SHORT" ->
       exists a isLong,
         startJob b job = Bot.suspended (Bot.awaitClampQuantity a (Chart.info chart) isLong)).
Proof.
  intros Hsig Hp Hk Hadv Hsub Hchart Hanalyze Hin. split.
  - split.
    + intros Hfinal. apply legacy_gate; assumption.
    + intros old' st Hd Hne. destruct (Legacy.isFinal d) eqn:Hfinal; [reflexivity|].
      destruct (legacy_gate old d answers Hsig Hfinal) as [_ Hd'].
      rewrite Hd' in Hd. inversion Hd; subst. congruence.
  - intros payload. split.
    + unfold Bot.analyzeChart. rewrite Hp. simpl.
      apply in_concat. eexists. split.
      * apply in_map. apply getAdvisor_In. exact Hadv.
      * unfold Bot.analyzeFor. rewrite Hsub, Hchart, Hanalyze.
        right. apply in_map_iff. exists adv. split; [reflexivity|].
        apply list_elem_of_In. apply list_elem_of_omap. exists (Some adv).
        split; [apply list_elem_of_In; exact Hin|reflexivity].
    + intros n. unfold Bot.digestAdvice. subst payload. simpl.
      rewrite Hadv, Hchart. eexists. split; [reflexivity|].
      split; [rewrite map_map; simpl; apply map_id|].
      intros job Hjob Hls. apply in_map_iff in Hjob as (sig & <- & _). simpl in Hls.
      unfold Bot.startJob. simpl.
      assert (Hamount : forall isLong, is_Some (Bot.amount parseFloatOther b chart isLong
                                                  (Bot.strategy adv))).
      { intros isLong. unfold Bot.amount, Bot.availableFunds.
        destruct (locked_defined b (Bot.settlementAsset chart isLong) Hk) as [q ->]. eauto. }
      destruct Hls as [-> | ->]; simpl.
      * destruct (Hamount true) as [a ->]. eauto.
      * destruct (Hamount false) as [a ->]. eauto.
Qed.

End Finality.

Lemma chartsKnown_bot0 : chartsKnown Example.bot0.
Proof. intros trade []. Qed.

Lemma finality_gate_witness :
  (Legacy.signal (Legacy.advice Example.provisionalLong) = "LONG" \/
   Legacy.signal (Legacy.advice Example.provisionalLong) = "SHORT") /\
  Bot.paused Example.bot0 = false /\
  chartsKnown Example.bot0 /\
  Bot.getAdvisor (Bot.advisors Example.bot0) "example" = Some (Example.always "LONG") /\
  Legacy.digestAdvice Example.oldBot Example.provisionalLong []
    = Some (Example.oldBot, Legacy.unsettled) /\
  In (Bot.emitted Example.longPayload) (Bot.analyzeChart Example.bot0 "c1" [] false).
Proof.
  split; [left; reflexivity|]. split; [reflexivity|].
  split; [exact chartsKnown_bot0|]. split; [reflexivity|].
  destruct (finality_gate Example.noStrings Example.oldBot Example.provisionalLong []
              Example.bot0 "c1" [] false "example" (Example.always "LONG") Example.btcusdt
              [Some (Bot.advice Example.longPayload)] (Bot.advice Example.longPayload)
              (or_introl eq_refl) eq_refl chartsKnown_bot0 eq_refl eq_refl eq_refl eq_refl
              (or_introl eq_refl))
    as [[Hold _] [Hemit _]].
  split; [apply Hold; reflexivity|exact Hemit].
Defined.

(** C3 (as stated, refuted): the advisor of [bot0] answers a candle
    that is not final with LONG; [analyzeChart] emits the advice, and
    digesting it opens a position. *)
Lemma provisional_signal_opens_position :
  Bot.analyzeChart Example.bot0 "c1" [] false =
    [Bot.analysed "example" "Example→BTCUSDT 1m" false; Bot.emitted Example.longPayload] /\
  Example.openLong = Bot.notify Example.longPayload :: tl Example.openLong /\
  exists w,
    Bot.run Example.noStrings (Bot.initialWorld Example.bot0) Example.openLong = Some w /\
    Bot.trades (Bot.bot w) = [Example.long1] /\
    Trade.isOpen Example.long1 = true.
Proof.
  split; [reflexivity|]. split; [reflexivity|].
  eexists. split; [vm_compute; reflexivity|]. split; reflexivity.
Qed.

(** ** Start-up *)









Lemma announce_logs b :
  Bot.advisors (Bot.announce b) = Bot.advisors b /\
  exists more, Bot.logs (Bot.announce b) = Bot.logs b ++ more.
Proof.
  unfold Bot.announce. simpl. destruct (Bot.advisors b) eqn:Ha; simpl;
    (split; [assumption|]); rewrite <- app_assoc; eauto.
Qed.

Lemma announceMode_logs b options :
  Bot.advisors (Bot.announceMode b options) = Bot.advisors b /\
  exists more, Bot.logs (Bot.announceMode b options) = Bot.logs b ++ more.
Proof.
  unfold Bot.announceMode. destruct (Bot.advisors b) eqn:Ha.
  - split; [assumption|]. exists []. rewrite app_nil_r. reflexivity.
  - destruct (Js.truthy _); simpl; (split; [assumption|]); eauto.
Qed.

Lemma initialize_with_provider h b options fields c s b1 :
  Js.getField fields "provider" = Js.str (String c s) ->
  Bot.addProvider h b (String c s) = inr b1 ->
  Bot.initialize h b options (Js.object fields)
  = let (b3, passed) := advisorsAdded h b1 (Js.getField fields "advisors") in
    if passed then
      match Js.get options "console" with
      | inl e => Bot.fatal b3 e
      | inr console =>
          Bot.runs (Bot.announceMode
                      (if negb (Js.truthy console) then Bot.announce b3 else b3) options)
      end
    else Bot.hangs b3.
Proof.
  intros Hprov Hadd. unfold Bot.initialize, advisorsAdded. simpl. rewrite Hprov, Hadd.
  destruct (Js.getField fields "advisors"); reflexivity.
Qed.





(** ** The older version, where it differs *)

(** In the older version nothing serializes digestions: when two calls
    of [digestAdvice] for the same advisor and chart overlap, each passes
    the check for an open trade before the other has registered its
    trade, and both register one. *)
Lemma legacy_overlapping_digestions_open_two :
  Legacy.bind Example.oldBot Example.finalLong = Some Example.finalBound /\
  exists a o1 o2 b1 b2,
    (* both calls start and reach clampQuantity *)
    Legacy.startDigest Example.oldBot Example.finalLong
      = Legacy.suspended (Legacy.awaitClampQuantity a (Chart.info Example.btcusdt) true) /\
    (* both clamps return while no trade is registered: both checks pass *)
    Legacy.resumeDigest Example.oldBot Example.finalBound
      (Legacy.awaitClampQuantity a (Chart.info Example.btcusdt) true)
      (Legacy.clampSettled (Js.resolved 100%float))
      = Some (Example.oldBot, Legacy.suspended (Legacy.awaitTradeInitialize o1)) /\
    Legacy.resumeDigest Example.oldBot Example.finalBound
      (Legacy.awaitClampQuantity a (Chart.info Example.btcusdt) true)
      (Legacy.clampSettled (Js.resolved 90%float))
      = Some (Example.oldBot, Legacy.suspended (Legacy.awaitTradeInitialize o2)) /\
    (* both trades are initialized and pushed *)
    Legacy.resumeDigest Example.oldBot Example.finalBound (Legacy.awaitTradeInitialize o1)
      (Legacy.initializeSettled (Js.resolved tt))
      = Some (b1, Legacy.finished (Js.resolved tt)) /\
    Legacy.resumeDigest b1 Example.finalBound (Legacy.awaitTradeInitialize o2)
      (Legacy.initializeSettled (Js.resolved tt))
      = Some (b2, Legacy.finished (Js.resolved tt)) /\
    openCount "example" "c1" (Legacy.trades b2) = 2%nat.
Proof.
  split; [reflexivity|].
  eexists _, _, _, _, _.
  split; [vm_compute; reflexivity|].
  split; [vm_compute; reflexivity|].
  split; [vm_compute; reflexivity|].
  split; [vm_compute; reflexivity|].
  split; [vm_compute; reflexivity|].
  reflexivity.
Qed.

(** In the older version a signal that is none of the four resolves at
    once: no error is raised or logged and the bot is left as it is. *)
Lemma legacy_unrecognized_signal_ignored (old : Legacy.t) (d : Legacy.Digest)
    (answers : list Legacy.Response) (c : Legacy.Bound) :
  Legacy.bind old d = Some c ->
  ~ recognized (Legacy.signal (Legacy.advice d)) ->
  Legacy.digestAdvice old d answers = Some (old, Legacy.finished (Js.resolved tt)).
Proof.
  intros Hbind Hnot. unfold Legacy.digestAdvice. rewrite Hbind.
  assert (Hstart : Legacy.startBound old c = Legacy.finished (Js.resolved tt)).
  { unfold Legacy.bind in Hbind.
    destruct (Legacy.getAdvisor _ _); [|discriminate].
    destruct (Legacy.charts old !! _); [|discriminate].
    inversion Hbind; subst; clear Hbind.
    unfold Legacy.startBound, recognized in *. simpl.
    destruct (String.eqb_spec (Legacy.signal (Legacy.advice d)) "CLOSE LONG"); [tauto|].
    destruct (String.eqb_spec (Legacy.signal (Legacy.advice d)) "CLOSE SHORT"); [tauto|].
    destruct (String.eqb_spec (Legacy.signal (Legacy.advice d)) "LONG"); [tauto|].
    destruct (String.eqb_spec (Legacy.signal (Legacy.advice d)) "SHORT"); [tauto|].
    reflexivity. }
  rewrite Hstart. destruct answers; reflexivity.
Qed.

Lemma legacy_unrecognized_signal_ignored_witness :
  ~ recognized (Legacy.signal (Legacy.advice Example.oldHold)) /\
  Legacy.digestAdvice Example.oldBot Example.oldHold []
    = Some (Example.oldBot, Legacy.finished (Js.resolved tt)).
Proof.
  assert (Hnot : ~ recognized (Legacy.signal (Legacy.advice Example.oldHold))).
  { intros [H|[H|[H|H]]]; discriminate. }
  split; [exact Hnot|].
  apply (legacy_unrecognized_signal_ignored Example.oldBot Example.oldHold []
           {| Legacy.b_digest := Example.oldHold; Legacy.b_advisor := Example.oldAdvisor;
              Legacy.b_chart := Example.btcusdt;
              Legacy.b_who := "Example->BTCUSDT 1m->vsa" |} eq_refl Hnot).
Defined.

(** In the older version, digestions that do not overlap (each
    [digestAdvice] call runs to its end before the next starts, and no
    trade changes in between) keep at most one open trade per advisor
    and chart. *)
Lemma legacy_sequential_digestion_keeps_one_open (old : Legacy.t) (d : Legacy.Digest)
    (answers : list Legacy.Response) (old' : Legacy.t) (st : Legacy.Step) :
  atMostOneOpen (Legacy.trades old) ->
  Legacy.digestAdvice old d answers = Some (old', st) ->
  atMostOneOpen (Legacy.trades old').
Proof.
  intros Hone Hd. unfold Legacy.digestAdvice in Hd.
  destruct (Legacy.bind old d) as [c|]; [|inversion Hd; subst; assumption].
  eapply legacy_resumeAll_invariant; [exact Hone| |exact Hd].
  intros o Hstart. exfalso. revert Hstart. unfold Legacy.startBound.
  repeat match goal with
         | |- context [if ?x then _ else _] => destruct x
         | |- context [match ?x with _ => _ end] => destruct x
         end; discriminate.
Qed.

Lemma legacy_sequential_digestion_keeps_one_open_witness :
  atMostOneOpen (Legacy.trades Example.oldBot) /\
  exists old' st,
    Legacy.digestAdvice Example.oldBot Example.finalLong
      [Legacy.clampSettled (Js.resolved 100%float);
       Legacy.initializeSettled (Js.resolved tt)] = Some (old', st) /\
    length (Legacy.trades old') = 1%nat /\
    atMostOneOpen (Legacy.trades old').
Proof.
  split; [apply atMostOneOpen_nil|].
  eexists _, _. split; [vm_compute; reflexivity|]. split; [reflexivity|].
  eapply (legacy_sequential_digestion_keeps_one_open Example.oldBot Example.finalLong
            [Legacy.clampSettled (Js.resolved 100%float);
             Legacy.initializeSettled (Js.resolved tt)]).
  - apply atMostOneOpen_nil.
  - vm_compute. reflexivity.
Defined.

(** ** From a candle to the digestion jobs *)

Lemma getAdvisor_found l advisorId advisor :
  In (advisorId, advisor) l -> is_Some (Bot.getAdvisor l advisorId).
Proof.
  induction l as [|[k a] l IH]; simpl; [tauto|].
  intros [H|H].
  - inversion H; subst. rewrite String.eqb_refl. eauto.
  - destruct (String.eqb k advisorId); eauto.
Qed.

Lemma analyzeFor_emitted b chartId candles isFinal entry p :
  In (Bot.emitted p) (Bot.analyzeFor b chartId candles isFinal entry) ->
  Bot.advisorId p = fst entry /\ Bot.chartId p = chartId /\
  existsb (String.eqb chartId) (Bot.Advisor.chartIds (snd entry)) = true /\
  exists chart advices,
    Bot.charts b !! chartId = Some chart /\
    Bot.Advisor.analyze (snd entry) candles (Chart.strategies chart) isFinal
      (Bot.Advisor.name (snd entry) +:+ "→" +:+ Chart.name chart) = Js.resolved advices /\
    In (Some (Bot.advice p)) advices.
Proof.
  destruct entry as [advisorId advisor]. unfold Bot.analyzeFor.
  destruct (existsb _ _) eqn:Hsub; [|simpl; tauto].
  destruct (Bot.charts b !! chartId) as [chart|] eqn:Hchart.
  - simpl. intros [H|H]; [discriminate|].
    destruct (Bot.Advisor.analyze _ _ _ _ _) as [advices|e] eqn:Han.
    + apply in_map_iff in H as (a & Ha & Hin). inversion Ha; subst; clear Ha. simpl.
      repeat split; try reflexivity. exists chart, advices.
      repeat split; [exact Han|].
      apply list_elem_of_In, list_elem_of_omap in Hin as (x & Hx & Hid).
      destruct x as [a'|]; simpl in Hid; inversion Hid; subst.
      apply list_elem_of_In. exact Hx.
    + simpl in H. destruct H as [H|[]]. discriminate.
  - simpl. intros [H|[]]. discriminate.
Qed.

(** X4: an advice emitted by [analyzeChart] is always digestible.  It
    comes from an advisor that subscribes to the candle's chart, whose
    analysis resolved, while the bot is not paused; [digestAdvice] then
    finds the advisor and the chart (it cannot throw) and schedules one
    job per signal, in order, each for this advisor, chart and strategy
    and all in the same batch. *)
Theorem emitted_advice_is_digestible (b : Bot.t) chartId candles isFinal p n :
  In (Bot.emitted p) (Bot.analyzeChart b chartId candles isFinal) ->
  Bot.paused b = false /\
  Bot.chartId p = chartId /\
  (exists advisor chart advices,
     In (Bot.advisorId p, advisor) (Bot.advisors b) /\
     existsb (String.eqb chartId) (Bot.Advisor.chartIds advisor) = true /\
     Bot.charts b !! chartId = Some chart /\
     Bot.Advisor.analyze advisor candles (Chart.strategies chart) isFinal
       (Bot.Advisor.name advisor +:+ "→" +:+ Chart.name chart) = Js.resolved advices /\
     In (Some (Bot.advice p)) advices) /\
  exists jobs,
    Bot.digestAdvice b p n = inr jobs /\
    map Bot.j_signal jobs = Bot.signals (Bot.advice p) /\
    Forall (fun job =>
              Bot.j_advisorId job = Bot.advisorId p /\ Bot.j_chartId job = chartId /\
              Bot.j_strategy job = Bot.strategy (Bot.advice p) /\ Bot.j_batch job = n) jobs.
Proof.
  unfold Bot.analyzeChart. destruct (Bot.paused b) eqn:Hp; simpl; [tauto|].
  intros H. apply in_concat in H as (effects & Heff & Hin).
  apply in_map_iff in Heff as ([advisorId advisor] & <- & Hentry).
  apply analyzeFor_emitted in Hin as (Ha & Hc & Hsub & chart & advices & Hchart & Han & Hadv).
  simpl in Ha, Hsub, Han. subst advisorId.
  split; [reflexivity|]. split; [exact Hc|]. split.
  { exists advisor, chart, advices. auto. }
  destruct (getAdvisor_found _ _ _ Hentry) as [advisor' Hget].
  unfold Bot.digestAdvice. rewrite Hget, Hc, Hchart.
  eexists. split; [reflexivity|]. split.
  - rewrite map_map. simpl. apply map_id.
  - apply Forall_forall. intros job Hjob.
    apply list_elem_of_In, in_map_iff in Hjob as (signal & <- & _). simpl. auto.
Qed.

(** ** One log entry per notification *)

Lemma NoDup_below (l : list nat) n :
  NoDup l -> Forall (fun i => (i < n)%nat) l -> (length l <= n)%nat.
Proof.
  intros Hnd Hlt.
  assert (Hsub : l ⊆+ seq 0 n).
  { apply NoDup_submseteq; [exact Hnd|]. intros i Hi.
    rewrite Forall_forall in Hlt. specialize (Hlt i Hi).
    apply list_elem_of_In, in_seq. lia. }
  apply submseteq_length in Hsub. rewrite length_seq in Hsub. exact Hsub.
Qed.

Section Accounting.

Variable parseFloatOther : Js.Value -> float.

Local Abbreviation step := (Bot.step parseFloatOther).
Local Abbreviation run := (Bot.run parseFloatOther).

(** What one settled job adds to the log. *)
Lemma jobSettled_accounts w job r :
  batchInvariant w -> (Bot.j_batch job < Bot.nextBatch w)%nat ->
  batchInvariant (Bot.jobSettled w job r) /\
  Bot.nextBatch (Bot.jobSettled w job r) = Bot.nextBatch w /\
  Bot.queue (Bot.jobSettled w job r) = Bot.queue w /\
  Bot.running (Bot.jobSettled w job r) = Bot.running w /\
  (length (Bot.logs (Bot.bot (Bot.jobSettled w job r))) + length (Bot.rejectedBatches w)
   = length (Bot.logs (Bot.bot w)) + length (Bot.rejectedBatches (Bot.jobSettled w job r)))%nat /\
  (length (Bot.rejectedBatches w) <= length (Bot.rejectedBatches (Bot.jobSettled w job r)))%nat.
Proof.
  intros (Hnd & Hlt & Hq & Hr) Hjob. unfold Bot.jobSettled.
  destruct r as [u|e]; [repeat split; try assumption; lia|].
  destruct (existsb _ _) eqn:Hseen; [repeat split; try assumption; lia|].
  unfold batchInvariant. simpl. repeat split; try assumption.
  - constructor; [|exact Hnd]. intros Hin.
    apply list_elem_of_In, existsb_eqb_In in Hin. congruence.
  - constructor; assumption.
  - rewrite length_app. simpl. lia.
  - lia.
Qed.

Lemma step_accounts w ev w' :
  batchInvariant w -> step w ev = Some w' ->
  batchInvariant w' /\
  (length (Bot.logs (Bot.bot w')) + length (Bot.rejectedBatches w) + Bot.nextBatch w'
   <= length (Bot.logs (Bot.bot w)) + length (Bot.rejectedBatches w') + Bot.nextBatch w
      + notifications [ev] + logCalls [ev])%nat /\
  (length (Bot.logs (Bot.bot w)) + logCalls [ev] <= length (Bot.logs (Bot.bot w')))%nat.
Proof.
  intros Hinv Hstep. pose proof Hinv as (Hnd & Hlt & Hq & Hr).
  unfold notifications, logCalls.
  destruct ev; simpl in Hstep.
  - inversion Hstep; subst. split; [exact Hinv|]. simpl. lia.
  - destruct (Bot.digestAdvice (Bot.bot w) p (Bot.nextBatch w)) as [e|jobs] eqn:Hd;
      inversion Hstep; subst; clear Hstep.
    + split; [exact Hinv|]. simpl. rewrite length_app. simpl. lia.
    + split.
      * unfold batchInvariant. simpl. split; [exact Hnd|].
        split; [eapply Forall_impl; [exact Hlt|]; simpl; intros; lia|].
        split; [|eapply Forall_impl; [exact Hr|]; simpl; intros; lia].
        apply Forall_app. split; [eapply Forall_impl; [exact Hq|]; simpl; intros; lia|].
        unfold Bot.digestAdvice in Hd.
        destruct (Bot.getAdvisor _ _); [|discriminate].
        destruct (Bot.charts _ !! _); [|discriminate].
        inversion Hd; subst. apply Forall_forall. intros job Hjob.
        apply list_elem_of_In, in_map_iff in Hjob as (signal & <- & _). simpl. lia.
      * simpl. lia.
  - destruct (Bot.queue w) as [|job rest] eqn:Hqueue; [discriminate|].
    destruct ((length (Bot.running w) <? Bot.maxConcurrent)%nat && Bot.spacingElapsed w);
      [|discriminate].
    inversion Hq as [|? ? Hjob Hrest]; subst.
    set (w1 := {| Bot.bot := Bot.bot w; Bot.queue := rest; Bot.running := Bot.running w;
                  Bot.lastLaunch := Some (Bot.now w); Bot.now := Bot.now w;
                  Bot.nextBatch := Bot.nextBatch w;
                  Bot.rejectedBatches := Bot.rejectedBatches w;
                  Bot.scheduled := Bot.scheduled w;
                  Bot.launches := Bot.launches w ++ [(Bot.now w, job)];
                  Bot.submissions := Bot.submissions w |}) in *.
    assert (Hw1 : batchInvariant w1) by (unfold batchInvariant; simpl; auto).
    destruct (Bot.startJob parseFloatOther (Bot.bot w) job) as [r|pending];
      inversion Hstep; subst; clear Hstep.
    + destruct (jobSettled_accounts w1 job r Hw1 Hjob)
        as (Hinv' & Hn & _ & _ & Hlogs & Hrej).
      split; [exact Hinv'|]. rewrite Hn. simpl in Hlogs, Hrej. simpl. lia.
    + split.
      * unfold batchInvariant. simpl. repeat split; try assumption.
        apply Forall_app. split; [exact Hr|]. constructor; [exact Hjob|constructor].
      * simpl. lia.
  - destruct (Bot.running w !! k) as [[job pending]|] eqn:Hk; [|discriminate].
    assert (Hjob : (Bot.j_batch job < Bot.nextBatch w)%nat).
    { rewrite Forall_forall in Hr. apply (Hr (job, pending)).
      apply list_elem_of_lookup. eauto. }
    destruct (Bot.resumeJob (Bot.bot w) job pending r) as [[b' st]|] eqn:Hres; [|discriminate].
    assert (Hlogs : Bot.logs b' = Bot.logs (Bot.bot w)).
    { destruct pending, r as [r|r|r]; simpl in Hres; try discriminate.
      - destruct r; inversion Hres; reflexivity.
      - destruct r as [quantity|e]; [|inversion Hres; reflexivity].
        destruct (_ && _); inversion Hres; reflexivity.
      - destruct r as [entryFilled|e]; [|inversion Hres; reflexivity].
        destruct (Trade.initialize o entryFilled); inversion Hres; reflexivity. }
    destruct st as [res|pending']; inversion Hstep; subst; clear Hstep.
    + set (w1 := Bot.with_running (Bot.with_bot w b') (delete k (Bot.running w))).
      assert (Hw1 : batchInvariant w1).
      { unfold batchInvariant, w1. simpl. repeat split; try assumption.
        apply Forall_delete. exact Hr. }
      destruct (jobSettled_accounts w1 job res Hw1 Hjob)
        as (Hinv' & Hn & _ & _ & Hl & Hrej).
      split; [exact Hinv'|]. rewrite Hn. unfold w1 in Hl, Hrej. simpl in Hl, Hrej.
      rewrite Hlogs in Hl. unfold w1. simpl. lia.
    + split.
      * unfold batchInvariant. simpl. repeat split; try assumption.
        apply Forall_insert; [exact Hr|exact Hjob].
      * simpl. rewrite Hlogs. lia.
  - destruct (Bot.trades (Bot.bot w) !! i); inversion Hstep; subst.
    split; [exact Hinv|]. simpl. lia.
  - inversion Hstep; subst. split; [exact Hinv|]. simpl. lia.
  - inversion Hstep; subst. split; [exact Hinv|]. simpl. lia.
  - inversion Hstep; subst. split; [exact Hinv|]. simpl. rewrite length_app. simpl. lia.
Qed.

End Accounting.

Section Ledger.

Variable parseFloatOther : Js.Value -> float.

Local Abbreviation step := (Bot.step parseFloatOther).
Local Abbreviation run := (Bot.run parseFloatOther).

Lemma notifications_cons ev evs :
  notifications (ev :: evs) = (notifications [ev] + notifications evs)%nat.
Proof.
  unfold notifications. simpl. destruct ev; reflexivity.
Qed.

Lemma logCalls_cons ev evs :
  logCalls (ev :: evs) = (logCalls [ev] + logCalls evs)%nat.
Proof.
  unfold logCalls. simpl. destruct ev; reflexivity.
Qed.

Lemma run_accounts evs : forall w w',
  batchInvariant w -> run w evs = Some w' ->
  batchInvariant w' /\
  (length (Bot.logs (Bot.bot w')) + length (Bot.rejectedBatches w) + Bot.nextBatch w'
   <= length (Bot.logs (Bot.bot w)) + length (Bot.rejectedBatches w') + Bot.nextBatch w
      + notifications evs + logCalls evs)%nat /\
  (length (Bot.logs (Bot.bot w)) + logCalls evs <= length (Bot.logs (Bot.bot w')))%nat.
Proof.
  induction evs as [|ev evs IH]; simpl; intros w w' Hw Hrun.
  - inversion Hrun; subst. split; [exact Hw|]. unfold notifications, logCalls. simpl. lia.
  - destruct (step w ev) as [w1|] eqn:Hstep; [|discriminate].
    destruct (step_accounts parseFloatOther w ev w1 Hw Hstep) as (Hw1 & H1 & L1).
    destruct (IH w1 w' Hw1 Hrun) as (Hw' & H2 & L2).
    split; [exact Hw'|]. rewrite notifications_cons, logCalls_cons. lia.
Qed.

(** X5: what the digestion engine itself writes to the log.  Along
    every run the log only grows; each call of the [log] closure by a
    trade or a chart adds one entry, and beyond those the engine adds at
    most one entry per DIGEST_ADVICE notification, however many of its
    signals are rejected.  Launches, settlements, orders, the flag of a
    closed trade and a new ledger add nothing by themselves. *)
Theorem one_log_entry_per_notification (b : Bot.t) (evs : list Bot.Event) (w : Bot.World) :
  run (Bot.initialWorld b) evs = Some w ->
  (length (Bot.logs b) + logCalls evs <= length (Bot.logs (Bot.bot w)))%nat /\
  (length (Bot.logs (Bot.bot w))
   <= length (Bot.logs b) + logCalls evs + notifications evs)%nat.
Proof.
  intros Hrun.
  destruct (run_accounts evs (Bot.initialWorld b) w) as ((Hnd & Hlt & _) & Hlen & Hlow).
  - unfold batchInvariant. simpl. repeat split; constructor.
  - exact Hrun.
  - pose proof (NoDup_below _ _ Hnd Hlt). simpl in Hlen, Hlow. lia.
Qed.

(** ** What is registered *)

Lemma registry_settled w job r :
  registryInvariant w -> registryInvariant (Bot.jobSettled w job r).
Proof.
  unfold registryInvariant, Bot.jobSettled. destruct r; [tauto|].
  destruct (existsb _ _); simpl; tauto.
Qed.

Lemma numbered_snoc ts trade :
  numbered ts -> Trade.id trade = "T" +:+ pretty (length ts + 1)%nat ->
  numbered (ts ++ [trade]).
Proof.
  intros Hn Hid i x Hi.
  destruct (decide (i < length ts)%nat) as [Hlt|Hge].
  - rewrite lookup_app_l in Hi by exact Hlt. apply Hn. exact Hi.
  - rewrite lookup_app_r in Hi by lia.
    destruct (i - length ts)%nat as [|k] eqn:Hk; simpl in Hi; [|discriminate].
    inversion Hi; subst. replace i with (length ts) by lia. exact Hid.
Qed.

Lemma numbered_closed ts i trade :
  numbered ts -> ts !! i = Some trade -> numbered (<[i := Trade.closed trade]> ts).
Proof.
  intros Hn Hi j x Hj.
  destruct (decide (i = j)) as [->|Hne].
  - rewrite list_lookup_insert_eq in Hj by (eapply lookup_lt_Some; eassumption).
    inversion Hj; subst. simpl. apply Hn. exact Hi.
  - rewrite list_lookup_insert_ne in Hj by exact Hne. apply Hn. exact Hj.
Qed.

Lemma step_registry w ev w' :
  registryInvariant w -> step w ev = Some w' -> registryInvariant w'.
Proof.
  intros (Hlen & Hsafe & Hwf & Hnum) Hstep. destruct ev; simpl in Hstep.
  - inversion Hstep; subst. repeat split; assumption.
  - destruct (Bot.digestAdvice _ _ _); inversion Hstep; subst; repeat split; assumption.
  - destruct (Bot.queue w) as [|job rest]; [discriminate|].
    destruct (length (Bot.running w) <? Bot.maxConcurrent)%nat eqn:Hfree; [|discriminate].
    destruct (Bot.spacingElapsed w); [|discriminate]. simpl in Hstep.
    apply Nat.ltb_lt in Hfree. unfold Bot.maxConcurrent in Hfree.
    destruct (Bot.running w) as [|x xs] eqn:Hrun; [|simpl in Hfree; lia].
    destruct (Bot.startJob parseFloatOther (Bot.bot w) job) as [r|pending] eqn:Hstart;
      inversion Hstep; subst; clear Hstep.
    + apply registry_settled. unfold registryInvariant. simpl.
      split; [lane|]. split; [constructor|]. split; assumption.
    + unfold registryInvariant. simpl. split; [lane|].
      split; [|split; assumption]. constructor; [|constructor].
      unfold offerSafe. simpl. unfold Bot.startJob in Hstart.
      destruct (String.eqb (Bot.j_signal job) "CLOSE LONG"
                || String.eqb (Bot.j_signal job) "CLOSE SHORT").
      * destruct (findIndexed _ _) as [[i trade]|]; [|discriminate].
        destruct (Bot.polarityMatches _ _); inversion Hstart; subst. exact I.
      * destruct (String.eqb (Bot.j_signal job) "LONG") eqn:Hlong; simpl in Hstart.
        -- destruct (Bot.amount _ _ _ _ _); inversion Hstart; subst.
           left. apply String.eqb_eq in Hlong. auto.
        -- destruct (String.eqb (Bot.j_signal job) "SHORT") eqn:Hshort; [|discriminate].
           destruct (Bot.amount _ _ _ _ _); inversion Hstart; subst.
           right. apply String.eqb_eq in Hshort. auto.
  - destruct (Bot.running w !! k) as [[job pending]|] eqn:Hk; [|discriminate].
    unfold Bot.maxConcurrent in Hlen.
    destruct (Bot.running w) as [|x [|y xs]] eqn:Hrun; simpl in Hlen; try lia;
      [discriminate|].
    destruct k as [|k]; [|discriminate]. simpl in Hk. inversion Hk; subst x; clear Hk.
    inversion Hsafe as [|? ? Hp _]; subst.
    destruct (Bot.resumeJob (Bot.bot w) job pending r) as [[b' st]|] eqn:Hres; [|discriminate].
    assert (Hb' : Forall wellFormed (Bot.trades b') /\ numbered (Bot.trades b') /\
                  match st with
                  | Bot.suspended pending' => offerSafe b' (job, pending')
                  | Bot.finished _ => True
                  end).
    { destruct pending as [i reason|a info isLong|o], r as [r|r|r]; simpl in Hres;
        try discriminate.
      - destruct r; inversion Hres; subst; auto.
      - destruct r as [quantity|e]; [|inversion Hres; subst; auto].
        destruct ((0 <? quantity)%float) eqn:Hq; simpl in Hres;
          [|inversion Hres; subst; auto].
        destruct (negb _); inversion Hres; subst; clear Hres; [|auto].
        split; [assumption|]. split; [assumption|].
        unfold offerSafe. simpl. unfold offerSafe in Hp. simpl in Hp. auto.
      - destruct r as [entryFilled|e]; [|inversion Hres; subst; auto].
        destruct entryFilled; simpl in Hres; inversion Hres; subst; clear Hres; [|auto].
        unfold offerSafe in Hp. simpl in Hp. destruct Hp as (Hq & Hdir & Hid).
        simpl. split; [|split; [|exact I]].
        + apply Forall_app. split; [assumption|].
          constructor; [|constructor]. split; assumption.
        + apply numbered_snoc; assumption. }
    destruct Hb' as (Hwf' & Hnum' & Hst).
    destruct st as [res|pending']; inversion Hstep; subst; clear Hstep.
    + apply registry_settled. unfold registryInvariant. simpl.
      split; [lane|]. split; [constructor|]. split; assumption.
    + unfold registryInvariant. simpl. split; [lane|].
      split; [constructor; [assumption|constructor]|]. split; assumption.
  - destruct (Bot.trades (Bot.bot w) !! i) as [trade|] eqn:Hi; [|discriminate].
    inversion Hstep; subst; clear Hstep. unfold registryInvariant. simpl.
    split; [assumption|]. split; [|split].
    + eapply Forall_impl; [exact Hsafe|]. intros [job pending]. unfold offerSafe. simpl.
      destruct pending; auto. rewrite length_insert. auto.
    + apply Forall_insert; [assumption|].
      rewrite Forall_forall in Hwf.
      assert (Ht : wellFormed trade) by (apply Hwf; apply list_elem_of_lookup; eauto).
      exact Ht.
    + apply numbered_closed; assumption.
  - inversion Hstep; subst. repeat split; assumption.
  - inversion Hstep; subst. repeat split; assumption.
  - inversion Hstep; subst. repeat split; assumption.
Qed.

Lemma run_registry evs : forall w w',
  registryInvariant w -> run w evs = Some w' -> registryInvariant w'.
Proof.
  induction evs as [|ev evs IH]; simpl; intros w w' Hw Hrun.
  - inversion Hrun; subst. assumption.
  - destruct (step w ev) as [w1|] eqn:Hstep; [|discriminate].
    eapply IH; [|eassumption]. eapply step_registry; eassumption.
Qed.

Lemma initial_registry b :
  Forall wellFormed (Bot.trades b) -> numbered (Bot.trades b) ->
  registryInvariant (Bot.initialWorld b).
Proof.
  intros Hwf Hnum. unfold registryInvariant. simpl.
  split; [lia|]. split; [constructor|]. split; assumption.
Qed.

(** X6: along every run of the event loop from a bot without trades,
    every trade in the list has a positive quantity (never zero,
    negative or NaN) and the direction of the signal that opened it:
    long for LONG, short for SHORT.  (Class Trade is modelled from the
    spec: a trade carries the fields it was constructed with.) *)
Theorem registered_trades_are_sized_and_directed
    (b : Bot.t) (evs : list Bot.Event) (w : Bot.World) :
  Bot.trades b = [] ->
  run (Bot.initialWorld b) evs = Some w ->
  forall trade, In trade (Bot.trades (Bot.bot w)) ->
    (0 <? Trade.quantity trade)%float = true /\
    ((Trade.signal trade = "LONG" /\ Trade.isLong trade = true) \/
     (Trade.signal trade = "SHORT" /\ Trade.isLong trade = false)).
Proof.
  intros Hb Hrun trade Hin.
  assert (Hw : registryInvariant w).
  { eapply run_registry; [|eassumption]. apply initial_registry; rewrite Hb.
    - constructor.
    - intros i x Hi. discriminate. }
  destruct Hw as (_ & _ & Hwf & _). rewrite Forall_forall in Hwf.
  apply (Hwf trade). apply list_elem_of_In. exact Hin.
Qed.

(** X7: along every run from a bot without trades, the trade at
    position [i] of the list is called T(i+1), so trade ids are distinct:
    between the moment a job reads [this.trades.length] for the id and
    the moment it pushes its trade, the limiter lets no other job push
    one.  (Class Trade is modelled from the spec.) *)
Theorem trade_ids_are_sequential (b : Bot.t) (evs : list Bot.Event) (w : Bot.World) :
  Bot.trades b = [] ->
  run (Bot.initialWorld b) evs = Some w ->
  (forall i trade, Bot.trades (Bot.bot w) !! i = Some trade ->
     Trade.id trade = "T" +:+ pretty (i + 1)%nat) /\
  NoDup (map Trade.id (Bot.trades (Bot.bot w))).
Proof.
  intros Hb Hrun.
  assert (Hw : registryInvariant w).
  { eapply run_registry; [|eassumption]. apply initial_registry; rewrite Hb.
    - constructor.
    - intros i x Hi. discriminate. }
  destruct Hw as (_ & _ & _ & Hnum). split; [exact Hnum|].
  apply NoDup_alt. intros i j id Hi Hj.
  rewrite list_lookup_fmap in Hi, Hj.
  destruct (Bot.trades (Bot.bot w) !! i) as [ti|] eqn:Hti; [|discriminate].
  destruct (Bot.trades (Bot.bot w) !! j) as [tj|] eqn:Htj; [|discriminate].
  simpl in Hi, Hj. inversion Hi; inversion Hj; subst.
  rewrite (Hnum i ti Hti), (Hnum j tj Htj) in H1.
  simpl in H1. inversion H1 as [Heq].
  assert (Hij : (j + 1 = i + 1)%nat) by (apply (inj (@pretty nat _)); exact Heq).
  lia.
Qed.

(** ** The rate of the limiter *)

Lemma spaced_lookup d (l : list N) : forall i j ti tj,
  spaced d l -> l !! i = Some ti -> l !! j = Some tj -> (i <= j)%nat ->
  (ti + d * N.of_nat (j - i) <= tj)%N.
Proof.
  induction l as [|x l IH]; intros i j ti tj Hs Hi Hj Hij; [discriminate|].
  assert (Htail : spaced d l).
  { destruct l as [|y l]; [exact I|]. simpl in Hs. tauto. }
  destruct i as [|i].
  - simpl in Hi. inversion Hi; subst x; clear Hi.
    destruct j as [|j].
    + simpl in Hj. inversion Hj; subst. simpl. rewrite N.mul_0_r. lia.
    + simpl in Hj. destruct l as [|y l]; [discriminate|].
      simpl in Hs. destruct Hs as [Hxy _].
      pose proof (IH 0%nat j y tj Htail eq_refl Hj ltac:(lia)) as H.
      replace (S j - 0)%nat with (S (j - 0)) by lia.
      rewrite Nat2N.inj_succ, N.mul_succ_r. lia.
  - destruct j as [|j]; [lia|]. simpl in Hi, Hj.
    replace (S j - S i)%nat with (j - i)%nat by lia.
    apply (IH i j); auto. lia.
Qed.

(** X8: along every run, the digestion job launched as number [j]
    starts at least [(j - i) * 300] ms after the one launched as number
    [i]: any [n + 1] consecutive launches span at least [n * 300] ms. *)
Theorem launches_rate_bound (b : Bot.t) (evs : list Bot.Event) (w : Bot.World) i j ti tj :
  run (Bot.initialWorld b) evs = Some w ->
  map fst (Bot.launches w) !! i = Some ti ->
  map fst (Bot.launches w) !! j = Some tj ->
  (i <= j)%nat ->
  (ti + 300 * N.of_nat (j - i) <= tj)%N.
Proof.
  intros Hrun Hi Hj Hij.
  assert (Hw : laneInvariant w).
  { eapply run_lane; [|eassumption]. apply initial_lane. }
  destruct Hw as (_ & _ & Hsp & _).
  eapply (spaced_lookup Bot.minTime); eassumption.
Qed.

End Ledger.

(** ** Closing every trade without quitting *)

Lemma continueQuit_keeps q :
  Bot.q_thenExit (Bot.continueQuit q) = Bot.q_thenExit q /\
  Bot.q_closes (Bot.continueQuit q) = Bot.q_closes q /\
  Bot.currentMode (Bot.q_bot (Bot.continueQuit q)) = Bot.currentMode (Bot.q_bot q) /\
  Bot.trades (Bot.q_bot (Bot.continueQuit q)) = Bot.trades (Bot.q_bot q) /\
  (Bot.q_thenExit q = false -> Bot.q_exited q = false ->
   Bot.q_exited (Bot.continueQuit q) = false).
Proof.
  unfold Bot.continueQuit. destruct (Bot.q_awaited q); simpl; auto.
Qed.

Lemma quitRun_keeps ss : forall q,
  Bot.q_thenExit q = false -> Bot.q_exited q = false ->
  Bot.q_exited (Bot.quitRun q ss) = false /\
  Bot.q_closes (Bot.quitRun q ss) = Bot.q_closes q /\
  Bot.currentMode (Bot.q_bot (Bot.quitRun q ss)) = Bot.currentMode (Bot.q_bot q) /\
  Bot.trades (Bot.q_bot (Bot.quitRun q ss)) = Bot.trades (Bot.q_bot q).
Proof.
  unfold Bot.quitRun. induction ss as [|s ss IH]; simpl; intros q Hthen Hex; [auto|].
  assert (Hq : Bot.q_thenExit (Bot.quitSettle q s) = false /\
               Bot.q_exited (Bot.quitSettle q s) = false /\
               Bot.q_closes (Bot.quitSettle q s) = Bot.q_closes q /\
               Bot.currentMode (Bot.q_bot (Bot.quitSettle q s)) = Bot.currentMode (Bot.q_bot q) /\
               Bot.trades (Bot.q_bot (Bot.quitSettle q s)) = Bot.trades (Bot.q_bot q)).
  { unfold Bot.quitSettle. destruct (Bot.q_awaited q) eqn:Haw; auto.
    match goal with |- context [Bot.continueQuit ?x] =>
      destruct (continueQuit_keeps x) as (H1 & H2 & H3 & H4 & H5) end.
    simpl in *. rewrite H1, H2, H3, H4. auto. }
  destruct Hq as (H1 & H2 & H3 & H4 & H5).
  destruct (IH _ H1 H2) as (G1 & G2 & G3 & G4).
  rewrite G2, G3, G4. auto.
Qed.

(** X9: when [y] is pressed on the close-all screen (mode ['k']), the
    bot asks every open trade, and no other, to close with the reason
    'expire', shows the trade list (mode ['t']), and never exits the
    process, however the close calls settle; it removes no trade from
    the list. *)
Theorem close_all_never_exits (b : Bot.t) (ss : list (nat * Js.Settled unit)) :
  Bot.currentMode b = Some "k" ->
  exists q,
    Bot.pressY b = inr q /\
    (forall i reason,
       In (i, reason) (Bot.q_closes q) <->
       reason = "expire" /\
       exists trade, Bot.trades b !! i = Some trade /\ Trade.isOpen trade = true) /\
    Bot.q_exited (Bot.quitRun q ss) = false /\
    Bot.currentMode (Bot.q_bot (Bot.quitRun q ss)) = Some "t" /\
    Bot.trades (Bot.q_bot (Bot.quitRun q ss)) = Bot.trades b.
Proof.
  intros Hmode. unfold Bot.pressY. rewrite Hmode. simpl.
  eexists. split; [reflexivity|].
  match goal with |- context [Bot.continueQuit ?x] =>
    destruct (continueQuit_keeps x) as (H1 & H2 & H3 & H4 & H5);
    destruct (quitRun_keeps ss (Bot.continueQuit x)) as (G1 & G2 & G3 & G4);
    [rewrite H1; reflexivity | apply H5; reflexivity |]
  end.
  simpl in *. split.
  - intros i reason. rewrite H2. unfold Bot.closeTrades. simpl. apply closes_In.
  - rewrite G1, G3, G4, H3, H4. auto.
Qed.

(** ** The charts start-up leaves *)

Lemma loadChart_keeps h b chartConfig :
  Bot.advisors (fst (Bot.loadChart h b chartConfig)) = Bot.advisors b /\
  (forall chartId, snd (Bot.loadChart h b chartConfig) = Some chartId ->
     is_Some (Bot.charts (fst (Bot.loadChart h b chartConfig)) !! chartId)) /\
  (forall chartId chart, Bot.charts b !! chartId = Some chart ->
     Bot.charts (fst (Bot.loadChart h b chartConfig)) !! chartId = Some chart).
Proof.
  unfold Bot.loadChart. destruct (Bot.hash h chartConfig) as [e|id]; simpl.
  - split; [reflexivity|]. split; [discriminate|auto].
  - destruct (Bot.charts b !! id) as [loaded|] eqn:Hl; simpl.
    + split; [reflexivity|]. split; [|auto].
      intros chartId H. inversion H; subst. eauto.
    + destruct (Bot.chartInitialize h id chartConfig) as [chart|e]; simpl.
      * split; [reflexivity|]. split.
        -- intros chartId H. inversion H; subst. rewrite lookup_insert_eq. eauto.
        -- intros chartId chart' Hc. rewrite lookup_insert_ne; [exact Hc|]. congruence.
      * split; [reflexivity|]. split; [discriminate|auto].
Qed.

Lemma loadCharts_keep h chartConfigs : forall b,
  Bot.advisors (fst (Bot.loadCharts h b chartConfigs)) = Bot.advisors b /\
  (forall chartIds chartId,
     snd (Bot.loadCharts h b chartConfigs) = Some chartIds -> In chartId chartIds ->
     is_Some (Bot.charts (fst (Bot.loadCharts h b chartConfigs)) !! chartId)) /\
  (forall chartId chart, Bot.charts b !! chartId = Some chart ->
     Bot.charts (fst (Bot.loadCharts h b chartConfigs)) !! chartId = Some chart).
Proof.
  induction chartConfigs as [|chartConfig rest IH]; simpl; intros b.
  - split; [reflexivity|]. split; [|auto].
    intros chartIds chartId H. inversion H; subst. intros [].
  - destruct (loadChart_keeps h b chartConfig) as (Ha & Hnew & Hold).
    destruct (Bot.loadChart h b chartConfig) as [b1 [id|]]; simpl in *.
    + destruct (IH b1) as (Ha' & Hnew' & Hold').
      destruct (Bot.loadCharts h b1 rest) as [b2 ids]; simpl in *.
      split; [congruence|]. split; [|auto].
      intros chartIds chartId Hids Hin. destruct ids as [ids|]; [|discriminate].
      simpl in Hids. inversion Hids; subst; clear Hids. destruct Hin as [<-|Hin].
      * destruct (Hnew id eq_refl) as [chart Hchart]. rewrite (Hold' _ _ Hchart). eauto.
      * eapply Hnew'; [reflexivity|exact Hin].
    + split; [exact Ha|]. split; [discriminate|exact Hold].
Qed.

Lemma setAdvisor_In l advisorId advisor k a :
  In (k, a) (Bot.setAdvisor l advisorId advisor) ->
  (k = advisorId /\ a = advisor) \/ In (k, a) l.
Proof.
  induction l as [|[k' a'] l IH]; simpl.
  - intros [H|[]]. inversion H; auto.
  - destruct (String.eqb k' advisorId) eqn:Hk; simpl.
    + apply String.eqb_eq in Hk. intros [H|H]; [inversion H; subst; auto|auto].
    + intros [H|H]; [auto|]. destruct (IH H); auto.
Qed.

Section Subscriptions.

Variable h : Bot.Host.

(** [new Advisor(advisorName, chartIds)] keeps the chart ids it is given. *)
Hypothesis newAdvisor_chartIds :
  forall advisorName chartIds,
    Bot.Advisor.chartIds (Bot.newAdvisor h advisorName chartIds) = chartIds.

Local Abbreviation grows b b' :=
  (forall chartId chart, Bot.charts b !! chartId = Some chart ->
     Bot.charts b' !! chartId = Some chart).

Lemma addAdvisor_subscribes b advisorId b' :
  subscriptionsLoaded b ->
  Bot.addAdvisor h b advisorId = Bot.resolves b' \/
  Bot.addAdvisor h b advisorId = Bot.neverSettles b' ->
  subscriptionsLoaded b' /\ grows b b'.
Proof.
  intros Hb. unfold Bot.addAdvisor.
  destruct (Bot.advisorModule h advisorId) as [config|]; [|intros [H|H]; discriminate].
  destruct config as [| | | | |[|item items]|]; try (intros [H|H]; discriminate).
  destruct (Bot.getChartConfigs h _) as [chartConfigs|e]; [|intros [H|H]; discriminate].
  destruct (loadCharts_keep h chartConfigs b) as (Ha & Hnew & Hold).
  destruct (Bot.loadCharts h b chartConfigs) as [b1 [chartIds|]]; simpl in *;
    intros [H|H]; inversion H; subst; clear H.
  - split; [|exact Hold].
    intros k a chartId Hin Hsub. simpl in *.
    apply setAdvisor_In in Hin as [[-> ->]|Hin].
    + rewrite newAdvisor_chartIds in Hsub. eapply Hnew; [reflexivity|exact Hsub].
    + rewrite Ha in Hin. destruct (Hb k a chartId Hin Hsub) as [chart Hchart].
      rewrite (Hold _ _ Hchart). eauto.
  - split; [|exact Hold].
    intros k a chartId Hin Hsub. rewrite Ha in Hin.
    destruct (Hb k a chartId Hin Hsub) as [chart Hchart].
    rewrite (Hold _ _ Hchart). eauto.
Qed.

Lemma addAdvisors_subscribe items : forall b index,
  subscriptionsLoaded b ->
  subscriptionsLoaded (fst (Bot.addAdvisors h b items index)) /\
  grows b (fst (Bot.addAdvisors h b items index)).
Proof.
  induction items as [|item items IH]; simpl; intros b index Hb; [auto|].
  assert (Hnext : forall b1, subscriptionsLoaded b1 -> grows b b1 ->
            subscriptionsLoaded (fst (Bot.addAdvisors h b1 items (S index))) /\
            grows b (fst (Bot.addAdvisors h b1 items (S index)))).
  { intros b1 H1 Hgrow. destruct (IH b1 (S index) H1) as [Hfinal Hgrow'].
    split; [exact Hfinal|auto]. }
  destruct item as [| | | |[|c s]| |]; try (apply Hnext; [exact Hb|auto]).
  destruct (Bot.addAdvisor h b (String c s)) as [b1|e|b1] eqn:Hadd.
  - destruct (addAdvisor_subscribes b (String c s) b1 Hb (or_introl Hadd)).
    apply Hnext; assumption.
  - apply Hnext; [exact Hb|auto].
  - simpl. apply (addAdvisor_subscribes b (String c s) b1 Hb (or_intror Hadd)).
Qed.

Lemma advisorsAdded_subscribes b1 advisorIds :
  subscriptionsLoaded b1 ->
  subscriptionsLoaded (fst (advisorsAdded h b1 advisorIds)) /\
  grows b1 (fst (advisorsAdded h b1 advisorIds)).
Proof.
  intros H1. unfold advisorsAdded.
  destruct advisorIds as [| | | | |items|]; try (simpl; split; [exact H1|auto]).
  apply addAdvisors_subscribe. exact H1.
Qed.

Lemma announce_charts b :
  Bot.charts (Bot.announce b) = Bot.charts b.
Proof.
  unfold Bot.announce. simpl. destruct (Bot.advisors b); reflexivity.
Qed.

Lemma announceMode_charts b options :
  Bot.charts (Bot.announceMode b options) = Bot.charts b.
Proof.
  unfold Bot.announceMode. destruct (Bot.advisors b); [reflexivity|].
  destruct (Js.truthy _); reflexivity.
Qed.

Lemma subscriptionsLoaded_same b b' :
  Bot.advisors b' = Bot.advisors b -> Bot.charts b' = Bot.charts b ->
  subscriptionsLoaded b -> subscriptionsLoaded b'.
Proof.
  unfold subscriptionsLoaded. intros -> ->. auto.
Qed.

Lemma initialize_subscribes b options config b' :
  subscriptionsLoaded b ->
  Bot.initialize h b options config = Bot.runs b' \/
  Bot.initialize h b options config = Bot.hangs b' ->
  subscriptionsLoaded b' /\ grows b b'.
Proof.
  intros Hb Hinit.
  assert (Hshape : exists fields c s b1,
            config = Js.object fields /\
            Js.getField fields "provider" = Js.str (String c s) /\
            Bot.addProvider h b (String c s) = inr b1).
  { unfold Bot.initialize, Bot.fatal in Hinit.
    destruct (negb (Js.typeofObject config) || Js.isArray config);
      [destruct Hinit; discriminate|].
    destruct config as [| | | | | |fields]; try (destruct Hinit; discriminate).
    destruct (Js.getField fields "provider") as [| | | |[|c s]| |] eqn:Hp;
      try (destruct Hinit; discriminate).
    destruct (Bot.addProvider h b (String c s)) as [e|b1] eqn:Hprov;
      [destruct Hinit; discriminate|].
    exists fields, c, s, b1. auto. }
  destruct Hshape as (fields & c & s & b1 & -> & Hp & Hprov).
  rewrite (initialize_with_provider h b options fields c s b1 Hp Hprov) in Hinit.
  assert (Hb1 : Bot.advisors b1 = Bot.advisors b /\ Bot.charts b1 = Bot.charts b).
  { unfold Bot.addProvider in Hprov.
    destruct (negb _); [discriminate|].
    destruct (Bot.connect h _); inversion Hprov; subst. simpl. auto. }
  destruct Hb1 as [Ha1 Hc1].
  assert (H1 : subscriptionsLoaded b1) by (eapply subscriptionsLoaded_same; eassumption).
  destruct (advisorsAdded_subscribes b1 (Js.getField fields "advisors") H1) as [H3 Hgrow1].
  assert (Hgrow : grows b (fst (advisorsAdded h b1 (Js.getField fields "advisors")))).
  { intros chartId chart Hc. apply Hgrow1. rewrite Hc1. exact Hc. }
  clear Hgrow1.
  destruct (advisorsAdded h b1 (Js.getField fields "advisors")) as [b3 passed].
  simpl in H3, Hgrow.
  destruct passed.
  - unfold Bot.fatal in Hinit.
    destruct (Js.get options "console") as [e|console]; [destruct Hinit; discriminate|].
    destruct Hinit as [H|H]; inversion H; subst; clear H.
    destruct (announceMode_logs (if negb (Js.truthy console) then Bot.announce b3 else b3)
                options) as [Ha _].
    assert (Ha' : Bot.advisors (if negb (Js.truthy console) then Bot.announce b3 else b3)
                  = Bot.advisors b3).
    { destruct (negb _); [apply announce_logs|reflexivity]. }
    assert (Hc' : Bot.charts (if negb (Js.truthy console) then Bot.announce b3 else b3)
                  = Bot.charts b3).
    { destruct (negb _); [apply announce_charts|reflexivity]. }
    split.
    + eapply subscriptionsLoaded_same; [| |exact H3].
      * rewrite Ha. exact Ha'.
      * rewrite announceMode_charts. exact Hc'.
    + intros chartId chart Hc. rewrite announceMode_charts, Hc'. auto.
  - destruct Hinit as [H|H]; inversion H; subst; clear H. split; assumption.
Qed.

(** X10: every chart that an advisor loaded at start-up subscribes to
    is loaded, provided the Advisor constructor keeps the chart ids it
    is given: [analyzeChart] then never reads the name of a chart that
    is not there, so no analysis ends in an unhandled rejection.
    Start-up replaces no chart that was loaded before: a chart shared
    by several advisors is initialized once. *)
Theorem startup_loads_subscribed_charts (b : Bot.t) options config (b' : Bot.t) :
  subscriptionsLoaded b ->
  Bot.initialize h b options config = Bot.runs b' ->
  subscriptionsLoaded b' /\
  (forall chartId chart, Bot.charts b !! chartId = Some chart ->
     Bot.charts b' !! chartId = Some chart) /\
  (forall chartId candles isFinal e,
     ~ In (Bot.unhandledRejection e) (Bot.analyzeChart b' chartId candles isFinal)).
Proof.
  intros Hb Hinit.
  destruct (initialize_subscribes b options config b' Hb (or_introl Hinit)) as [Hsub Hgrow].
  split; [exact Hsub|]. split; [exact Hgrow|].
  intros chartId candles isFinal e. unfold Bot.analyzeChart.
  destruct (negb (Bot.paused b')); [|simpl; tauto].
  intros Hin. apply in_concat in Hin as (effects & Heff & Hin).
  apply in_map_iff in Heff as ([advisorId advisor] & <- & Hentry).
  unfold Bot.analyzeFor in Hin.
  destruct (existsb (String.eqb chartId) (Bot.Advisor.chartIds advisor)) eqn:Hex;
    [|destruct Hin].
  apply existsb_exists in Hex as (c & Hc & Heq). apply String.eqb_eq in Heq. subst c.
  destruct (Hsub advisorId advisor chartId Hentry Hc) as [chart Hchart].
  rewrite Hchart in Hin. simpl in Hin. destruct Hin as [Hin|Hin]; [discriminate|].
  destruct (Bot.Advisor.analyze _ _ _ _ _).
  - apply in_map_iff in Hin as (adv & Hadv & _). discriminate.
  - simpl in Hin. destruct Hin as [Hin|[]]. discriminate.
Qed.

End Subscriptions.

(** ** An advisor whose chart cannot be loaded *)



(** ** Actions on the session *)

Lemma filterThrowing_filter {A} (p : A -> option bool) (q : A -> bool) (l : list A) :
  (forall x, p x = Some (q x)) -> filterThrowing p l = Some (List.filter q l).
Proof.
  intros H. induction l as [|x l IH]; simpl; [reflexivity|].
  rewrite H, IH. reflexivity.
Qed.

Ltac act :=
  cbv beta iota delta [Session.bind Session.get Session.modify Session.ret Session.emit
                       Session.throw Session.setMode Session.catch Session.await
                       Session.after].

Lemma after_bind {A B} (m : Session.Action A) (k : A -> Session.Action B) s :
  Session.after (Session.bind m k) s =
  match snd (m s) with
  | inl _ => Session.after m s
  | inr a => Session.after (k a) (Session.after m s)
  end.
Proof.
  unfold Session.after, Session.bind.
  destruct (m s) as [[s1 out1] [e|a]]; simpl; [reflexivity|].
  destruct (k a s1) as [[s2 out2] r]. reflexivity.
Qed.

Lemma after_modify f s : Session.after (Session.modify f) s = f s.
Proof. reflexivity. Qed.

Lemma after_get s : Session.after Session.get s = s.
Proof. reflexivity. Qed.

Lemma after_ret {A} (a : A) s : Session.after (Session.ret a) s = s.
Proof. reflexivity. Qed.

Ltac afters :=
  repeat first [rewrite after_bind | rewrite after_modify | rewrite after_get
               | rewrite after_ret | progress simpl].

Lemma returns_bind {A B} (m : Session.Action A) (k : A -> Session.Action B) s a :
  snd (m s) = inr a -> returns (k a) (Session.after m s) -> returns (Session.bind m k) s.
Proof.
  unfold returns, Session.after, Session.bind.
  destruct (m s) as [[s1 out1] [e|a']]; simpl; [discriminate|].
  intros H [b Hb]. inversion H; subst.
  destruct (k a s1) as [[s2 out2] r]. simpl in *. eauto.
Qed.

Lemma keeps_bind {A B} I (m : Session.Action A) (k : A -> Session.Action B) :
  keeps I m -> (forall a, keeps I (k a)) -> keeps I (Session.bind m k).
Proof.
  intros Hm Hk s Hs. rewrite after_bind.
  destruct (snd (m s)); [apply Hm; exact Hs|]. apply Hk, Hm. exact Hs.
Qed.

Lemma keeps_get {A} I (k : Session.t -> Session.Action A) :
  (forall s, I s -> I (Session.after (k s) s)) -> keeps I (Session.bind Session.get k).
Proof.
  intros Hk s Hs. rewrite after_bind. simpl. apply Hk. exact Hs.
Qed.

Lemma keeps_catch I (m : Session.Action unit) handler :
  keeps I m -> (forall e, keeps I (handler e)) -> keeps I (Session.catch m handler).
Proof.
  intros Hm Hh s Hs. specialize (Hm s Hs). unfold Session.after, Session.catch in *.
  destruct (m s) as [[s1 out1] [e|a]]; simpl in *; [|exact Hm].
  specialize (Hh e s1 Hm). unfold Session.after in Hh.
  destruct (handler e s1) as [[s2 out2] r]. exact Hh.
Qed.

Lemma keeps_ret {A} I (a : A) : keeps I (Session.ret a).
Proof. intros s Hs. exact Hs. Qed.

Lemma keeps_throw {A} I e : keeps I (@Session.throw A e).
Proof. intros s Hs. exact Hs. Qed.

Lemma keeps_emit I out : keeps I (Session.emit out).
Proof. intros s Hs. exact Hs. Qed.

Lemma keeps_await {A} I (r : Js.Settled A) : keeps I (Session.await r).
Proof. intros s Hs. destruct r; exact Hs. Qed.

Lemma keeps_modify I (f : Session.t -> Session.t) :
  (forall s, I s -> I (f s)) -> keeps I (Session.modify f).
Proof. intros Hf s Hs. apply Hf. exact Hs. Qed.

(** *** What [refresh] does *)

Lemma with_current_same s :
  Session.with_current s (Session.currentAdvisor s) (Session.currentChart s) = s.
Proof. destruct s. reflexivity. Qed.

Lemma shownCharts_known s advisor :
  Bot.getAdvisor (Bot.advisors (Session.bot s)) (Session.keyOf (Session.currentAdvisor s))
  = Some advisor ->
  Session.shownCharts s =
  (s, [], inr (List.filter (fun chartId =>
                              existsb (String.eqb chartId) (Bot.Advisor.chartIds advisor)
                              && Session.enabled s chartId) (Session.chartKeys s))).
Proof.
  intros Hadv. unfold Session.shownCharts. act.
  rewrite (filterThrowing_filter _ (fun chartId =>
             existsb (String.eqb chartId) (Bot.Advisor.chartIds advisor)
             && Session.enabled s chartId)); [reflexivity|].
  intros chartId. unfold Session.shownChart. rewrite Hadv. reflexivity.
Qed.

Lemma switchAdvisor_known s advisorId advisor :
  Bot.getAdvisor (Bot.advisors (Session.bot s)) (Session.keyOf advisorId) = Some advisor ->
  Session.switchAdvisor advisorId s =
  (Session.with_current s advisorId
     (head (List.filter (fun chartId =>
                           existsb (String.eqb chartId) (Bot.Advisor.chartIds advisor)
                           && Session.enabled s chartId) (Session.chartKeys s))),
   [], inr tt).
Proof.
  intros Hadv. unfold Session.switchAdvisor.
  unfold Session.bind at 1. unfold Session.modify at 1.
  unfold Session.bind. rewrite (shownCharts_known _ advisor) by exact Hadv. simpl.
  destruct (List.filter _ _); reflexivity.
Qed.

Lemma pickAdvisor_spec s :
  exists advisorId chartId,
    Session.pickAdvisor s = (Session.with_current s advisorId chartId, [], inr tt) /\
    (Session.isSet (Session.currentAdvisor s) = true \/ Bot.advisors (Session.bot s) = [] ->
     advisorId = Session.currentAdvisor s /\ chartId = Session.currentChart s).
Proof.
  unfold Session.pickAdvisor. act.
  destruct (Session.isSet (Session.currentAdvisor s)) eqn:Hset.
  - exists (Session.currentAdvisor s), (Session.currentChart s).
    rewrite with_current_same. auto.
  - destruct (Bot.advisors (Session.bot s)) as [|[advisorId advisor] rest] eqn:Hadv.
    + exists (Session.currentAdvisor s), (Session.currentChart s).
      rewrite with_current_same. auto.
    + eexists _, _. split.
      * rewrite (switchAdvisor_known s (Some advisorId) advisor); [reflexivity|].
        rewrite Hadv. simpl. rewrite String.eqb_refl. reflexivity.
      * intros [H|H]; discriminate.
Qed.

Lemma refresh_spec s :
  exists advisorId chartId,
    Session.refresh s =
    match Session.ui s with
    | None => (s, [], inr tt)
    | Some pageSize =>
        (Session.settleMode (Session.with_current s advisorId chartId),
         map Session.rendered
           (Session.draw (Session.settleMode (Session.with_current s advisorId chartId))
                         pageSize),
         inr tt)
    end /\
    (Session.isSet (Session.currentAdvisor s) = true \/ Bot.advisors (Session.bot s) = [] ->
     advisorId = Session.currentAdvisor s /\ chartId = Session.currentChart s).
Proof.
  destruct (pickAdvisor_spec s) as (advisorId & chartId & Hpick & Hsame).
  exists advisorId, chartId. split; [|exact Hsame].
  unfold Session.refresh. unfold Session.bind at 1. unfold Session.get at 1.
  destruct (Session.ui s) as [pageSize|]; [|reflexivity].
  unfold Session.bind at 1. rewrite Hpick. act. reflexivity.
Qed.

Lemma refresh_returns s : snd (Session.refresh s) = inr tt.
Proof.
  destruct (refresh_spec s) as (a & c & -> & _). destruct (Session.ui s); reflexivity.
Qed.

Lemma sameId_true o x : Session.sameId o x = true <-> o = Some x.
Proof.
  unfold Session.sameId. destruct o as [y|].
  - rewrite String.eqb_eq. split; congruence.
  - split; discriminate.
Qed.

Lemma settledMode_other mode chartId m :
  m <> "c" -> m <> "f" -> m <> "" ->
  Session.sameId (Session.settledMode mode chartId) m = Session.sameId mode m.
Proof.
  intros Hc Hf He. unfold Session.settledMode.
  destruct (Session.isSet mode) eqn:Hset.
  - destruct (Session.sameId mode "c" && negb (Session.isSet chartId)) eqn:Hc1;
      [|reflexivity].
    apply andb_true_iff in Hc1 as [Hc1 _]. apply sameId_true in Hc1. subst mode.
    unfold Session.sameId.
    rewrite (proj2 (String.eqb_neq m "f")), (proj2 (String.eqb_neq m "c")); auto.
  - assert (H : Session.sameId mode m = false).
    { destruct mode as [x|]; [|reflexivity]. unfold Session.isSet in Hset.
      apply negb_false_iff, String.eqb_eq in Hset. subst x.
      unfold Session.sameId. apply String.eqb_neq. exact He. }
    rewrite H.
    destruct (Session.sameId (Some "c") "c" && negb (Session.isSet chartId));
      unfold Session.sameId; apply String.eqb_neq; assumption.
Qed.

Lemma settledMode_chart chartId :
  Session.isSet chartId = true -> Session.settledMode (Some "c") chartId = Some "c".
Proof.
  intros H. unfold Session.settledMode. simpl. rewrite H. reflexivity.
Qed.

Lemma keeps_get_any {A} I (k : Session.t -> Session.Action A) :
  (forall s, keeps I (k s)) -> keeps I (Session.bind Session.get k).
Proof.
  intros Hk. apply keeps_get. intros s Hs. apply Hk. exact Hs.
Qed.

Ltac keep_step :=
  match goal with
  | |- keeps _ (Session.bind Session.get _) => apply keeps_get_any; intros ?
  | |- keeps _ (Session.bind _ _) => apply keeps_bind; [|intros ?]
  | |- keeps _ (Session.catch _ _) => apply keeps_catch; [|intros ?]
  | |- keeps _ (Session.ret _) => apply keeps_ret
  | |- keeps _ (Session.throw _) => apply keeps_throw
  | |- keeps _ (Session.emit _) => apply keeps_emit
  | |- keeps _ (Session.await _) => apply keeps_await
  | |- keeps _ (if ?c then _ else _) => destruct c
  | |- keeps _ (match ?x with _ => _ end) => destruct x
  | |- keeps _ (let _ := _ in _) => cbv zeta
  end.

(** ** Reading the log *)

Lemma scroll_same s s' :
  Bot.logs (Session.bot s') = Bot.logs (Session.bot s) ->
  Session.ui s' = Session.ui s ->
  Session.readMore s' = Session.readMore s ->
  (Session.modeIs "l" s' = true -> Session.modeIs "l" s = true) ->
  scrollBounded s -> scrollBounded s'.
Proof.
  intros Hlogs Hui Hread Hmode Hs pageSize n Hl Hp Hn.
  rewrite Hlogs. apply Hs; [auto|congruence|congruence].
Qed.

Ltac quiet :=
  apply keeps_modify;
  let s0 := fresh "s" in
  let Hs0 := fresh "Hs" in
  intros s0 Hs0; apply (scroll_same s0);
  [reflexivity | reflexivity | reflexivity
  | unfold Session.modeIs; simpl; try discriminate; auto | exact Hs0].

Lemma scroll_settleMode : keeps scrollBounded (Session.modify Session.settleMode).
Proof.
  apply keeps_modify. intros s Hs. apply (scroll_same s); try reflexivity; [|exact Hs].
  unfold Session.settleMode, Session.modeIs. simpl.
  rewrite settledMode_other by discriminate. auto.
Qed.

Lemma scroll_shownCharts : keeps scrollBounded Session.shownCharts.
Proof.
  unfold Session.shownCharts. repeat keep_step.
Qed.

Lemma scroll_switchAdvisor advisorId : keeps scrollBounded (Session.switchAdvisor advisorId).
Proof.
  unfold Session.switchAdvisor.
  repeat keep_step; try apply scroll_shownCharts; quiet.
Qed.

Lemma scroll_refresh : keeps scrollBounded Session.refresh.
Proof.
  unfold Session.refresh, Session.pickAdvisor.
  repeat keep_step; try apply scroll_switchAdvisor; try apply scroll_settleMode.
Qed.

Lemma scroll_setMode mode :
  mode <> "l" -> keeps scrollBounded (Session.setMode mode).
Proof.
  intros Hmode. apply keeps_modify. intros s _ pageSize n Hl.
  apply sameId_true in Hl. simpl in Hl. congruence.
Qed.

Lemma scroll_log ev : keeps scrollBounded (Session.log ev).
Proof.
  intros s Hs. unfold Session.log. afters.
  set (s1 := Session.with_bot s (Bot.log (Session.bot s) ev)).
  assert (Hs1 : scrollBounded s1).
  { intros pageSize n Hl Hp Hn. simpl. rewrite length_app. simpl.
    specialize (Hs pageSize n Hl Hp Hn). lia. }
  destruct (Session.modeIs "l" s1) eqn:Hl; [|exact Hs1].
  destruct (Session.readMore s) as [[|n]|] eqn:Hread;
    try (apply scroll_refresh; exact Hs1).
  afters. apply scroll_refresh.
  intros pageSize n' _ Hp Hn. simpl in *. inversion Hn; subst n'.
  rewrite length_app. simpl.
  specialize (Hs pageSize n Hl Hp Hread). lia.
Qed.

Lemma scroll_readOn_logs s :
  scrollBounded s ->
  scrollBounded (Session.after (Session.readOn "l" (length (Bot.logs (Session.bot s)))) s).
Proof.
  intros Hs. unfold Session.readOn. afters.
  destruct (Session.modeIs "l" s) eqn:Hl.
  - destruct (Session.ui s) as [pageSize|] eqn:Hui; [|exact Hs].
    destruct (pageSize <? _)%Z eqn:Hmore; [|exact Hs].
    apply Z.ltb_lt in Hmore. afters.
    intros pageSize' n _ Hp Hn. simpl in *. inversion Hn; subst.
    rewrite Hui in Hp. inversion Hp; subst. lia.
  - afters. intros pageSize n _ _ Hn. discriminate.
Qed.

Lemma scroll_readOn_trades size : keeps scrollBounded (Session.readOn "t" size).
Proof.
  intros s Hs. unfold Session.readOn. afters.
  destruct (Session.modeIs "t" s) eqn:Ht.
  - destruct (Session.ui s) as [pageSize|]; [|exact Hs].
    destruct (pageSize <? _)%Z; [|exact Hs]. afters.
    intros pageSize' n Hl. apply sameId_true in Ht. apply sameId_true in Hl.
    simpl in Hl. congruence.
  - afters. intros pageSize n _ _ Hn. discriminate.
Qed.

Lemma scroll_retrieveFunds h p updatePrices :
  keeps scrollBounded (Session.retrieveFunds h p updatePrices).
Proof.
  unfold Session.retrieveFunds. repeat keep_step; quiet.
Qed.

Lemma scroll_updateFunds h p updatePrices :
  keeps scrollBounded (Session.updateFunds h p updatePrices).
Proof.
  unfold Session.updateFunds.
  repeat keep_step; try apply scroll_retrieveFunds; try apply scroll_refresh; quiet.
Qed.

Lemma scroll_updateTimer h p : keeps scrollBounded (Session.updateTimer h p).
Proof.
  unfold Session.updateTimer, Session.arm.
  repeat keep_step; try apply scroll_updateFunds; try apply scroll_log; quiet.
Qed.

Lemma scroll_handleKeyPress h p key s :
  scrollBounded s -> scrollBounded (Session.after (Session.handleKeyPress h p key) s).
Proof.
  intros Hs. unfold Session.handleKeyPress. rewrite after_bind. simpl.
  rewrite after_get.
  destruct key;
    try (lazymatch goal with
         | |- context [Session.readOn "l"] => fail
         | _ => idtac
         end;
         refine ((_ : keeps scrollBounded _) s Hs); repeat keep_step;
         try apply scroll_switchAdvisor; try apply scroll_refresh;
         try (apply scroll_setMode; discriminate); try apply scroll_log;
         try apply scroll_readOn_trades; try apply scroll_retrieveFunds;
         try apply scroll_shownCharts; try quiet).
  (* l *)
  rewrite after_bind.
  destruct (snd (Session.readOn "l" (length (Bot.logs (Session.bot s))) s));
    [|apply scroll_refresh]; apply scroll_readOn_logs; exact Hs.
Qed.

Lemma scroll_step h s ev s' :
  scrollBounded s -> Session.step h s ev = Some s' -> scrollBounded s'.
Proof.
  intros Hs Hstep. destruct ev; simpl in Hstep.
  - destruct (Session.ui s); inversion Hstep; subst. apply scroll_handleKeyPress. exact Hs.
  - inversion Hstep; subst. apply scroll_log. exact Hs.
  - destruct (Session.ui s); inversion Hstep; subst.
    unfold Session.handleResize. afters. apply scroll_refresh.
    intros pageSize' n _ _ Hn. discriminate.
  - inversion Hstep; subst. apply scroll_refresh.
    apply (scroll_same s); auto.
  - destruct (Bot.trades (Session.bot s) !! i); inversion Hstep; subst.
    apply (scroll_same s); auto.
  - inversion Hstep; subst. apply scroll_refresh. exact Hs.
  - inversion Hstep; subst. refine ((_ : keeps scrollBounded _) s Hs).
    unfold Session.refreshChart. repeat keep_step; apply scroll_refresh.
  - destruct (Session.ui s); inversion Hstep; subst.
    refine ((_ : keeps scrollBounded _) s Hs).
    unfold Session.everySecond. repeat keep_step; apply scroll_refresh.
  - destruct (Session.resync s !! i) as [due|]; [|discriminate].
    destruct (due <=? Session.now s)%N; inversion Hstep; subst.
    apply scroll_updateTimer. apply (scroll_same s); auto.
  - inversion Hstep; subst. apply (scroll_same s); auto.
Qed.

Lemma scroll_run h evs : forall s s',
  scrollBounded s -> Session.run h s evs = Some s' -> scrollBounded s'.
Proof.
  induction evs as [|ev evs IH]; simpl; intros s s' Hs Hrun.
  - inversion Hrun; subst. exact Hs.
  - destruct (Session.step h s ev) as [s1|] eqn:Hstep; [|discriminate].
    eapply IH; [|eassumption]. eapply scroll_step; eassumption.
Qed.

Lemma length_slice_back {A} (l : list A) (k : Z) :
  (0 < k <= Z.of_nat (length l))%Z ->
  length (Session.slice (- k) l) = Z.to_nat k.
Proof.
  intros Hk. unfold Session.slice.
  destruct (- k <? 0)%Z eqn:Hneg; [|apply Z.ltb_ge in Hneg; lia].
  rewrite length_drop. lia.
Qed.

(** X11: on the log screen the reader never scrolls past the oldest
    entry.  From a session that has not been scrolled back, whatever
    keys are pressed, entries are logged, the screen is resized, trades
    are registered or closed and timers fire: whenever the log screen
    shows and is scrolled back by [n] entries, the window of
    [pageSize + n] entries fits in the log, and that many entries are
    drawn. *)
Theorem log_scroll_stays_within_log
    (h : Session.Host) (s : Session.t) (evs : list Session.Event) (s' : Session.t)
    (pageSize : Z) (n : nat) :
  Session.readMore s = None ->
  Session.run h s evs = Some s' ->
  Session.modeIs "l" s' = true ->
  Session.ui s' = Some pageSize ->
  Session.readMore s' = Some (S n) ->
  (pageSize + Z.of_nat (S n) <= Z.of_nat (length (Bot.logs (Session.bot s'))))%Z /\
  ((0 <= pageSize)%Z ->
   length (Session.window s' pageSize (Bot.logs (Session.bot s')))
   = Z.to_nat (pageSize + Z.of_nat (S n))).
Proof.
  intros Hfresh Hrun Hl Hp Hn.
  assert (Hs' : scrollBounded s').
  { eapply scroll_run; [|eassumption]. intros pg k _ _ Hk. congruence. }
  specialize (Hs' pageSize n Hl Hp Hn). split; [exact Hs'|].
  intros Hpos. unfold Session.window. rewrite Hn. simpl default.
  apply length_slice_back. lia.
Qed.

Lemma slice_back_snoc {A} (l : list A) (x : A) (k : Z) :
  (0 < k)%Z ->
  Session.slice (- (k + 1)) (l ++ [x]) = Session.slice (- k) l ++ [x].
Proof.
  intros Hk. unfold Session.slice.
  destruct (- (k + 1) <? 0)%Z eqn:H1; [|apply Z.ltb_ge in H1; lia].
  destruct (- k <? 0)%Z eqn:H2; [|apply Z.ltb_ge in H2; lia].
  rewrite length_app. simpl.
  replace (Z.max (Z.of_nat (length l + 1) + - (k + 1)) 0)
    with (Z.max (Z.of_nat (length l) + - k) 0) by lia.
  apply drop_app_le. lia.
Qed.

(** X12: while the log screen is scrolled back, a new log entry does
    not move what is shown: [log] draws the entries it drew before,
    followed by the new one, and counts one more entry as scrolled past.
    (With [readMore] unset or 0 the window slides instead.) *)
Theorem log_view_is_stable (s : Session.t) (ev : LogEvent) (pageSize : Z) (n : nat) :
  Session.modeIs "l" s = true ->
  Session.ui s = Some pageSize ->
  Session.readMore s = Some (S n) ->
  (0 < pageSize + Z.of_nat (S n))%Z ->
  exists s1 s2 shown,
    Session.refresh s = (s1, [Session.rendered (Session.renderLogs shown)], inr tt) /\
    Session.log ev s
    = (s2, [Session.rendered (Session.renderLogs (shown ++ [ev]))], inr tt) /\
    Session.readMore s2 = Some (S (S n)) /\
    Bot.logs (Session.bot s2) = Bot.logs (Session.bot s) ++ [ev].
Proof.
  intros Hl Hp Hn Hpos. pose proof Hl as Hmode. apply sameId_true in Hmode.
  destruct (refresh_spec s) as (a1 & c1 & Hr1 & _). rewrite Hp in Hr1.
  set (t2 := Session.with_readMore
               (Session.with_bot s (Bot.log (Session.bot s) ev)) (Some (S (S n)))).
  destruct (refresh_spec t2) as (a2 & c2 & Hr2 & _). simpl in Hr2. rewrite Hp in Hr2.
  assert (Hdraw : forall t a c,
            Bot.currentMode (Session.bot t) = Some "l" ->
            Session.draw (Session.settleMode (Session.with_current t a c)) pageSize
            = [Session.renderLogs
                 (Session.window t pageSize (Bot.logs (Session.bot t)))]).
  { intros t a c Ht. unfold Session.draw, Session.settleMode. simpl. rewrite Ht.
    reflexivity. }
  eexists _, _, _. split; [|split; [|split]].
  - rewrite Hr1, (Hdraw s a1 c1 Hmode). reflexivity.
  - unfold Session.log. unfold Session.bind at 1. unfold Session.modify at 1.
    unfold Session.bind at 1. unfold Session.get at 1.
    assert (Hl' : Session.modeIs "l" (Session.with_bot s (Bot.log (Session.bot s) ev))
                  = true) by exact Hl.
    rewrite Hl'.
    change (Session.readMore (Session.with_bot s (Bot.log (Session.bot s) ev)))
      with (Session.readMore s).
    rewrite Hn.
    unfold Session.bind at 1. unfold Session.modify at 1. fold t2. rewrite Hr2.
    rewrite (Hdraw t2 a2 c2 Hmode). simpl.
    unfold Session.window. subst t2. simpl. rewrite Hn. simpl default.
    replace (- (pageSize + Z.of_nat (S (S n))))%Z
      with (- ((pageSize + Z.of_nat (S n)) + 1))%Z by lia.
    rewrite slice_back_snoc by exact Hpos. reflexivity.
  - reflexivity.
  - reflexivity.
Qed.

(** ** Moving between advisors, charts and trades *)

Lemma findIndexed_NoDup (l : list string) : forall i x,
  NoDup l -> l !! i = Some x -> findIndexed (Session.sameId (Some x)) l = Some (i, x).
Proof.
  induction l as [|y l IH]; intros i x Hnd Hi; [discriminate|].
  apply NoDup_cons in Hnd as [Hy Hnd]. simpl.
  destruct i as [|i]; simpl in Hi.
  - inversion Hi; subst. rewrite String.eqb_refl. reflexivity.
  - destruct (String.eqb_spec y x) as [->|Hne].
    + exfalso. apply Hy. apply list_elem_of_lookup. eauto.
    + rewrite (IH i x Hnd Hi). reflexivity.
Qed.

Lemma nextOf_lookup (l : list string) i x :
  NoDup l -> l !! i = Some x ->
  Session.nextOf l (Some x) = l !! ((i + 1) mod length l)%nat.
Proof.
  intros Hnd Hi. unfold Session.nextOf. rewrite (findIndexed_NoDup l i x Hnd Hi).
  pose proof (lookup_lt_Some _ _ _ Hi) as Hlt.
  destruct (i + 1 <? length l)%nat eqn:Hnext.
  - apply Nat.ltb_lt in Hnext. rewrite Nat.mod_small by exact Hnext. reflexivity.
  - apply Nat.ltb_ge in Hnext. replace (i + 1)%nat with (length l) by lia.
    rewrite Nat.Div0.mod_same. reflexivity.
Qed.

Lemma prevOf_lookup (l : list string) i x :
  NoDup l -> l !! i = Some x ->
  Session.prevOf l (Some x) = l !! ((i + (length l - 1)) mod length l)%nat.
Proof.
  intros Hnd Hi. unfold Session.prevOf. rewrite (findIndexed_NoDup l i x Hnd Hi).
  pose proof (lookup_lt_Some _ _ _ Hi) as Hlt.
  destruct i as [|i].
  - simpl. rewrite Nat.mod_small by lia. reflexivity.
  - replace (S i + (length l - 1))%nat with (i + 1 * length l)%nat by lia.
    rewrite Nat.Div0.mod_add, Nat.mod_small by lia. reflexivity.
Qed.

Lemma next_then_prev (l : list string) x :
  NoDup l -> In x l ->
  exists y, Session.nextOf l (Some x) = Some y /\ In y l /\
            Session.prevOf l (Some y) = Some x.
Proof.
  intros Hnd Hin. apply list_elem_of_In, list_elem_of_lookup in Hin as [i Hi].
  pose proof (lookup_lt_Some _ _ _ Hi) as Hlt.
  assert (Hj : ((i + 1) mod length l < length l)%nat) by (apply Nat.mod_upper_bound; lia).
  destruct (lookup_lt_is_Some_2 l _ Hj) as [y Hy].
  exists y. rewrite (nextOf_lookup l i x Hnd Hi). split; [exact Hy|].
  split; [apply list_elem_of_In, list_elem_of_lookup; eauto|].
  rewrite (prevOf_lookup l _ y Hnd Hy), <- Hi. f_equal.
  rewrite Nat.Div0.add_mod_idemp_l.
  replace (i + 1 + (length l - 1))%nat with (i + 1 * length l)%nat by lia.
  rewrite Nat.Div0.mod_add. apply Nat.mod_small. exact Hlt.
Qed.

Lemma prev_then_next (l : list string) x :
  NoDup l -> In x l ->
  exists y, Session.prevOf l (Some x) = Some y /\ In y l /\
            Session.nextOf l (Some y) = Some x.
Proof.
  intros Hnd Hin. apply list_elem_of_In, list_elem_of_lookup in Hin as [i Hi].
  pose proof (lookup_lt_Some _ _ _ Hi) as Hlt.
  assert (Hj : ((i + (length l - 1)) mod length l < length l)%nat)
    by (apply Nat.mod_upper_bound; lia).
  destruct (lookup_lt_is_Some_2 l _ Hj) as [y Hy].
  exists y. rewrite (prevOf_lookup l i x Hnd Hi). split; [exact Hy|].
  split; [apply list_elem_of_In, list_elem_of_lookup; eauto|].
  rewrite (nextOf_lookup l _ y Hnd Hy), <- Hi. f_equal.
  rewrite Nat.Div0.add_mod_idemp_l.
  replace (i + (length l - 1) + 1)%nat with (i + 1 * length l)%nat by lia.
  rewrite Nat.Div0.mod_add. apply Nat.mod_small. exact Hlt.
Qed.

Lemma after_refresh s :
  Session.isSet (Session.currentAdvisor s) = true \/ Bot.advisors (Session.bot s) = [] ->
  Session.after Session.refresh s =
  match Session.ui s with
  | None => s
  | Some _ => Session.settleMode s
  end.
Proof.
  intros Hset. destruct (refresh_spec s) as (a & c & Hr & Hsame).
  destruct (Hsame Hset) as [-> ->]. unfold Session.after. rewrite Hr.
  destruct (Session.ui s); [|reflexivity]. simpl. rewrite with_current_same. reflexivity.
Qed.

Lemma after_refresh_data s :
  Bot.advisors (Session.bot (Session.after Session.refresh s)) = Bot.advisors (Session.bot s) /\
  Bot.trades (Session.bot (Session.after Session.refresh s)) = Bot.trades (Session.bot s) /\
  Session.chartKeys (Session.after Session.refresh s) = Session.chartKeys s /\
  Session.enabled (Session.after Session.refresh s) = Session.enabled s /\
  Session.ui (Session.after Session.refresh s) = Session.ui s.
Proof.
  destruct (refresh_spec s) as (a & c & Hr & _). unfold Session.after. rewrite Hr.
  destruct (Session.ui s) eqn:Hui; simpl; auto.
Qed.

Lemma bind_runs {A B} (m : Session.Action A) (k : A -> Session.Action B)
    s s1 out1 a s2 out2 r :
  m s = (s1, out1, inr a) -> k a s1 = (s2, out2, r) ->
  Session.bind m k s = (s2, out1 ++ out2, r).
Proof.
  intros Hm Hk. unfold Session.bind. rewrite Hm, Hk. reflexivity.
Qed.

Lemma refresh_runs s :
  Session.isSet (Session.currentAdvisor s) = true \/ Bot.advisors (Session.bot s) = [] ->
  exists out,
    Session.refresh s =
    (match Session.ui s with
     | None => s
     | Some _ => Session.settleMode s
     end, out, inr tt).
Proof.
  intros Hset. destruct (refresh_spec s) as (a & c & Hr & Hsame).
  destruct (Hsame Hset) as [-> ->]. rewrite with_current_same in Hr.
  rewrite Hr. destruct (Session.ui s); eauto.
Qed.

Lemma NoDup_list_filter {A} (f : A -> bool) (l : list A) :
  NoDup l -> NoDup (List.filter f l).
Proof.
  induction l as [|x l IH]; simpl; intros Hnd; [constructor|].
  apply NoDup_cons in Hnd as [Hx Hnd].
  destruct (f x); [|auto]. apply NoDup_cons. split; [|auto].
  intros Hin. apply Hx. apply list_elem_of_In, filter_In in Hin as [Hin _].
  apply list_elem_of_In. exact Hin.
Qed.

Lemma returns_runs {A} (m : Session.Action A) s s' out a :
  m s = (s', out, inr a) -> returns m s /\ Session.after m s = s'.
Proof.
  intros H. unfold returns, Session.after. rewrite H. simpl. eauto.
Qed.

Section Navigation.

Variable h : Session.Host.
Variable p : Session.Provider.

Local Abbreviation shown s advisor :=
  (List.filter (fun chartId =>
                  existsb (String.eqb chartId) (Bot.Advisor.chartIds advisor)
                  && Session.enabled s chartId) (Session.chartKeys s)).

(** The state [c] and [x] leave when the advisor shown is loaded. *)
Lemma press_chart key s advisor :
  key = Session.keyC \/ key = Session.keyX ->
  Session.modeIn ["c"; "z"] s = true ->
  Session.isSet (Session.currentAdvisor s) = true ->
  Bot.getAdvisor (Bot.advisors (Session.bot s)) (Session.keyOf (Session.currentAdvisor s))
  = Some advisor ->
  exists out,
    Session.handleKeyPress h p key s =
    (let chartId :=
       match key with
       | Session.keyC => Session.nextOf (shown s advisor) (Session.currentChart s)
       | _ => Session.prevOf (shown s advisor) (Session.currentChart s)
       end in
     let s1 := Session.with_mode
                 (Session.with_current s (Session.currentAdvisor s) chartId) (Some "c") in
     match Session.ui s with
     | None => s1
     | Some _ => Session.settleMode s1
     end, out, inr tt).
Proof.
  intros Hkey Hmode Hset Hadv.
  pose proof (shownCharts_known s advisor Hadv) as Hshown.
  set (chartId := match key with
                  | Session.keyC => Session.nextOf (shown s advisor) (Session.currentChart s)
                  | _ => Session.prevOf (shown s advisor) (Session.currentChart s)
                  end).
  set (s1 := Session.with_mode
               (Session.with_current s (Session.currentAdvisor s) chartId) (Some "c")).
  destruct (refresh_runs s1) as [out Hr]; [left; exact Hset|].
  change (Session.ui s1) with (Session.ui s) in Hr.
  eexists. cbv zeta. fold chartId. fold s1. unfold Session.handleKeyPress.
  eapply bind_runs; [reflexivity|].
  destruct Hkey; subst key; rewrite Hmode;
    (eapply bind_runs;
     [eapply bind_runs; [exact Hshown|reflexivity]
     |eapply bind_runs; [reflexivity|exact Hr]]).
Qed.

Lemma settleMode_chart s chartId :
  Bot.currentMode (Session.bot s) = Some "c" ->
  Session.currentChart s = Some chartId -> chartId <> "" ->
  Session.settleMode s = s.
Proof.
  intros Hmode Hchart Hne. unfold Session.settleMode.
  rewrite Hmode, Hchart, settledMode_chart.
  - destruct s as [b]; destruct b; simpl in *. subst. reflexivity.
  - unfold Session.isSet. apply negb_true_iff, String.eqb_neq. exact Hne.
Qed.

(** X13: [c] and [x] undo each other.  On the chart screen, with the
    advisor shown loaded and the chart shown one of its enabled charts,
    pressing [c] then [x], or [x] then [c], shows the same chart again;
    neither key throws. *)
Theorem next_and_previous_chart_cancel (s : Session.t) advisor chartId first second :
  (first = Session.keyC /\ second = Session.keyX) \/
  (first = Session.keyX /\ second = Session.keyC) ->
  NoDup (Session.chartKeys s) ->
  ~ In "" (Session.chartKeys s) ->
  Session.modeIn ["c"; "z"] s = true ->
  Session.isSet (Session.currentAdvisor s) = true ->
  Bot.getAdvisor (Bot.advisors (Session.bot s)) (Session.keyOf (Session.currentAdvisor s))
  = Some advisor ->
  Session.currentChart s = Some chartId ->
  In chartId (shown s advisor) ->
  returns (Session.handleKeyPress h p first) s /\
  returns (Session.handleKeyPress h p second) (press h p first s) /\
  Session.currentChart (press h p second (press h p first s)) = Some chartId /\
  Session.currentAdvisor (press h p second (press h p first s)) = Session.currentAdvisor s /\
  Session.modeIs "c" (press h p second (press h p first s)) = true.
Proof.
  intros Hkeys Hnd Hempty Hmode Hset Hadv Hchart Hin.
  assert (Hnd' : NoDup (shown s advisor)) by (apply NoDup_list_filter; exact Hnd).
  assert (Hfirst : first = Session.keyC \/ first = Session.keyX) by tauto.
  assert (Hsecond : second = Session.keyC \/ second = Session.keyX) by tauto.
  destruct (press_chart first s advisor Hfirst Hmode Hset Hadv) as [out1 H1].
  assert (Hmid : exists mid,
            In mid (shown s advisor) /\
            match first with
            | Session.keyC => Session.nextOf (shown s advisor) (Session.currentChart s)
            | _ => Session.prevOf (shown s advisor) (Session.currentChart s)
            end = Some mid /\
            match second with
            | Session.keyC => Session.nextOf (shown s advisor) (Some mid)
            | _ => Session.prevOf (shown s advisor) (Some mid)
            end = Some chartId).
  { rewrite Hchart. destruct Hkeys as [[-> ->]|[-> ->]].
    - destruct (next_then_prev _ chartId Hnd' Hin) as (y & Hy & Hiny & Hback). eauto.
    - destruct (prev_then_next _ chartId Hnd' Hin) as (y & Hy & Hiny & Hback). eauto. }
  destruct Hmid as (mid & Hinmid & Hgo & Hback).
  cbv zeta in H1. rewrite Hgo in H1.
  assert (Hmidne : mid <> "").
  { intros ->. apply Hempty. apply filter_In in Hinmid. tauto. }
  set (s1 := Session.with_mode
               (Session.with_current s (Session.currentAdvisor s) (Some mid)) (Some "c")) in *.
  assert (Hs1 : press h p first s = s1).
  { unfold press, Session.after. rewrite H1.
    destruct (Session.ui s); [|reflexivity]. simpl.
    apply (settleMode_chart s1 mid); [reflexivity|reflexivity|exact Hmidne]. }
  destruct (press_chart second s1 advisor Hsecond eq_refl Hset Hadv) as [out2 H2].
  cbv zeta in H2. change (shown s1 advisor) with (shown s advisor) in H2.
  change (Session.currentChart s1) with (Some mid) in H2. rewrite Hback in H2.
  change (Session.ui s1) with (Session.ui s) in H2.
  assert (Hne : chartId <> "").
  { intros ->. apply Hempty. apply filter_In in Hin. tauto. }
  set (s2 := Session.with_mode
               (Session.with_current s1 (Session.currentAdvisor s1) (Some chartId))
               (Some "c")) in *.
  assert (Hs2 : press h p second s1 = s2).
  { unfold press, Session.after. rewrite H2.
    destruct (Session.ui s); [|reflexivity]. simpl.
    apply (settleMode_chart s2 chartId); [reflexivity|reflexivity|exact Hne]. }
  rewrite Hs1, Hs2.
  split; [apply (returns_runs _ _ _ _ _ H1)|].
  split; [apply (returns_runs _ _ _ _ _ H2)|].
  repeat split; reflexivity.
Qed.

Lemma nextOf_In (l : list string) current :
  l <> [] -> exists y, Session.nextOf l current = Some y /\ In y l.
Proof.
  intros Hl. unfold Session.nextOf.
  assert (H0 : exists y, l !! 0%nat = Some y /\ In y l).
  { destruct l as [|y l]; [congruence|]. exists y. simpl. auto. }
  destruct (findIndexed _ l) as [[index x]|]; [|exact H0].
  destruct (index + 1 <? length l)%nat eqn:Hnext; [|exact H0].
  apply Nat.ltb_lt in Hnext.
  destruct (lookup_lt_is_Some_2 l _ Hnext) as [y Hy].
  exists y. split; [exact Hy|]. apply list_elem_of_In, list_elem_of_lookup. eauto.
Qed.

Lemma getAdvisor_key l advisorId :
  In advisorId (map fst l) -> is_Some (Bot.getAdvisor l advisorId).
Proof.
  intros Hin. apply in_map_iff in Hin as ([k a] & <- & Hin).
  eapply getAdvisor_found. exact Hin.
Qed.

(** The state [a] leaves. *)
Lemma press_advisor s :
  Bot.advisors (Session.bot s) <> [] ->
  ~ In "" (map fst (Bot.advisors (Session.bot s))) ->
  returns (Session.handleKeyPress h p Session.keyA) s /\
  Bot.advisors (Session.bot (press h p Session.keyA s)) = Bot.advisors (Session.bot s) /\
  Session.currentAdvisor (press h p Session.keyA s)
  = Session.nextOf (map fst (Bot.advisors (Session.bot s))) (Session.currentAdvisor s).
Proof.
  intros Hsome Hempty.
  assert (Hkeys : map fst (Bot.advisors (Session.bot s)) <> []).
  { destruct (Bot.advisors (Session.bot s)); [congruence|discriminate]. }
  destruct (nextOf_In _ (Session.currentAdvisor s) Hkeys) as (next & Hnext & Hin).
  destruct (getAdvisor_key _ _ Hin) as [advisor Hadv].
  pose proof (switchAdvisor_known s (Some next) advisor Hadv) as Hswitch.
  set (s1 := Session.with_mode
               (Session.with_current s (Some next)
                  (head (List.filter
                           (fun chartId =>
                              existsb (String.eqb chartId) (Bot.Advisor.chartIds advisor)
                              && Session.enabled s chartId) (Session.chartKeys s))))
               (Some "c")).
  destruct (refresh_runs s1) as [out Hr].
  { left. simpl. unfold Session.isSet. apply negb_true_iff, String.eqb_neq.
    intros ->. contradiction. }
  assert (Hrun : exists outs,
            Session.handleKeyPress h p Session.keyA s
            = (match Session.ui s with
               | None => s1
               | Some _ => Session.settleMode s1
               end, outs, inr tt)).
  { eexists. unfold Session.handleKeyPress. eapply bind_runs; [reflexivity|].
    cbv beta iota.
    destruct (map fst (Bot.advisors (Session.bot s))) as [|k rest] eqn:Hk; [congruence|].
    rewrite Hnext.
    eapply bind_runs; [exact Hswitch|]. eapply bind_runs; [reflexivity|exact Hr]. }
  destruct Hrun as [outs Hrun].
  destruct (returns_runs _ _ _ _ _ Hrun) as [Hret Hafter].
  split; [exact Hret|]. unfold press. rewrite Hafter, Hnext.
  destruct (Session.ui s); split; reflexivity.
Qed.

(** X14: [a] walks round the loaded advisors.  With distinct, non-empty
    advisor ids and the advisor shown being number [i] of them, after
    [k] presses of [a] the advisor shown is number [(i + k) mod n]; after
    as many presses as there are advisors it is the same advisor again.
    No press throws. *)
Theorem advisors_cycle (s : Session.t) (i : nat) (advisorId : string) (k : nat) :
  NoDup (map fst (Bot.advisors (Session.bot s))) ->
  ~ In "" (map fst (Bot.advisors (Session.bot s))) ->
  map fst (Bot.advisors (Session.bot s)) !! i = Some advisorId ->
  Session.currentAdvisor s = Some advisorId ->
  Session.currentAdvisor (Nat.iter k (press h p Session.keyA) s)
  = map fst (Bot.advisors (Session.bot s))
      !! ((i + k) mod length (Bot.advisors (Session.bot s)))%nat /\
  Session.currentAdvisor
    (Nat.iter (length (Bot.advisors (Session.bot s))) (press h p Session.keyA) s)
  = Some advisorId /\
  returns (Session.handleKeyPress h p Session.keyA) (Nat.iter k (press h p Session.keyA) s).
Proof.
  intros Hnd Hempty Hi Hcur.
  set (keys := map fst (Bot.advisors (Session.bot s))) in *.
  pose proof (lookup_lt_Some _ _ _ Hi) as Hlt.
  assert (Hlen : length keys = length (Bot.advisors (Session.bot s)))
    by (unfold keys; apply length_map).
  assert (Hiter : forall n,
            Bot.advisors (Session.bot (Nat.iter n (press h p Session.keyA) s))
            = Bot.advisors (Session.bot s) /\
            Session.currentAdvisor (Nat.iter n (press h p Session.keyA) s)
            = keys !! ((i + n) mod length keys)%nat).
  { induction n as [|n [IHa IHc]]; simpl.
    - split; [reflexivity|]. rewrite Nat.add_0_r, Nat.mod_small by exact Hlt. congruence.
    - destruct (press_advisor (Nat.iter n (press h p Session.keyA) s)) as (_ & Ha & Hc).
      + rewrite IHa. intros H0. rewrite Hlen, H0 in Hlt. simpl in Hlt. lia.
      + rewrite IHa. exact Hempty.
      + split; [congruence|]. rewrite Hc, IHa, IHc. fold keys.
        assert (Hj : ((i + n) mod length keys < length keys)%nat)
          by (apply Nat.mod_upper_bound; lia).
        destruct (lookup_lt_is_Some_2 keys _ Hj) as [y Hy]. rewrite Hy.
        rewrite (nextOf_lookup keys _ y Hnd Hy).
        rewrite Nat.Div0.add_mod_idemp_l. f_equal. f_equal. lia. }
  split; [rewrite <- Hlen; apply Hiter|]. split.
  - destruct (Hiter (length (Bot.advisors (Session.bot s)))) as [_ ->].
    rewrite <- Hlen.
    replace (i + length keys)%nat with (i + 1 * length keys)%nat by lia.
    rewrite Nat.Div0.mod_add, Nat.mod_small by exact Hlt. exact Hi.
  - apply press_advisor.
    + destruct (Hiter k) as [-> _]. intros H0. rewrite Hlen, H0 in Hlt. simpl in Hlt. lia.
    + destruct (Hiter k) as [-> _]. exact Hempty.
Qed.

(** The mode [d] leaves. *)
Lemma press_data s :
  returns (Session.handleKeyPress h p Session.keyD) s /\
  Bot.currentMode (Session.bot (press h p Session.keyD s))
  = Some (if Session.modeIs "d1" s then "d2"
          else if Session.modeIs "d2" s then "d3" else "d1").
Proof.
  set (mode := if Session.modeIs "d1" s then "d2"
               else if Session.modeIs "d2" s then "d3" else "d1").
  destruct (refresh_spec (Session.with_mode s (Some mode))) as (a & c & Hr & _).
  change (Session.ui (Session.with_mode s (Some mode))) with (Session.ui s) in Hr.
  assert (Hset : Session.handleKeyPress h p Session.keyD s
                 = (Session.after Session.refresh (Session.with_mode s (Some mode)),
                    [] ++ [] ++ snd (fst (Session.refresh (Session.with_mode s (Some mode)))),
                    inr tt)).
  { unfold Session.handleKeyPress. eapply bind_runs; [reflexivity|].
    cbv beta iota.
    eapply (bind_runs _ _ s (Session.with_mode s (Some mode)) [] tt).
    - unfold mode.
      destruct (Session.modeIs "d1" s); [reflexivity|].
      destruct (Session.modeIs "d2" s); reflexivity.
    - pose proof (refresh_returns (Session.with_mode s (Some mode))) as Hok.
      unfold Session.after.
      destruct (Session.refresh (Session.with_mode s (Some mode))) as [[s' out] r].
      simpl in *. subst r. reflexivity. }
  destruct (returns_runs _ _ _ _ _ Hset) as [Hret Hafter].
  split; [exact Hret|]. unfold press. rewrite Hafter. unfold Session.after. rewrite Hr.
  destruct (Session.ui s); [|reflexivity]. simpl. unfold mode.
  destruct (Session.modeIs "d1" s); [reflexivity|].
  destruct (Session.modeIs "d2" s); reflexivity.
Qed.

(** X15: [d] walks round the three data views.  Whatever the screen
    shows, after [d] it shows the first, second or third data view (the
    first one unless a data view was showing); three more presses come
    back to the same view.  [d] never throws. *)
Theorem data_views_cycle (s : Session.t) :
  returns (Session.handleKeyPress h p Session.keyD) s /\
  (Bot.currentMode (Session.bot (press h p Session.keyD s)) = Some "d1" \/
   Bot.currentMode (Session.bot (press h p Session.keyD s)) = Some "d2" \/
   Bot.currentMode (Session.bot (press h p Session.keyD s)) = Some "d3") /\
  (Session.modeIn ["d1"; "d2"] s = false ->
   Bot.currentMode (Session.bot (press h p Session.keyD s)) = Some "d1") /\
  Bot.currentMode
    (Session.bot (Nat.iter 3 (press h p Session.keyD) (press h p Session.keyD s)))
  = Bot.currentMode (Session.bot (press h p Session.keyD s)).
Proof.
  assert (Hnext : forall t mode,
            Bot.currentMode (Session.bot t) = Some mode ->
            Bot.currentMode (Session.bot (press h p Session.keyD t))
            = Some (if String.eqb "d1" mode then "d2"
                    else if String.eqb "d2" mode then "d3" else "d1")).
  { intros t mode Ht. destruct (press_data t) as [_ ->].
    unfold Session.modeIs, Session.sameId. rewrite Ht. reflexivity. }
  assert (Hcycle : forall t mode,
            mode = "d1" \/ mode = "d2" \/ mode = "d3" ->
            Bot.currentMode (Session.bot t) = Some mode ->
            Bot.currentMode
              (Session.bot
                 (press h p Session.keyD (press h p Session.keyD (press h p Session.keyD t))))
            = Some mode).
  { intros t mode Hm Ht.
    pose proof (Hnext _ _ Ht) as H2. pose proof (Hnext _ _ H2) as H3.
    rewrite (Hnext _ _ H3). destruct Hm as [->|[->| ->]]; reflexivity. }
  destruct (press_data s) as [Hret Hmode].
  split; [exact Hret|]. split; [|split].
  - rewrite Hmode. destruct (Session.modeIs "d1" s); [auto|].
    destruct (Session.modeIs "d2" s); auto.
  - intros Hin. rewrite Hmode. unfold Session.modeIn in Hin.
    unfold Session.modeIs, Session.sameId.
    destruct (Bot.currentMode (Session.bot s)) as [mode|]; [|reflexivity].
    simpl in Hin. rewrite orb_false_r in Hin. apply orb_false_iff in Hin as [H1 H2].
    rewrite (String.eqb_sym "d1"), H1, (String.eqb_sym "d2"), H2. reflexivity.
  - change (Nat.iter 3 (press h p Session.keyD) (press h p Session.keyD s))
      with (press h p Session.keyD
              (press h p Session.keyD (press h p Session.keyD (press h p Session.keyD s)))).
    refine (eq_trans (Hcycle _ _ _ Hmode) (eq_sym Hmode)).
    destruct (Session.modeIs "d1" s); [auto|].
    destruct (Session.modeIs "d2" s); auto.
Qed.

End Navigation.

Section OpenTrades.

Variable h : Session.Host.
Variable p : Session.Provider.

Local Abbreviation opens s := (List.filter Trade.isOpen (Bot.trades (Session.bot s))).

Lemma filter_filter_implied {A} (f g : A -> bool) (l : list A) :
  (forall x, f x = true -> g x = true) ->
  List.filter f (List.filter g l) = List.filter f l.
Proof.
  intros Himp. induction l as [|x l IH]; simpl; [reflexivity|].
  destruct (g x) eqn:Hg; simpl.
  - rewrite IH. reflexivity.
  - rewrite IH. destruct (f x) eqn:Hf; [|reflexivity].
    apply Himp in Hf. congruence.
Qed.

Lemma findIndexed_first {A} (f : A -> bool) (l : list A) i x :
  l !! i = Some x -> f x = true ->
  (forall j y, l !! j = Some y -> f y = true -> j = i) ->
  findIndexed f l = Some (i, x).
Proof.
  intros Hi Hx Huniq. destruct (findIndexed f l) as [[j y]|] eqn:Hfind.
  - apply findIndexed_Some in Hfind as [Hj Hy].
    pose proof (Huniq j y Hj Hy). subst j. congruence.
  - pose proof (findIndexed_None f l i x Hfind Hi). congruence.
Qed.

Lemma shown_unique s i j ti tj :
  atMostOneOpen (Bot.trades (Session.bot s)) ->
  opens s !! i = Some ti -> opens s !! j = Some tj ->
  Session.shownTrade s ti = true -> Session.shownTrade s tj = true -> i = j.
Proof.
  intros Hone Hi Hj Hti Htj.
  destruct (decide (i = j)) as [|Hne]; [assumption|exfalso].
  unfold Session.shownTrade in Hti, Htj.
  apply andb_true_iff in Hti as [Hai Hci]. apply andb_true_iff in Htj as [Haj Hcj].
  apply sameId_true in Hai, Hci, Haj, Hcj.
  assert (Hopen : forall k t, opens s !! k = Some t -> Trade.isOpen t = true).
  { intros k t Hk. apply list_elem_of_lookup_2, list_elem_of_In, filter_In in Hk. tauto. }
  assert (Hfor : forall t, Session.currentAdvisor s = Some (Trade.advisorId t) ->
                   Session.currentChart s = Some (Trade.chartId t) ->
                   Trade.isOpen t = true ->
                   Bot.openFor (Trade.advisorId ti) (Trade.chartId ti) t = true).
  { intros t Ha Hc Ho. apply openFor_true. repeat split; congruence. }
  pose proof (filter_two (Bot.openFor (Trade.advisorId ti) (Trade.chartId ti))
                (opens s) i j ti tj Hi Hj Hne
                (Hfor ti Hai Hci (Hopen _ _ Hi)) (Hfor tj Haj Hcj (Hopen _ _ Hj))) as Htwo.
  rewrite filter_filter_implied in Htwo.
  - specialize (Hone (Trade.advisorId ti) (Trade.chartId ti)). unfold openCount in Hone. lia.
  - intros t Ht. apply openFor_true in Ht. tauto.
Qed.

(** X16: [z] always lands on an open trade.  With at least one trade
    open (and non-empty advisor ids), [z] shows the chart of an open
    trade in mode ['z'] and does not throw.  When each pair has at most
    one open trade and the screen already shows the chart of the open
    trade number [i], [z] moves to the open trade before it, and from
    the first one to the last. *)
Theorem z_shows_an_open_trade (s : Session.t) :
  opens s <> [] ->
  (forall trade, In trade (Bot.trades (Session.bot s)) -> Trade.advisorId trade <> "") ->
  returns (Session.handleKeyPress h p Session.keyZ) s /\
  Bot.currentMode (Session.bot (press h p Session.keyZ s)) = Some "z" /\
  (exists trade,
     In trade (Bot.trades (Session.bot s)) /\ Trade.isOpen trade = true /\
     Session.currentAdvisor (press h p Session.keyZ s) = Some (Trade.advisorId trade) /\
     Session.currentChart (press h p Session.keyZ s) = Some (Trade.chartId trade)) /\
  (forall i shownNow,
     atMostOneOpen (Bot.trades (Session.bot s)) ->
     Session.modeIn ["c"; "d1"; "d2"; "d3"; "v"; "z"] s = true ->
     opens s !! i = Some shownNow ->
     Session.currentAdvisor s = Some (Trade.advisorId shownNow) ->
     Session.currentChart s = Some (Trade.chartId shownNow) ->
     exists trade,
       opens s !! ((i + (length (opens s) - 1)) mod length (opens s))%nat = Some trade /\
       Session.currentAdvisor (press h p Session.keyZ s) = Some (Trade.advisorId trade) /\
       Session.currentChart (press h p Session.keyZ s) = Some (Trade.chartId trade)).
Proof.
  intros Hsome Hids.
  set (position :=
         match findIndexed (Session.shownTrade s) (opens s) with
         | Some (S tradeIndex, _) =>
             if Session.modeIn ["c"; "d1"; "d2"; "d3"; "v"; "z"] s then S tradeIndex
             else length (opens s)
         | _ => length (opens s)
         end).
  assert (Hlen : (0 < length (opens s))%nat).
  { destruct (opens s); [congruence|simpl; lia]. }
  assert (Hpos : (position - 1 < length (opens s))%nat).
  { unfold position. destruct (findIndexed _ _) as [[[|index] x]|] eqn:Hfind; try lia.
    destruct (Session.modeIn _ s); [|lia].
    apply findIndexed_Some in Hfind as [Hx _]. apply lookup_lt_Some in Hx. lia. }
  destruct (lookup_lt_is_Some_2 _ _ Hpos) as [trade Htrade].
  assert (Hin : In trade (Bot.trades (Session.bot s)) /\ Trade.isOpen trade = true).
  { apply list_elem_of_lookup_2, list_elem_of_In, filter_In in Htrade. exact Htrade. }
  set (s1 := Session.with_mode
               (Session.with_current s (Some (Trade.advisorId trade))
                                       (Some (Trade.chartId trade))) (Some "z")).
  destruct (refresh_runs s1) as [out Hr].
  { left. simpl. unfold Session.isSet. apply negb_true_iff, String.eqb_neq.
    apply Hids. tauto. }
  assert (Hrun : exists outs,
            Session.handleKeyPress h p Session.keyZ s
            = (match Session.ui s with
               | None => s1
               | Some _ => Session.settleMode s1
               end, outs, inr tt)).
  { eexists. unfold Session.handleKeyPress. eapply bind_runs; [reflexivity|].
    cbv beta iota.
    destruct (opens s) as [|first rest] eqn:Hopens; [congruence|].
    cbv zeta. fold position. rewrite Htrade.
    eapply bind_runs; [reflexivity|]. eapply bind_runs; [reflexivity|exact Hr]. }
  destruct Hrun as [outs Hrun].
  destruct (returns_runs _ _ _ _ _ Hrun) as [Hret Hafter].
  assert (Hstate : press h p Session.keyZ s
                   = Session.with_mode s1 (Bot.currentMode (Session.bot (press h p Session.keyZ s)))
                   /\ Bot.currentMode (Session.bot (press h p Session.keyZ s)) = Some "z").
  { unfold press. rewrite Hafter. destruct (Session.ui s); split; reflexivity. }
  destruct Hstate as [Hstate Hmode].
  split; [exact Hret|]. split; [exact Hmode|]. split.
  - exists trade. rewrite Hstate. simpl. tauto.
  - intros i shownNow Hone Hmodes Hi Ha Hc.
    assert (Hshown : Session.shownTrade s shownNow = true).
    { unfold Session.shownTrade. rewrite Ha, Hc. simpl. rewrite !String.eqb_refl. reflexivity. }
    assert (Hfind : findIndexed (Session.shownTrade s) (opens s) = Some (i, shownNow)).
    { apply findIndexed_first; [exact Hi|exact Hshown|].
      intros j y Hj Hy. eapply shown_unique; eassumption. }
    exists trade. rewrite Hstate. simpl. split; [|tauto].
    rewrite <- Htrade. f_equal. unfold position. rewrite Hfind, Hmodes.
    pose proof (lookup_lt_Some _ _ _ Hi) as Hlt.
    destruct i as [|i].
    + simpl. rewrite Nat.mod_small by lia. reflexivity.
    + replace (S i + (length (opens s) - 1))%nat with (i + 1 * length (opens s))%nat by lia.
      rewrite Nat.Div0.mod_add, Nat.mod_small by lia. lia.
Qed.

End OpenTrades.

(** ** Funds and the resync timer *)

Lemma bind_throws {A B} (m : Session.Action A) (k : A -> Session.Action B) s s1 out1 e :
  m s = (s1, out1, inl e) -> Session.bind m k s = (s1, out1, inl e).
Proof.
  intros Hm. unfold Session.bind. rewrite Hm. reflexivity.
Qed.

Lemma catch_returns (m : Session.Action unit) handler s s1 out1 :
  m s = (s1, out1, inr tt) -> Session.catch m handler s = (s1, out1, inr tt).
Proof.
  intros Hm. unfold Session.catch. rewrite Hm. reflexivity.
Qed.

Lemma catch_handles (m : Session.Action unit) handler s s1 out1 e s2 out2 r :
  m s = (s1, out1, inl e) -> handler e s1 = (s2, out2, r) ->
  Session.catch m handler s = (s2, out1 ++ out2, r).
Proof.
  intros Hm Hh. unfold Session.catch. rewrite Hm, Hh. reflexivity.
Qed.

(** What [refresh] and [log] leave alone. *)
Local Abbreviation sameBooks s s' :=
  (Bot.funds (Session.bot s') = Bot.funds (Session.bot s) /\
   Session.prices s' = Session.prices s /\
   Session.exchangeInfo s' = Session.exchangeInfo s /\
   Session.now s' = Session.now s /\
   Session.resync s' = Session.resync s).

Lemma refresh_books s :
  exists s' out,
    Session.refresh s = (s', out, inr tt) /\
    (forall method, ~ In (Session.asked method) out) /\
    Bot.logs (Session.bot s') = Bot.logs (Session.bot s) /\
    Bot.charts (Session.bot s') = Bot.charts (Session.bot s) /\
    sameBooks s s'.
Proof.
  destruct (refresh_spec s) as (a & c & Hr & _). rewrite Hr.
  destruct (Session.ui s).
  - eexists _, _. split; [reflexivity|]. split.
    + intros method Hin. apply in_map_iff in Hin as (r & Hr' & _). discriminate.
    + simpl. auto 10.
  - eexists _, _. split; [reflexivity|]. split; [intros method []|].
    auto 10.
Qed.

Lemma log_books ev s :
  exists s' out,
    Session.log ev s = (s', out, inr tt) /\
    (forall method, ~ In (Session.asked method) out) /\
    Bot.logs (Session.bot s') = Bot.logs (Session.bot s) ++ [ev] /\
    Bot.charts (Session.bot s') = Bot.charts (Session.bot s) /\
    sameBooks s s'.
Proof.
  set (s1 := Session.with_bot s (Bot.log (Session.bot s) ev)).
  assert (Hcase : forall t,
            Bot.logs (Session.bot t) = Bot.logs (Session.bot s) ++ [ev] ->
            Bot.charts (Session.bot t) = Bot.charts (Session.bot s) ->
            sameBooks s t ->
            exists s' out,
              Session.refresh t = (s', out, inr tt) /\
              (forall method, ~ In (Session.asked method) out) /\
              Bot.logs (Session.bot s') = Bot.logs (Session.bot s) ++ [ev] /\
              Bot.charts (Session.bot s') = Bot.charts (Session.bot s) /\
              sameBooks s s').
  { intros t Hlogs Hcharts (H1 & H2 & H3 & H4 & H5).
    destruct (refresh_books t) as (s' & out & Hr & Hask & Hl & Hc & G1 & G2 & G3 & G4 & G5).
    exists s', out. split; [exact Hr|]. split; [exact Hask|].
    repeat split; congruence. }
  unfold Session.log. unfold Session.bind at 1. unfold Session.modify at 1.
  unfold Session.bind at 1. unfold Session.get at 1. fold s1.
  destruct (Session.modeIs "l" s1).
  - destruct (Session.readMore s1) as [[|n]|].
    + destruct (Hcase s1) as (s' & out & Hr & Hrest); simpl; auto 10.
      rewrite Hr. eexists _, _. split; [reflexivity|]. simpl. exact Hrest.
    + unfold Session.bind at 1. unfold Session.modify at 1.
      destruct (Hcase (Session.with_readMore s1 (Some (S (S n)))))
        as (s' & out & Hr & Hrest); simpl; auto 10.
      rewrite Hr. eexists _, _. split; [reflexivity|]. simpl. exact Hrest.
    + destruct (Hcase s1) as (s' & out & Hr & Hrest); simpl; auto 10.
      rewrite Hr. eexists _, _. split; [reflexivity|]. simpl. exact Hrest.
  - eexists _, _. split; [reflexivity|]. split; [intros method []|]. simpl. auto 10.
Qed.

Section Books.

Variable h : Session.Host.
Variable p : Session.Provider.

(** Whether [retrieveFunds] asks for prices, and the prices it
    computes with. *)
Local Abbreviation fetches s updatePrices := (negb (Session.cached s) || updatePrices).

Lemma retrieveFunds_runs updatePrices s :
  exists s' out r,
    Session.retrieveFunds h p updatePrices s = (s', out, r) /\
    Session.with_prices s (Session.prices s') = s' /\
    (In (Session.asked "retrievePrices") out <-> fetches s updatePrices = true) /\
    (fetches s updatePrices = false -> Session.prices s' = Session.prices s) /\
    (forall quotes, fetches s updatePrices = true ->
       Session.retrievePrices p = Js.resolved quotes -> Session.prices s' = Some quotes) /\
    (forall e, fetches s updatePrices = true ->
       Session.retrievePrices p = Js.rejected e ->
       r = inl e /\ Session.prices s' = Session.prices s /\
       ~ In (Session.asked "retrieveBalance") out) /\
    (forall funds, r = inr funds ->
       exists balance, Session.retrieveBalance p = Js.resolved balance /\
         Session.calculateFunds h balance (Session.prices s') = inr funds).
Proof.
  assert (Hid : Session.with_prices s (Session.prices s) = s) by (destruct s; reflexivity).
  unfold Session.retrieveFunds. act.
  destruct (fetches s updatePrices) eqn:Hfetch.
  - destruct (Session.retrievePrices p) as [quotes|e] eqn:Hprices; simpl.
    + destruct (Session.retrieveBalance p) as [balance|e] eqn:Hbalance; simpl.
      * destruct (Session.calculateFunds h balance (Some quotes)) as [e|funds] eqn:Hcalc;
          simpl; eexists _, _, _; (split; [reflexivity|]); simpl;
          (split; [reflexivity|]); (split; [tauto|]);
          (split; [discriminate|]); (split; [congruence|]); (split; [discriminate|]);
          intros f Hf; inversion Hf; subst; eauto.
      * eexists _, _, _; (split; [reflexivity|]); simpl;
          (split; [reflexivity|]); (split; [tauto|]);
          (split; [discriminate|]); (split; [congruence|]); (split; [discriminate|]);
          discriminate.
    + eexists _, _, _. split; [reflexivity|]. simpl. split; [exact Hid|].
      split; [tauto|]. split; [discriminate|]. split; [discriminate|]. split.
      * intros e' _ He'. inversion He'; subst. split; [reflexivity|].
        split; [reflexivity|]. intros [H|[]]. discriminate.
      * discriminate.
  - destruct (Session.retrieveBalance p) as [balance|e] eqn:Hbalance; simpl.
    + destruct (Session.calculateFunds h balance (Session.prices s)) as [e|funds] eqn:Hcalc;
        simpl; eexists _, _, _; (split; [reflexivity|]); simpl;
        (split; [exact Hid|]);
        (split; [split; [intros [H|[]]; discriminate|discriminate]|]);
        (split; [reflexivity|]); (split; [discriminate|]); (split; [discriminate|]);
        intros f Hf; inversion Hf; subst; eauto.
    + eexists _, _, _; (split; [reflexivity|]); simpl;
        (split; [exact Hid|]);
        (split; [split; [intros [H|[]]; discriminate|discriminate]|]);
        (split; [reflexivity|]); (split; [discriminate|]); (split; [discriminate|]);
        discriminate.
Qed.


Lemma updateFunds_runs updatePrices s :
  exists s' out r,
    Session.updateFunds h p updatePrices s = (s', out, r) /\
    (In (Session.asked "retrievePrices") out <-> fetches s updatePrices = true) /\
    (fetches s updatePrices = false -> Session.prices s' = Session.prices s) /\
    (forall quotes, fetches s updatePrices = true ->
       Session.retrievePrices p = Js.resolved quotes -> Session.prices s' = Some quotes) /\
    (forall e, r = inl e -> Bot.funds (Session.bot s') = Bot.funds (Session.bot s)) /\
    (forall funds, r = inr funds ->
       Bot.funds (Session.bot s') = funds /\
       exists balance, Session.retrieveBalance p = Js.resolved balance /\
         Session.calculateFunds h balance (Session.prices s') = inr funds) /\
    Bot.logs (Session.bot s') = Bot.logs (Session.bot s) /\
    Bot.charts (Session.bot s') = Bot.charts (Session.bot s) /\
    Session.exchangeInfo s' = Session.exchangeInfo s /\
    Session.now s' = Session.now s /\
    Session.resync s' = Session.resync s.
Proof.
  destruct (retrieveFunds_runs updatePrices s)
    as (s1 & out1 & r1 & Hrun & Hs1 & Hask & Hkeep & Hnew & _ & Hok).
  unfold Session.updateFunds. rewrite <- Hs1 in Hrun.
  set (s1' := Session.with_prices s (Session.prices s1)) in *.
  destruct r1 as [e|funds].
  - rewrite (bind_throws _ _ _ _ _ _ Hrun).
    eexists _, _, _. split; [reflexivity|]. split; [exact Hask|].
    split; [exact Hkeep|]. split; [exact Hnew|]. split; [reflexivity|].
    split; [discriminate|]. simpl. auto 10.
  - destruct (Hok funds eq_refl) as (balance & Hbalance & Hcalc).
    set (s2 := Session.with_bot s1' (Bot.with_funds (Session.bot s1') funds)).
    assert (Hrest : exists s' out,
              (if Session.modeIs "f" s2 then Session.refresh else Session.ret tt) s2
              = (s', out, inr tt) /\
              (forall method, ~ In (Session.asked method) out) /\
              Bot.logs (Session.bot s') = Bot.logs (Session.bot s2) /\
              Bot.charts (Session.bot s') = Bot.charts (Session.bot s2) /\
              sameBooks s2 s').
    { destruct (Session.modeIs "f" s2).
      - apply refresh_books.
      - eexists _, _. split; [reflexivity|]. split; [intros method []|]. auto 10. }
    destruct Hrest as (s' & out & Hr & Hno & Hl & Hc & G1 & G2 & G3 & G4 & G5).
    eexists _, _, _. split.
    { eapply bind_runs; [exact Hrun|]. eapply bind_runs; [reflexivity|].
      eapply bind_runs; [reflexivity|]. eapply bind_runs; [exact Hr|reflexivity]. }
    split.
    { rewrite <- Hask. rewrite !in_app_iff. simpl. split; [|tauto].
      intros [H|[[]|[[]|[H|[]]]]]; [exact H|]. exfalso. eapply Hno. exact H. }
    split; [intros Hf; rewrite G2; apply Hkeep; exact Hf|].
    split; [intros quotes Hf Hq; rewrite G2; eapply Hnew; eassumption|].
    split; [discriminate|]. split.
    { intros f Hf. inversion Hf; subst f. split; [rewrite G1; reflexivity|].
      exists balance. split; [exact Hbalance|]. rewrite G2. exact Hcalc. }
    rewrite Hl, Hc, G3, G4, G5. simpl. auto 10.
Qed.

(** X17: [updateFunds] and the price cache.  Prices are asked of the
    provider only when none are cached or the caller demands fresh ones;
    otherwise the cached prices are used and kept.  When the update
    fails, whether on prices, on the balance or in [calculateFunds], the
    ledger [this.funds] stays as it was, though freshly fetched prices
    stay cached; when it succeeds the ledger is the one computed from
    the balance and the prices now cached.  Nothing is logged. *)
Theorem funds_update_uses_price_cache (updatePrices : bool) (s : Session.t) :
  exists s' out r,
    Session.updateFunds h p updatePrices s = (s', out, r) /\
    (In (Session.asked "retrievePrices") out <->
     Session.prices s = None \/ updatePrices = true) /\
    (forall quotes, Session.prices s = Some quotes -> updatePrices = false ->
       Session.prices s' = Some quotes) /\
    (forall quotes, Session.prices s = None \/ updatePrices = true ->
       Session.retrievePrices p = Js.resolved quotes -> Session.prices s' = Some quotes) /\
    (forall e, r = inl e -> Bot.funds (Session.bot s') = Bot.funds (Session.bot s)) /\
    (forall funds, r = inr funds ->
       Bot.funds (Session.bot s') = funds /\
       exists balance, Session.retrieveBalance p = Js.resolved balance /\
         Session.calculateFunds h balance (Session.prices s') = inr funds) /\
    Bot.logs (Session.bot s') = Bot.logs (Session.bot s).
Proof.
  assert (Hfetch : fetches s updatePrices = true <->
                   Session.prices s = None \/ updatePrices = true).
  { unfold Session.cached. destruct (Session.prices s), updatePrices; simpl;
      split; auto; intros [H|H]; discriminate. }
  destruct (updateFunds_runs updatePrices s)
    as (s' & out & r & Hrun & Hask & Hkeep & Hnew & Hfail & Hok & Hlogs & _).
  exists s', out, r. split; [exact Hrun|]. split; [rewrite Hask; exact Hfetch|].
  split.
  { intros quotes Hq Hu. rewrite Hkeep; [exact Hq|].
    unfold Session.cached. rewrite Hq, Hu. reflexivity. }
  split; [intros quotes Hq; apply Hnew; apply Hfetch; exact Hq|].
  auto.
Qed.

(** X18: the resync timer always re-arms itself, once.  Each run of
    [updateTimer] ends without throwing and arms exactly one new timer:
    thirty minutes ahead when the server time, the exchange information
    and the funds were all refreshed (the ledger is then the fresh one
    and 'Server info updated' is logged), one minute ahead when any of
    these failed (the ledger is then left as it was and the error is
    logged with the prefix 'Unable to update server info: '). *)
Theorem resync_always_rearms (s : Session.t) :
  exists s' out,
    Session.updateTimer h p s = (s', out, inr tt) /\
    Session.now s' = Session.now s /\
    ((exists info funds,
        Session.updateServerTime p = Js.resolved tt /\
        Session.retrieveExchangeInfo p = Js.resolved info /\
        (exists quotes balance,
           Session.retrievePrices p = Js.resolved quotes /\
           Session.retrieveBalance p = Js.resolved balance /\
           Session.calculateFunds h balance (Some quotes) = inr funds) /\
        Session.resync s' = Session.resync s ++ [(Session.now s + Session.resyncDelay)%N] /\
        Bot.funds (Session.bot s') = funds /\
        Session.exchangeInfo s' = info /\
        Bot.logs (Session.bot s')
        = Bot.logs (Session.bot s) ++ [logMessage "silent" "Server info updated"]) \/
     (exists e,
        Session.resync s' = Session.resync s ++ [(Session.now s + Session.retryDelay)%N] /\
        Bot.funds (Session.bot s') = Bot.funds (Session.bot s) /\
        Bot.logs (Session.bot s')
        = Bot.logs (Session.bot s)
          ++ [logError (Js.withMessage e
                ("Unable to update server info: " +:+ Session.errorToString h e))])).
Proof.
  (* what the handler does from a state that kept the books of [s] *)
  assert (Hcatch : forall e t,
            Bot.logs (Session.bot t) = Bot.logs (Session.bot s) ->
            Bot.funds (Session.bot t) = Bot.funds (Session.bot s) ->
            Session.now t = Session.now s -> Session.resync t = Session.resync s ->
            exists s' out,
              Session.bind (Session.arm Session.retryDelay)
                (fun _ => Session.log (logError (Js.withMessage e
                   ("Unable to update server info: " +:+ Session.errorToString h e)))) t
              = (s', out, inr tt) /\
              Session.now s' = Session.now s /\
              Session.resync s' = Session.resync s ++ [(Session.now s + Session.retryDelay)%N] /\
              Bot.funds (Session.bot s') = Bot.funds (Session.bot s) /\
              Bot.logs (Session.bot s')
              = Bot.logs (Session.bot s)
                ++ [logError (Js.withMessage e
                      ("Unable to update server info: " +:+ Session.errorToString h e))]).
  { intros e t Hl Hf Hn Hr.
    set (t1 := Session.with_clock t (Session.now t)
                 (Session.resync t ++ [(Session.now t + Session.retryDelay)%N])).
    destruct (log_books (logError (Js.withMessage e
                ("Unable to update server info: " +:+ Session.errorToString h e))) t1)
      as (s' & out & Hlog & _ & Hlogs & _ & G1 & G2 & G3 & G4 & G5).
    eexists _, _. split; [eapply bind_runs; [reflexivity|exact Hlog]|].
    rewrite G4, G5, G1, Hlogs. simpl. rewrite Hl, Hf, Hn, Hr. auto. }
  unfold Session.updateTimer.
  destruct (Session.updateServerTime p) as [[]|e] eqn:Htime.
  2:{ destruct (Hcatch e s) as (s' & out & Hh & Hn & Hr & Hf & Hl); try reflexivity.
      eexists _, _. split.
      - eapply catch_handles; [|exact Hh].
        eapply bind_runs; [reflexivity|]. eapply bind_throws. reflexivity.
      - split; [exact Hn|]. right. exists e. auto. }
  destruct (Session.retrieveExchangeInfo p) as [info|e] eqn:Hinfo.
  2:{ destruct (Hcatch e s) as (s' & out & Hh & Hn & Hr & Hf & Hl); try reflexivity.
      eexists _, _. split.
      - eapply catch_handles; [|exact Hh].
        eapply bind_runs; [reflexivity|]. eapply bind_runs; [reflexivity|].
        eapply bind_runs; [reflexivity|]. eapply bind_throws. reflexivity.
      - split; [exact Hn|]. right. exists e. auto. }
  set (s1 := Session.with_exchangeInfo s info).
  set (s2 := Session.with_bot s1 (Bot.with_charts (Session.bot s1)
               (Session.updateInfo h (Session.exchangeInfo s1) <$> Bot.charts (Session.bot s1)))).
  destruct (updateFunds_runs true s2)
    as (s3 & out3 & r3 & Hfunds & _ & _ & Hnew & Hfail & Hok & Hl3 & _ & Hi3 & Hn3 & Hr3).
  destruct r3 as [e|funds].
  - destruct (Hcatch e s3) as (s' & out & Hh & Hn & Hr & Hf & Hl).
    + rewrite Hl3. reflexivity.
    + rewrite (Hfail e eq_refl). reflexivity.
    + rewrite Hn3. reflexivity.
    + rewrite Hr3. reflexivity.
    + eexists _, _. split.
      * eapply catch_handles; [|exact Hh].
        eapply bind_runs; [reflexivity|]. eapply bind_runs; [reflexivity|].
        eapply bind_runs; [reflexivity|]. eapply bind_runs; [reflexivity|].
        eapply bind_runs; [reflexivity|]. eapply bind_runs; [reflexivity|].
        eapply bind_runs; [reflexivity|]. eapply bind_runs; [reflexivity|].
        eapply bind_throws. exact Hfunds.
      * split; [exact Hn|]. right. exists e. auto.
  - destruct (Hok funds eq_refl) as (Hf3 & balance & Hbalance & Hcalc).
    destruct (log_books (logMessage "silent" "Server info updated") s3)
      as (s4 & out4 & Hlog & _ & Hl4 & _ & G1 & G2 & G3 & G4 & G5).
    eexists _, _. split.
    + eapply catch_returns.
      eapply bind_runs; [reflexivity|]. eapply bind_runs; [reflexivity|].
      eapply bind_runs; [reflexivity|]. eapply bind_runs; [reflexivity|].
      eapply bind_runs; [reflexivity|]. eapply bind_runs; [reflexivity|].
      eapply bind_runs; [reflexivity|]. eapply bind_runs; [reflexivity|].
      eapply bind_runs; [exact Hfunds|]. eapply bind_runs; [exact Hlog|reflexivity].
    + simpl. split; [rewrite G4, Hn3; reflexivity|]. left.
      exists info, funds. split; [reflexivity|]. split; [reflexivity|].
      destruct (Session.retrievePrices p) as [quotes|e] eqn:Hq.
      * specialize (Hnew quotes (orb_true_r _) eq_refl). rewrite Hnew in Hcalc.
        split; [eauto|]. rewrite G4, G5, G1, G3, Hl4, Hn3, Hr3, Hf3, Hi3, Hl3.
        simpl. auto.
      * exfalso.
        destruct (retrieveFunds_runs true s2)
          as (t & o & r & Hrun & _ & _ & _ & _ & Hrej & _).
        destruct (Hrej e (orb_true_r _) Hq) as (-> & _).
        unfold Session.updateFunds in Hfunds.
        rewrite (bind_throws _ _ _ _ _ _ Hrun) in Hfunds. discriminate.
Qed.

End Books.

(** ** The older version: the log, analysis and advisors *)

Lemma shiftLogs_drop l :
  Legacy.shiftLogs l = drop (length l - Legacy.maxLogs) l.
Proof.
  induction l as [|ev l IH]; [reflexivity|].
  change (Legacy.shiftLogs (ev :: l))
    with (if (Legacy.maxLogs <? S (length l))%nat then Legacy.shiftLogs l else ev :: l).
  change (length (ev :: l)) with (S (length l)).
  destruct (Nat.ltb_spec Legacy.maxLogs (S (length l))) as [Hlt|Hge].
  - rewrite IH. replace (S (length l) - Legacy.maxLogs)%nat
      with (S (length l - Legacy.maxLogs)) by lia.
    reflexivity.
  - replace (S (length l) - Legacy.maxLogs)%nat with 0%nat by lia. reflexivity.
Qed.

Lemma logEvent_logs b ev :
  Legacy.logs (Legacy.logEvent b ev)
  = drop (length (Legacy.logs b) + 1 - Legacy.maxLogs) (Legacy.logs b ++ [ev]) /\
  Legacy.advisors (Legacy.logEvent b ev) = Legacy.advisors b /\
  Legacy.charts (Legacy.logEvent b ev) = Legacy.charts b /\
  Legacy.funds (Legacy.logEvent b ev) = Legacy.funds b /\
  Legacy.trades (Legacy.logEvent b ev) = Legacy.trades b.
Proof.
  unfold Legacy.logEvent. simpl. rewrite shiftLogs_drop, length_app. simpl. auto.
Qed.

(** X19: the older version keeps the last 2000 log entries.  After any
    number of [log] calls the log holds the most recent 2000 of all the
    entries logged (all of them while there are fewer), in order; it
    never holds more. *)
Theorem legacy_log_keeps_latest (b : Legacy.t) (evs : list LogEvent) :
  (length (Legacy.logs b) <= 2000)%nat ->
  Legacy.logs (fold_left Legacy.logEvent evs b)
  = drop (length (Legacy.logs b ++ evs) - 2000) (Legacy.logs b ++ evs) /\
  (length (Legacy.logs (fold_left Legacy.logEvent evs b)) <= 2000)%nat /\
  Legacy.trades (fold_left Legacy.logEvent evs b) = Legacy.trades b.
Proof.
  change 2000%nat with Legacy.maxLogs.
  revert b. induction evs as [|ev evs IH]; intros b Hb.
  - simpl fold_left. rewrite app_nil_r.
    replace (length (Legacy.logs b) - Legacy.maxLogs)%nat with 0%nat by lia.
    rewrite drop_0. auto.
  - simpl fold_left.
    destruct (logEvent_logs b ev) as (Hlogs & _ & _ & _ & Htrades).
    set (k := (length (Legacy.logs b) + 1 - Legacy.maxLogs)%nat) in *.
    assert (Hlen : length (Legacy.logs (Legacy.logEvent b ev))
                   = (length (Legacy.logs b) + 1 - k)%nat).
    { rewrite Hlogs, length_drop, length_app. simpl. reflexivity. }
    destruct (IH (Legacy.logEvent b ev)) as (IH1 & IH2 & IH3); [lia|].
    split; [|split; [exact IH2|congruence]].
    rewrite IH1, Hlogs. rewrite <- drop_app_le by (rewrite length_app; simpl; lia).
    rewrite drop_drop. rewrite <- app_assoc. simpl.
    f_equal. rewrite length_drop, !length_app. simpl. lia.
Qed.

Lemma closeCandidate_open d who trade :
  Legacy.closeCandidate d who trade = true ->
  Legacy.openFor (Legacy.advisorId d) (Legacy.chartId d) trade = true.
Proof.
  unfold Legacy.closeCandidate, Legacy.openFor. intros H.
  apply andb_true_iff in H as [H Hopen]. apply andb_true_iff in H as [H _].
  rewrite H, Hopen. reflexivity.
Qed.

Lemma legacy_close_without_trade b d answers :
  Legacy.signal (Legacy.advice d) = "CLOSE LONG" \/
  Legacy.signal (Legacy.advice d) = "CLOSE SHORT" ->
  (forall trade, In trade (Legacy.trades b) ->
     Legacy.openFor (Legacy.advisorId d) (Legacy.chartId d) trade = false) ->
  Legacy.digestAdvice b d answers = Some (b, Legacy.unsettled).
Proof.
  intros Hsig Hnone. unfold Legacy.digestAdvice.
  destruct (Legacy.bind b d) as [c|] eqn:Hbind; [|reflexivity].
  assert (Hstart : Legacy.startBound b c = Legacy.unsettled).
  { unfold Legacy.bind in Hbind.
    destruct (Legacy.getAdvisor _ _); [|discriminate].
    destruct (Legacy.charts b !! _); [|discriminate].
    inversion Hbind; subst; clear Hbind. unfold Legacy.startBound. simpl.
    assert (Hs : String.eqb (Legacy.signal (Legacy.advice d)) "CLOSE LONG"
                 || String.eqb (Legacy.signal (Legacy.advice d)) "CLOSE SHORT" = true)
      by (destruct Hsig as [-> | ->]; reflexivity).
    rewrite Hs.
    destruct (findIndexed _ _) as [[i trade]|] eqn:Hfind; [|reflexivity].
    apply findIndexed_Some in Hfind as [Hi Hc].
    apply closeCandidate_open in Hc.
    rewrite Hnone in Hc; [discriminate|].
    apply list_elem_of_In. eapply list_elem_of_lookup_2. exact Hi. }
  rewrite Hstart. apply legacy_resumeAll_unsettled.
Qed.

(** X20: in the older version one unsettled digestion stops the rest
    of the analysis.  The advices of one analysis are digested one
    after the other, each waiting for the promise of the one before; a
    LONG or SHORT on a candle that is not final, and a CLOSE LONG or
    CLOSE SHORT while the advisor has no open trade on the chart, leave
    that promise unsettled: the state is unchanged and none of the
    advices after it is ever digested, whatever they are. *)
Theorem legacy_unsettled_digestion_blocks_later_advices
    (b : Legacy.t) (advisorId chartId : string) (isFinal : bool)
    (advice : Legacy.Advice) (rest : list Legacy.Advice)
    (answers : list (list Legacy.Response)) :
  ((Legacy.signal advice = "LONG" \/ Legacy.signal advice = "SHORT") /\ isFinal = false) \/
  ((Legacy.signal advice = "CLOSE LONG" \/ Legacy.signal advice = "CLOSE SHORT") /\
   forall trade, In trade (Legacy.trades b) ->
     Legacy.openFor advisorId chartId trade = false) ->
  Legacy.digestInOrder b advisorId chartId isFinal (advice :: rest) answers
  = Some (b, Legacy.blocked rest).
Proof.
  intros Hcase. simpl.
  set (d := {| Legacy.advisorId := advisorId; Legacy.chartId := chartId;
               Legacy.isFinal := isFinal; Legacy.advice := advice |}).
  assert (Hd : Legacy.digestAdvice b d (hd [] answers) = Some (b, Legacy.unsettled)).
  { destruct Hcase as [[Hsig Hfinal]|[Hsig Hnone]].
    - apply legacy_gate; assumption.
    - apply legacy_close_without_trade; assumption. }
  rewrite Hd. reflexivity.
Qed.

Lemma legacy_setAdvisor_get l advisorId advisor :
  Legacy.getAdvisor (Legacy.setAdvisor l advisorId advisor) advisorId = Some advisor.
Proof.
  induction l as [|[k a] l IH]; simpl.
  - rewrite String.eqb_refl. reflexivity.
  - destruct (String.eqb k advisorId) eqn:Hk; simpl; rewrite Hk; [reflexivity|exact IH].
Qed.

Lemma legacy_loadChart_id h b chartConfig b1 chartId :
  Legacy.loadChart h b chartConfig = (b1, Some chartId) ->
  Legacy.hash h chartConfig = inr chartId /\
  is_Some (Legacy.charts b1 !! chartId) /\
  Legacy.advisors b1 = Legacy.advisors b /\
  (forall k chart, Legacy.charts b !! k = Some chart -> Legacy.charts b1 !! k = Some chart).
Proof.
  unfold Legacy.loadChart. destruct (Legacy.hash h chartConfig) as [e|id]; [discriminate|].
  destruct (Legacy.charts b !! id) as [loaded|] eqn:Hl.
  - intros H. inversion H; subst; clear H.
    destruct (logEvent_logs b (logMessage "info" (Chart.name loaded +:+ " already loaded, skipping")))
      as (_ & Ha & Hc & _).
    rewrite Ha, Hc. split; [reflexivity|]. split; [eauto|]. split; [reflexivity|auto].
  - destruct (Legacy.chartInitialize h id chartConfig) as [chart|e]; [|discriminate].
    intros H. inversion H; subst; clear H. simpl.
    split; [reflexivity|]. split; [rewrite lookup_insert_eq; eauto|].
    split; [reflexivity|].
    intros k chart' Hk. rewrite lookup_insert_ne; [exact Hk|]. congruence.
Qed.

Lemma legacy_loadCharts_ids h chartConfigs : forall b b1 chartIds,
  Legacy.loadCharts h b chartConfigs = (b1, Some chartIds) ->
  Forall2 (fun chartConfig chartId => Legacy.hash h chartConfig = inr chartId)
          chartConfigs chartIds /\
  (forall chartId, In chartId chartIds -> is_Some (Legacy.charts b1 !! chartId)) /\
  Legacy.advisors b1 = Legacy.advisors b /\
  (forall k chart, Legacy.charts b !! k = Some chart -> Legacy.charts b1 !! k = Some chart).
Proof.
  induction chartConfigs as [|chartConfig rest IH]; simpl; intros b b1 chartIds Hload.
  - inversion Hload; subst. split; [constructor|]. split; [intros ? []|auto].
  - destruct (Legacy.loadChart h b chartConfig) as [b0 [id|]] eqn:Hone; [|discriminate].
    destruct (legacy_loadChart_id h b chartConfig b0 id Hone) as (Hid & Hin & Ha & Hold).
    destruct (Legacy.loadCharts h b0 rest) as [b2 [ids|]] eqn:Hrest; simpl in Hload;
      [|discriminate].
    inversion Hload; subst; clear Hload.
    destruct (IH b0 b1 ids Hrest) as (Hids & Hin' & Ha' & Hold').
    split; [constructor; assumption|]. split; [|split; [congruence|auto]].
    intros chartId [<-|Hc]; [|auto].
    destruct Hin as [chart Hchart]. rewrite (Hold' _ _ Hchart). eauto.
Qed.

(** X21: the older version loads no advisor with a margin outside
    (0, 100].  [addAdvisor] resolves only when the advisor's file
    exports an object whose [margin] parses to a number greater than 0
    and at most 100 (so not NaN) and whose [sights] is a non-empty
    array; the advisor is then registered under its id with exactly
    that margin and the charts of those sights: the ids that [hash]
    gives their chart configurations, each of them loaded. *)
Theorem legacy_advisor_margin_is_validated
    (h : Legacy.Host) (b : Legacy.t) (advisorId : string) (b' : Legacy.t) :
  Legacy.addAdvisor h b advisorId = Legacy.resolves b' ->
  exists fields sight sights chartConfigs chartIds margin,
    Legacy.advisorModule h advisorId = Some (Js.object fields) /\
    margin = Bot.parseFloat (Legacy.parseFloatOther h)
               (Legacy.orElse (Js.getField fields "margin") (Js.number 0%float)) /\
    (0 <? margin)%float = true /\ (100 <? margin)%float = false /\
    Js.getField fields "sights" = Js.array (sight :: sights) /\
    Legacy.getChartConfigs h (Js.array (sight :: sights)) = Js.resolved chartConfigs /\
    Forall2 (fun chartConfig chartId => Legacy.hash h chartConfig = inr chartId)
            chartConfigs chartIds /\
    (forall chartId, In chartId chartIds -> is_Some (Legacy.charts b' !! chartId)) /\
    Legacy.getAdvisor (Legacy.advisors b') advisorId
    = Some (Legacy.newAdvisor h (Js.capitalize advisorId) chartIds margin).
Proof.
  unfold Legacy.addAdvisor.
  destruct (Legacy.advisorModule h advisorId) as [config|]; [|discriminate].
  destruct (negb (Js.typeofObject config) || Js.isArray config) eqn:Hshape; [discriminate|].
  destruct config as [| | | | |items|fields]; try discriminate. simpl.
  set (margin := Bot.parseFloat (Legacy.parseFloatOther h)
                   (Legacy.orElse (Js.getField fields "margin") (Js.number 0%float))).
  destruct (Legacy.misconfigured margin _) eqn:Hbad; [discriminate|].
  unfold Legacy.misconfigured in Hbad.
  apply orb_false_iff in Hbad as [Hbad Hempty].
  apply orb_false_iff in Hbad as [Hrange Harray].
  apply orb_false_iff in Hrange as [Hpos Hmax].
  apply negb_false_iff in Hpos. apply negb_false_iff in Harray.
  assert (Hsights : exists sight sights,
            Legacy.orElse (Js.getField fields "sights") (Js.array [])
            = Js.array (sight :: sights) /\
            Js.getField fields "sights" = Js.array (sight :: sights)).
  { unfold Legacy.orElse in *.
    destruct (Js.getField fields "sights") as [| | | | |[|sight sights]|];
      simpl in *; try discriminate;
      repeat match goal with
             | H : context [if ?c then _ else _] |- _ => destruct c
             end; simpl in *; try discriminate; eauto. }
  destruct Hsights as (sight & sights & Hor & Hget). rewrite Hor.
  destruct (Legacy.getChartConfigs h (Js.array (sight :: sights)))
    as [chartConfigs|e] eqn:Hconfigs; [|discriminate].
  destruct (Legacy.loadCharts h b chartConfigs) as [b1 [chartIds|]] eqn:Hload;
    [|discriminate].
  destruct (legacy_loadCharts_ids h chartConfigs b b1 chartIds Hload)
    as (Hids & Hin & _ & _).
  intros H. inversion H; subst; clear H.
  exists fields, sight, sights, chartConfigs, chartIds, margin.
  repeat (split; [first [reflexivity | assumption]|]).
  destruct (logEvent_logs
              (Legacy.with_advisors b1
                 (Legacy.setAdvisor (Legacy.advisors b1) advisorId
                    (Legacy.newAdvisor h (Js.capitalize advisorId) chartIds margin)))
              (logMessage "success" ("Advisor " +:+ Js.capitalize advisorId +:+ " running")))
    as (_ & -> & _).
  simpl. apply legacy_setAdvisor_get.
Qed.

(** X22: in the older version an advisor file without a usable margin
    is refused.  When the exported object has no [margin], or a falsy
    one, the margin is read as 0 and [addAdvisor] rejects with 'Advisor
    ... not properly configured', loading no chart and logging nothing. *)
Theorem legacy_advisor_without_margin_is_rejected
    (h : Legacy.Host) (b : Legacy.t) (advisorId : string) (fields : list (string * Js.Value)) :
  Legacy.advisorModule h advisorId = Some (Js.object fields) ->
  Js.truthy (Js.getField fields "margin") = false ->
  Legacy.addAdvisor h b advisorId
  = Legacy.rejects
      (Js.error ("Advisor " +:+ Js.capitalize advisorId +:+ " not properly configured")).
Proof.
  intros Hmodule Hfalsy. unfold Legacy.addAdvisor. rewrite Hmodule. simpl.
  unfold Legacy.orElse at 1. rewrite Hfalsy. simpl. reflexivity.
Qed.

(** ** Stream replacement *)

Lemma onChartFrom_In k chartId (ts : list Trade.t) i :
  In i (Bot.onChartFrom k chartId ts) <->
  (k <= i)%nat /\
  exists trade, ts !! (i - k)%nat = Some trade /\
    Trade.chartId trade = chartId /\ Trade.isOpen trade = true.
Proof.
  revert k. induction ts as [|t ts IH]; intros k; simpl.
  - split; [tauto|]. intros [_ (trade & H & _)]. discriminate.
  - assert (Hrest : In i (Bot.onChartFrom (S k) chartId ts) <->
              (k < i)%nat /\
              exists trade, (t :: ts) !! (i - k)%nat = Some trade /\
                Trade.chartId trade = chartId /\ Trade.isOpen trade = true).
    { rewrite IH. split.
      - intros [Hle (trade & Hl & Ho)]. split; [lia|]. exists trade.
        replace (i - k)%nat with (S (i - S k)) by lia. auto.
      - intros [Hlt (trade & Hl & Ho)]. split; [lia|]. exists trade.
        replace (i - k)%nat with (S (i - S k)) in Hl by lia. auto. }
    destruct (String.eqb (Trade.chartId t) chartId && Trade.isOpen t) eqn:Ht;
      simpl; rewrite ?Hrest.
    + apply andb_true_iff in Ht as [Hc Ho]. apply String.eqb_eq in Hc. split.
      * intros [->|[Hlt H]]; [|split; [lia|exact H]].
        split; [lia|]. exists t. rewrite Nat.sub_diag. auto.
      * intros [Hle (trade & Hl & Hrest')].
        destruct (decide (k = i)) as [->|Hne]; [left; reflexivity|right].
        split; [lia|]. eauto.
    + split.
      * intros [Hlt H]. split; [lia|exact H].
      * intros [Hle (trade & Hl & Hc & Ho)].
        destruct (decide (k = i)) as [->|Hne].
        -- rewrite Nat.sub_diag in Hl. simpl in Hl. inversion Hl; subst.
           rewrite String.eqb_refl, Ho in Ht. discriminate.
        -- split; [lia|]. eauto.
Qed.

Section Streams.

Variable parseFloatOther : Js.Value -> float.

(** X23: when a chart replaces its stream, the bot resubscribes
    exactly the open trades on that chart, closed trades and trades on
    other charts being left alone; along every run of the event loop
    from a bot with at most one open trade per pair, these are at most
    one trade per advisor. *)
Theorem resubscription_reaches_open_trades
    (b : Bot.t) (evs : list Bot.Event) (w : Bot.World) (chartId : string) :
  atMostOneOpen (Bot.trades b) ->
  Bot.run parseFloatOther (Bot.initialWorld b) evs = Some w ->
  (forall i,
     In i (Bot.resubscribeTradesToNewStream (Bot.bot w) chartId) <->
     exists trade, Bot.trades (Bot.bot w) !! i = Some trade /\
       Trade.chartId trade = chartId /\ Trade.isOpen trade = true) /\
  (forall i j ti tj,
     In i (Bot.resubscribeTradesToNewStream (Bot.bot w) chartId) ->
     In j (Bot.resubscribeTradesToNewStream (Bot.bot w) chartId) ->
     Bot.trades (Bot.bot w) !! i = Some ti ->
     Bot.trades (Bot.bot w) !! j = Some tj ->
     Trade.advisorId ti = Trade.advisorId tj -> i = j).
Proof.
  intros Hb Hrun.
  assert (Hw : worldInvariant w).
  { eapply run_invariant; [|eassumption]. apply initial_invariant. assumption. }
  destruct Hw as (Hone & _).
  assert (Hin : forall i,
            In i (Bot.resubscribeTradesToNewStream (Bot.bot w) chartId) <->
            exists trade, Bot.trades (Bot.bot w) !! i = Some trade /\
              Trade.chartId trade = chartId /\ Trade.isOpen trade = true).
  { intros i. unfold Bot.resubscribeTradesToNewStream. rewrite onChartFrom_In.
    rewrite Nat.sub_0_r. split; [tauto|]. intros H. split; [lia|exact H]. }
  split; [exact Hin|].
  intros i j ti tj Hi Hj Hti Htj Hsame.
  apply Hin in Hi as (ti' & Hti' & Hci & Hoi). apply Hin in Hj as (tj' & Htj' & Hcj & Hoj).
  rewrite Hti in Hti'. rewrite Htj in Htj'. inversion Hti'; inversion Htj'; subst ti' tj'.
  destruct (decide (i = j)) as [|Hne]; [assumption|exfalso].
  specialize (Hone (Trade.advisorId ti) chartId). unfold openCount in Hone.
  pose proof (filter_two (Bot.openFor (Trade.advisorId ti) chartId)
                _ i j ti tj Hti Htj Hne) as H2.
  rewrite !openFor_true in H2.
  specialize (H2 (conj eq_refl (conj Hci Hoi)) (conj (eq_sym Hsame) (conj Hcj Hoj))).
  lia.
Qed.

End Streams.

(** ** Worked scenarios for the properties above *)

Lemma emitted_advice_is_digestible_witness :
  In (Bot.emitted Example.longPayload) (Bot.analyzeChart Example.bot0 "c1" [] true) /\
  exists jobs,
    Bot.digestAdvice Example.bot0 Example.longPayload 0 = inr jobs /\
    map Bot.j_signal jobs = ["LONG"].
Proof.
  assert (Hin : In (Bot.emitted Example.longPayload)
                   (Bot.analyzeChart Example.bot0 "c1" [] true)).
  { simpl. right. left. reflexivity. }
  split; [exact Hin|].
  destruct (emitted_advice_is_digestible Example.bot0 "c1" [] true Example.longPayload 0 Hin)
    as (_ & _ & _ & jobs & Hjobs & Hsignals & _).
  exists jobs. split; [exact Hjobs|exact Hsignals].
Defined.

Lemma one_log_entry_per_notification_witness :
  match Bot.run Example.noStrings (Bot.initialWorld Example.bot0)
          Example.rejectedWhileLogging with
  | Some w =>
      ((0 + 1 <= length (Bot.logs (Bot.bot w)))%nat /\
       (length (Bot.logs (Bot.bot w)) <= 0 + 1 + 1)%nat) /\
      length (Bot.launches w) = 2%nat /\
      Bot.logs (Bot.bot w)
      = [logError (Js.error "Unable to process signal HOLD from vsa");
         logMessage "closeTarget" "Target reached"]
  | None => False
  end.
Proof.
  destruct (Bot.run Example.noStrings (Bot.initialWorld Example.bot0)
              Example.rejectedWhileLogging) as [w|] eqn:Hrun.
  - split.
    + exact (one_log_entry_per_notification Example.noStrings Example.bot0
               Example.rejectedWhileLogging w Hrun).
    + vm_compute in Hrun. injection Hrun as <-. split; reflexivity.
  - vm_compute in Hrun. discriminate.
Defined.

Lemma registered_trades_are_sized_and_directed_witness :
  Bot.trades Example.bot0 = [] /\
  match Bot.run Example.noStrings (Bot.initialWorld Example.bot0) Example.openLong with
  | Some w =>
      length (Bot.trades (Bot.bot w)) = 1%nat /\
      forall trade, In trade (Bot.trades (Bot.bot w)) ->
        (0 <? Trade.quantity trade)%float = true /\
        ((Trade.signal trade = "LONG" /\ Trade.isLong trade = true) \/
         (Trade.signal trade = "SHORT" /\ Trade.isLong trade = false))
  | None => False
  end.
Proof.
  split; [reflexivity|].
  destruct (Bot.run Example.noStrings (Bot.initialWorld Example.bot0) Example.openLong)
    as [w|] eqn:Hrun.
  - split.
    + vm_compute in Hrun. injection Hrun as <-. reflexivity.
    + apply (registered_trades_are_sized_and_directed Example.noStrings Example.bot0
               Example.openLong w eq_refl Hrun).
  - vm_compute in Hrun. discriminate.
Defined.

Lemma trade_ids_are_sequential_witness :
  Bot.trades Example.bot0 = [] /\
  match Bot.run Example.noStrings (Bot.initialWorld Example.bot0) Example.openLong with
  | Some w =>
      map Trade.id (Bot.trades (Bot.bot w)) = ["T1"] /\
      NoDup (map Trade.id (Bot.trades (Bot.bot w)))
  | None => False
  end.
Proof.
  split; [reflexivity|].
  destruct (Bot.run Example.noStrings (Bot.initialWorld Example.bot0) Example.openLong)
    as [w|] eqn:Hrun.
  - split.
    + vm_compute in Hrun. injection Hrun as <-. reflexivity.
    + apply (trade_ids_are_sequential Example.noStrings Example.bot0
               Example.openLong w eq_refl Hrun).
  - vm_compute in Hrun. discriminate.
Defined.

Lemma launches_rate_bound_witness :
  match Bot.run Example.noStrings (Bot.initialWorld Example.bot0) Example.twoLongs with
  | Some w =>
      map fst (Bot.launches w) !! 0%nat = Some 0%N /\
      map fst (Bot.launches w) !! 1%nat = Some 300%N /\
      (0 + 300 * N.of_nat (1 - 0) <= 300)%N
  | None => False
  end.
Proof.
  destruct (Bot.run Example.noStrings (Bot.initialWorld Example.bot0) Example.twoLongs)
    as [w|] eqn:Hrun.
  - assert (H0 : map fst (Bot.launches w) !! 0%nat = Some 0%N)
      by (vm_compute in Hrun; injection Hrun as <-; reflexivity).
    assert (H1 : map fst (Bot.launches w) !! 1%nat = Some 300%N)
      by (vm_compute in Hrun; injection Hrun as <-; reflexivity).
    split; [exact H0|]. split; [exact H1|].
    apply (launches_rate_bound Example.noStrings Example.bot0 Example.twoLongs w
             0%nat 1%nat 0%N 300%N Hrun H0 H1). lia.
  - vm_compute in Hrun. discriminate.
Defined.

Lemma close_all_never_exits_witness :
  Bot.currentMode Example.closingBot = Some "k" /\
  exists q,
    Bot.pressY Example.closingBot = inr q /\
    Bot.q_exited (Bot.quitRun q [(0%nat, Js.resolved tt); (1%nat, Js.resolved tt)]) = false /\
    Bot.currentMode
      (Bot.q_bot (Bot.quitRun q [(0%nat, Js.resolved tt); (1%nat, Js.resolved tt)]))
    = Some "t".
Proof.
  split; [reflexivity|].
  destruct (close_all_never_exits Example.closingBot
              [(0%nat, Js.resolved tt); (1%nat, Js.resolved tt)] eq_refl)
    as (q & Hq & _ & Hexit & Hmode & _).
  exists q. auto.
Defined.

Lemma startup_loads_subscribed_charts_witness :
  (forall advisorName chartIds,
     Bot.Advisor.chartIds (Bot.newAdvisor Example.loadingHost advisorName chartIds) = chartIds) /\
  subscriptionsLoaded Bot.emptyBot /\
  exists b',
    Bot.initialize Example.loadingHost Bot.emptyBot (Js.object []) Example.oneAdvisor
    = Bot.runs b' /\
    map fst (Bot.advisors b') = ["example"] /\
    subscriptionsLoaded b'.
Proof.
  assert (Hnew : forall advisorName chartIds,
            Bot.Advisor.chartIds (Bot.newAdvisor Example.loadingHost advisorName chartIds)
            = chartIds) by reflexivity.
  assert (Hempty : subscriptionsLoaded Bot.emptyBot) by (intros a adv c []).
  split; [exact Hnew|]. split; [exact Hempty|].
  destruct (Bot.initialize Example.loadingHost Bot.emptyBot (Js.object []) Example.oneAdvisor)
    as [b'|b'|b'] eqn:Hinit;
    [vm_compute in Hinit; discriminate| |vm_compute in Hinit; discriminate].
  exists b'. split; [reflexivity|]. split.
  - vm_compute in Hinit. injection Hinit as <-. reflexivity.
  - apply (startup_loads_subscribed_charts Example.loadingHost Hnew Bot.emptyBot
             (Js.object []) Example.oneAdvisor b' Hempty Hinit).
Defined.

Lemma log_scroll_stays_within_log_witness :
  Session.readMore Example.screen = None /\
  match Session.run Example.services Example.screen Example.scrollBack with
  | Some s' =>
      Session.modeIs "l" s' = true /\ Session.ui s' = Some 2%Z /\
      Session.readMore s' = Some 2%nat /\
      (2 + Z.of_nat 2 <= Z.of_nat (length (Bot.logs (Session.bot s'))))%Z
  | None => False
  end.
Proof.
  split; [reflexivity|].
  destruct (Session.run Example.services Example.screen Example.scrollBack)
    as [s'|] eqn:Hrun.
  - assert (Hl : Session.modeIs "l" s' = true)
      by (vm_compute in Hrun; injection Hrun as <-; reflexivity).
    assert (Hui : Session.ui s' = Some 2%Z)
      by (vm_compute in Hrun; injection Hrun as <-; reflexivity).
    assert (Hread : Session.readMore s' = Some 2%nat)
      by (vm_compute in Hrun; injection Hrun as <-; reflexivity).
    split; [exact Hl|]. split; [exact Hui|]. split; [exact Hread|].
    apply (log_scroll_stays_within_log Example.services Example.screen Example.scrollBack
             s' 2%Z 1%nat eq_refl Hrun Hl Hui Hread).
  - vm_compute in Hrun. discriminate.
Defined.

Lemma log_view_is_stable_witness :
  Session.modeIs "l" Example.scrolled = true /\
  Session.ui Example.scrolled = Some 2%Z /\
  Session.readMore Example.scrolled = Some 1%nat /\
  (0 < 2 + Z.of_nat 1)%Z /\
  exists s2 shown,
    Session.refresh Example.scrolled
    = (Example.scrolled, [Session.rendered (Session.renderLogs shown)], inr tt) /\
    Session.log (logMessage "info" "six") Example.scrolled
    = (s2, [Session.rendered (Session.renderLogs (shown ++ [logMessage "info" "six"]))],
       inr tt) /\
    length shown = 3%nat.
Proof.
  split; [reflexivity|]. split; [reflexivity|]. split; [reflexivity|]. split; [lia|].
  destruct (log_view_is_stable Example.scrolled (logMessage "info" "six") 2%Z 0%nat
              eq_refl eq_refl eq_refl ltac:(lia))
    as (s1 & s2 & shown & Hrefresh & Hlog & _).
  exists s2, shown.
  assert (Hshown : Session.refresh Example.scrolled
                   = (Example.scrolled,
                      [Session.rendered (Session.renderLogs (drop 2 Example.fiveEntries))],
                      inr tt)) by reflexivity.
  rewrite Hshown in Hrefresh. injection Hrefresh as <- <-.
  split; [reflexivity|]. split; [exact Hlog|reflexivity].
Defined.

Lemma next_and_previous_chart_cancel_witness :
  NoDup (Session.chartKeys Example.screen) /\
  ~ In "" (Session.chartKeys Example.screen) /\
  Session.modeIn ["c"; "z"] Example.screen = true /\
  Session.currentChart Example.screen = Some "c1" /\
  Session.currentChart
    (press Example.services Example.offline Session.keyC Example.screen) = Some "c2" /\
  Session.currentChart
    (press Example.services Example.offline Session.keyX
       (press Example.services Example.offline Session.keyC Example.screen)) = Some "c1".
Proof.
  assert (Hnd : NoDup (Session.chartKeys Example.screen)).
  { apply (bool_decide_unpack _). vm_compute. exact I. }
  assert (Hempty : ~ In "" (Session.chartKeys Example.screen)).
  { intros [H|[H|[]]]; discriminate. }
  split; [exact Hnd|]. split; [exact Hempty|]. split; [reflexivity|].
  split; [reflexivity|]. split; [reflexivity|].
  apply (next_and_previous_chart_cancel Example.services Example.offline Example.screen
           Example.twoCharts "c1" Session.keyC Session.keyX
           (or_introl (conj eq_refl eq_refl)) Hnd Hempty eq_refl eq_refl eq_refl eq_refl).
  simpl. left. reflexivity.
Defined.

Lemma advisors_cycle_witness :
  NoDup (map fst (Bot.advisors (Session.bot Example.screen))) /\
  ~ In "" (map fst (Bot.advisors (Session.bot Example.screen))) /\
  Session.currentAdvisor Example.screen = Some "example" /\
  Session.currentAdvisor
    (Nat.iter 1 (press Example.services Example.offline Session.keyA) Example.screen)
  = Some "other" /\
  Session.currentAdvisor
    (Nat.iter 2 (press Example.services Example.offline Session.keyA) Example.screen)
  = Some "example".
Proof.
  assert (Hnd : NoDup (map fst (Bot.advisors (Session.bot Example.screen)))).
  { apply (bool_decide_unpack _). vm_compute. exact I. }
  assert (Hempty : ~ In "" (map fst (Bot.advisors (Session.bot Example.screen)))).
  { intros [H|[H|[]]]; discriminate. }
  split; [exact Hnd|]. split; [exact Hempty|]. split; [reflexivity|].
  destruct (advisors_cycle Example.services Example.offline Example.screen 0%nat "example"
              1%nat Hnd Hempty eq_refl eq_refl) as (Hone & Hround & _).
  split; [exact Hone|exact Hround].
Defined.

Lemma z_shows_an_open_trade_witness :
  List.filter Trade.isOpen (Bot.trades (Session.bot Example.screen)) <> [] /\
  Bot.currentMode
    (Session.bot (press Example.services Example.offline Session.keyZ Example.screen))
  = Some "z" /\
  Session.currentAdvisor
    (press Example.services Example.offline Session.keyZ Example.screen) = Some "other".
Proof.
  assert (Hopen : List.filter Trade.isOpen (Bot.trades (Session.bot Example.screen)) <> [])
    by discriminate.
  assert (Hids : forall trade, In trade (Bot.trades (Session.bot Example.screen)) ->
                   Trade.advisorId trade <> "").
  { intros trade [<-|[<-|[]]]; discriminate. }
  split; [exact Hopen|].
  destruct (z_shows_an_open_trade Example.services Example.offline Example.screen Hopen Hids)
    as (_ & Hmode & _ & _).
  split; [exact Hmode|reflexivity].
Defined.

Lemma legacy_log_keeps_latest_witness :
  (length (Legacy.logs Example.oldBot) <= 2000)%nat /\
  Legacy.logs (fold_left Legacy.logEvent Example.fiveEntries Example.oldBot)
  = Example.fiveEntries.
Proof.
  assert (Hlen : (length (Legacy.logs Example.oldBot) <= 2000)%nat) by apply Nat.le_0_l.
  split; [exact Hlen|].
  destruct (legacy_log_keeps_latest Example.oldBot Example.fiveEntries Hlen) as (Hlogs & _).
  rewrite Hlogs. reflexivity.
Defined.

Lemma legacy_unsettled_digestion_blocks_later_advices_witness :
  Legacy.digestInOrder Example.oldBot "example" "c1" false
    [{| Legacy.signal := "LONG"; Legacy.strategy := Example.vsa |};
     {| Legacy.signal := "CLOSE SHORT"; Legacy.strategy := Example.vsa |}] []
  = Some (Example.oldBot,
          Legacy.blocked [{| Legacy.signal := "CLOSE SHORT"; Legacy.strategy := Example.vsa |}]).
Proof.
  apply (legacy_unsettled_digestion_blocks_later_advices Example.oldBot "example" "c1" false
           {| Legacy.signal := "LONG"; Legacy.strategy := Example.vsa |}).
  left. split; [left; reflexivity|reflexivity].
Defined.

Lemma legacy_advisor_margin_is_validated_witness :
  exists b',
    Legacy.addAdvisor Example.oldHost Example.oldBot "margin" = Legacy.resolves b' /\
    exists margin,
      (0 <? margin)%float = true /\ (100 <? margin)%float = false /\
      is_Some (Legacy.charts b' !! "c1") /\
      Legacy.getAdvisor (Legacy.advisors b') "margin"
      = Some (Legacy.newAdvisor Example.oldHost "Margin" ["c1"] margin).
Proof.
  destruct (Legacy.addAdvisor Example.oldHost Example.oldBot "margin") as [b'|e|b'] eqn:Hadd;
    [|vm_compute in Hadd; discriminate|vm_compute in Hadd; discriminate].
  exists b'. split; [reflexivity|].
  destruct (legacy_advisor_margin_is_validated Example.oldHost Example.oldBot "margin" b' Hadd)
    as (fields & sight & sights & chartConfigs & chartIds & margin
        & Hmodule & _ & Hpos & Hmax & Hsights & Hconfigs & Hids & Hloaded & Hget).
  exists margin. split; [exact Hpos|]. split; [exact Hmax|].
  simpl in Hmodule. injection Hmodule as <-.
  simpl in Hsights. injection Hsights as <- <-.
  simpl in Hconfigs. injection Hconfigs as <-.
  inversion Hids as [|? chartId ? rest Hid Hrest]; subst. inversion Hrest; subst.
  simpl in Hid. injection Hid as <-.
  split; [apply Hloaded; left; reflexivity|exact Hget].
Defined.

Lemma legacy_advisor_without_margin_is_rejected_witness :
  Js.truthy (Js.getField [("sights", Js.array [Js.object [("symbol", Js.str "BTCUSDT")]])]
               "margin") = false /\
  Legacy.addAdvisor Example.oldHost Example.oldBot "example"
  = Legacy.rejects (Js.error "Advisor Example not properly configured").
Proof.
  split; [reflexivity|].
  apply (legacy_advisor_without_margin_is_rejected Example.oldHost Example.oldBot "example"
           [("sights", Js.array [Js.object [("symbol", Js.str "BTCUSDT")]])]
           eq_refl eq_refl).
Defined.

Lemma resubscription_reaches_open_trades_witness :
  atMostOneOpen (Bot.trades Example.bot0) /\
  match Bot.run Example.noStrings (Bot.initialWorld Example.bot0) Example.openLong with
  | Some w =>
      Bot.resubscribeTradesToNewStream (Bot.bot w) "c1" = [0%nat] /\
      Bot.resubscribeTradesToNewStream (Bot.bot w) "c2" = [] /\
      (In 0%nat (Bot.resubscribeTradesToNewStream (Bot.bot w) "c1") <->
       exists trade, Bot.trades (Bot.bot w) !! 0%nat = Some trade /\
         Trade.chartId trade = "c1" /\ Trade.isOpen trade = true)
  | None => False
  end.
Proof.
  split; [exact atMostOneOpen_nil|].
  destruct (Bot.run Example.noStrings (Bot.initialWorld Example.bot0) Example.openLong)
    as [w|] eqn:Hrun; [|vm_compute in Hrun; discriminate].
  destruct (resubscription_reaches_open_trades Example.noStrings Example.bot0
              Example.openLong w "c1" atMostOneOpen_nil Hrun) as [Hin _].
  split; [vm_compute in Hrun; injection Hrun as <-; reflexivity|].
  split; [vm_compute in Hrun; injection Hrun as <-; reflexivity|].
  apply (Hin 0%nat).
Defined.

